(** * Detection decoding and suppression of the YOLOv4 example

  A shallow embedding of [extractPredictions] (yolo4/main.go) and of the
  library functions it calls: Go's [int] arithmetic, IEEE-754 [float32]
  and [float64], [image.Rect], [Rectangle.Size], [Rectangle.Intersect],
  [gocv.MinMaxLoc] and [sort.Sort].

  Floating-point numbers are the [spec_float] of the standard library,
  with precision 24 / exponent 128 for [float32] and 53 / 1024 for
  [float64]; integers are [Z] with the 64-bit wrap-around written out. *)

From Stdlib Require Import ZArith List Bool Lia String Permutation Sorted.
From Stdlib Require Import SpecFloat.
Import ListNotations.
Open Scope Z_scope.

(* ================================================================== *)
(** ** Go's [int] (64 bits, two's complement) *)

Module GoInt.

Definition min_int : Z := - 2 ^ 63.
Definition max_int : Z := 2 ^ 63 - 1.

Definition wrap (z : Z) : Z := (z + 2 ^ 63) mod 2 ^ 64 - 2 ^ 63.

Definition in_range (z : Z) : Prop := min_int <= z <= max_int.

Definition add (a b : Z) : Z := wrap (a + b).
Definition sub (a b : Z) : Z := wrap (a - b).
Definition mul (a b : Z) : Z := wrap (a * b).
(** [a / b] on integers truncates toward zero. *)
Definition quo (a b : Z) : Z := wrap (Z.quot a b).

End GoInt.

(* ================================================================== *)
(** ** IEEE-754 numbers *)

Module Float.

Definition float32 := spec_float.
Definition float64 := spec_float.

Definition is_nan (x : spec_float) : bool :=
  match x with S754_nan => true | _ => false end.

Definition mul32 : float32 -> float32 -> float32 := SFmul 24 128.
Definition mul64 : float64 -> float64 -> float64 := SFmul 53 1024.

(** [float32(n)] and [float64(n)] for an [int] n: round to nearest even. *)
Definition float32_of_int (n : Z) : float32 := binary_normalize 24 128 n 0 false.
Definition float64_of_int (n : Z) : float64 := binary_normalize 53 1024 n 0 false.

(** The integer part of a finite number, toward zero. *)
Definition trunc (x : spec_float) : option Z :=
  match x with
  | S754_zero _ => Some 0
  | S754_finite s m e =>
      let t := Z.shiftl (Zpos m) e in Some (if s then - t else t)
  | _ => None
  end.

(** [int(x)] for a float x.  Go leaves the result of a conversion that
    does not fit implementation-dependent; amd64 yields the smallest
    [int], which is what is written here. *)
Definition int_of_float (x : spec_float) : Z :=
  match trunc x with
  | Some t =>
      if (GoInt.min_int <=? t) && (t <=? GoInt.max_int) then t
      else GoInt.min_int
  | None => GoInt.min_int
  end.

(** [x < y] and [x <= y]; both are false as soon as one side is NaN. *)
Definition ltb (x y : spec_float) : bool := SFltb x y.
Definition leb (x y : spec_float) : bool := SFleb x y.

(** *** The order of the numbers that are not NaN

    [key] sends such a number to a triple compared lexicographically:
    the rank of its class, then exponent and mantissa (negated for
    negative numbers). *)
Definition key (x : spec_float) : Z * Z * Z :=
  match x with
  | S754_infinity true => (-2, 0, 0)
  | S754_finite true m e => (-1, - e, - Zpos m)
  | S754_zero _ => (0, 0, 0)
  | S754_nan => (0, 0, 0)
  | S754_finite false m e => (1, e, Zpos m)
  | S754_infinity false => (2, 0, 0)
  end.

Definition key_lt (a b : Z * Z * Z) : Prop :=
  let '(c1, e1, m1) := a in
  let '(c2, e2, m2) := b in
  c1 < c2 \/ (c1 = c2 /\ (e1 < e2 \/ (e1 = e2 /\ m1 < m2))).

End Float.

(* ================================================================== *)
(** ** Package [image]: points and rectangles *)

Module Image.

Record Point := Pt { X : Z; Y : Z }.

Record Rectangle := Rectangle_ { Min : Point; Max : Point }.

(** [image.ZR], the zero rectangle. *)
Definition ZR : Rectangle := {| Min := Pt 0 0; Max := Pt 0 0 |}.

(** [image.Rect(x0, y0, x1, y1)]: the corners are swapped where needed,
    so that the result is well formed. *)
Definition Rect (x0 y0 x1 y1 : Z) : Rectangle :=
  let '(x0, x1) := if x0 >? x1 then (x1, x0) else (x0, x1) in
  let '(y0, y1) := if y0 >? y1 then (y1, y0) else (y0, y1) in
  {| Min := Pt x0 y0; Max := Pt x1 y1 |}.

(** [r.Size()]: width and height. *)
Definition Size (r : Rectangle) : Point :=
  Pt (GoInt.sub (X (Max r)) (X (Min r))) (GoInt.sub (Y (Max r)) (Y (Min r))).

(** [r.Empty()] *)
Definition Empty (r : Rectangle) : bool :=
  (X (Min r) >=? X (Max r)) || (Y (Min r) >=? Y (Max r)).

(** [r.Intersect(s)]: the largest rectangle contained in both, [ZR] when
    the two do not overlap. *)
Definition Intersect (r s : Rectangle) : Rectangle :=
  let minX := if X (Min r) <? X (Min s) then X (Min s) else X (Min r) in
  let minY := if Y (Min r) <? Y (Min s) then Y (Min s) else Y (Min r) in
  let maxX := if X (Max r) >? X (Max s) then X (Max s) else X (Max r) in
  let maxY := if Y (Max r) >? Y (Max s) then Y (Max s) else Y (Max r) in
  let r' := {| Min := Pt minX minY; Max := Pt maxX maxY |} in
  if Empty r' then ZR else r'.

(** Min is component-wise at most Max. *)
Definition canonical (r : Rectangle) : Prop :=
  X (Min r) <= X (Max r) /\ Y (Min r) <= Y (Max r).

End Image.

Import Image.

(* ================================================================== *)
(** ** Panics and the results of code that may panic *)

Inductive panic : Type :=
| IndexOutOfRange (index len : Z)   (* runtime error: index out of range *)
| CvException.                      (* a failed assertion inside OpenCV *)

Inductive result (A : Type) : Type :=
| Ok (a : A)
| Panic (p : panic).

Arguments Ok {A} a.
Arguments Panic {A} p.

Definition bind {A B} (r : result A) (k : A -> result B) : result B :=
  match r with
  | Ok a => k a
  | Panic p => Panic p
  end.

Notation "x <- r ;; k" := (bind r (fun x => k))
  (at level 61, r at next level, right associativity).

(** [l[i]] on a slice. *)
Definition index {A} (l : list A) (i : Z) : result A :=
  if (0 <=? i) && (i <? Z.of_nat (List.length l)) then
    match nth_error l (Z.to_nat i) with
    | Some a => Ok a
    | None => Panic (IndexOutOfRange i (Z.of_nat (List.length l)))
    end
  else Panic (IndexOutOfRange i (Z.of_nat (List.length l))).

(* ================================================================== *)
(** ** Package [gocv]: the matrix operations of the decoder

    A [Mat] of type CV_32F is the list of its rows, each row the list of
    its [Cols()] entries. *)

Definition Row := list Float.float32.
Definition Mat := list Row.

(** [row.ColRange(start, prob.Cols())]: OpenCV asserts
    [0 <= start <= end <= cols]. *)
Definition ColRange (start : Z) (row : Row) : result Row :=
  if (0 <=? start) && (start <=? Z.of_nat (List.length row))
  then Ok (skipn (Z.to_nat start) row)
  else Panic CvException.

(** [row.GetFloatAt(0, c)] *)
Definition GetFloatAt (row : Row) (c : nat) : Float.float32 :=
  nth c row (S754_zero false).

(** The scan of [cv::minMaxIdx] for the maximum: the running maximum
    starts at minus infinity and moves only to an entry strictly above
    it, so that the first of several equal maxima wins and NaN entries
    are passed over. *)
Fixpoint maxScan (l : Row) (i : Z) (maxVal : Float.float32) (maxIdx : Z)
  : Float.float32 * Z :=
  match l with
  | [] => (maxVal, maxIdx)
  | v :: l' =>
      if Float.ltb maxVal v then maxScan l' (i + 1) v i
      else maxScan l' (i + 1) maxVal maxIdx
  end.

(** [_, maxVal, _, maxLoc := gocv.MinMaxLoc(m)] on a matrix of one row,
    as the pair of [maxVal] and [maxLoc.X].  When no entry moved the
    maximum the location is that of the first entry; an empty matrix
    gives the value 0 at location -1. *)
Definition MinMaxLoc (m : Row) : Float.float32 * Z :=
  match m with
  | [] => (S754_zero false, -1)
  | _ => maxScan m 0 (S754_infinity true) 0
  end.

(* ================================================================== *)
(** ** yolo4/main.go *)

(** [confThr = 0.5] as a [float32] and [ovrThr = 0.4] as a [float64]. *)
Definition confThr : Float.float32 := S754_finite false 8388608 (-24).
Definition ovrThr : Float.float64 := S754_finite false 7205759403792794 (-54).

Record YoloDetection := {
  detClass : Z;
  detName : string;
  detConf : Float.float32;
  detBBox : Rectangle
}.

Definition YoloDSlice := list YoloDetection.

(** [yd.Less(i, j)], on the two elements. *)
Definition Less (a b : YoloDetection) : bool :=
  Float.ltb (detConf a) (detConf b).

(** The [Less] of [sort.Reverse(yd)]. *)
Definition Reverse_Less (a b : YoloDetection) : bool := Less b a.

(** The body of the inner loop of the decoder, for one row: the
    detection appended to [yd], if any. *)
Definition decodeRow (frameWidth frameHeight : Z) (classLabels : list string)
  (row : Row) : result (option YoloDetection) :=
  scores <- ColRange 5 row ;;
  let '(confidence, maxLoc) := MinMaxLoc scores in
  if Float.ltb confThr confidence then
    let classID := maxLoc in
    className <- index classLabels classID ;;
    let centerX := Float.int_of_float
      (Float.mul32 (GetFloatAt row 0) (Float.float32_of_int frameWidth)) in
    let centerY := Float.int_of_float
      (Float.mul32 (GetFloatAt row 1) (Float.float32_of_int frameHeight)) in
    let width := Float.int_of_float
      (Float.mul32 (GetFloatAt row 2) (Float.float32_of_int frameWidth)) in
    let height := Float.int_of_float
      (Float.mul32 (GetFloatAt row 3) (Float.float32_of_int frameHeight)) in
    let left := GoInt.sub centerX (GoInt.quo width 2) in
    let top := GoInt.sub centerY (GoInt.quo height 2) in
    Ok (Some {| detClass := classID;
                detName := className;
                detConf := confidence;
                detBBox := Rect left top (GoInt.add left width) (GoInt.add top height) |})
  else Ok None.

(** [for j := 0; j < prob.Rows(); j++ { ... }] *)
Fixpoint rowsLoop (frameWidth frameHeight : Z) (classLabels : list string)
  (rows : list Row) (yd : YoloDSlice) : result YoloDSlice :=
  match rows with
  | [] => Ok yd
  | row :: rows' =>
      r <- decodeRow frameWidth frameHeight classLabels row ;;
      rowsLoop frameWidth frameHeight classLabels rows'
        (match r with Some d => yd ++ [d] | None => yd end)
  end.

(** [for _, prob := range detLayers { ... }] *)
Fixpoint layersLoop (frameWidth frameHeight : Z) (classLabels : list string)
  (detLayers : list Mat) (yd : YoloDSlice) : result YoloDSlice :=
  match detLayers with
  | [] => Ok yd
  | prob :: detLayers' =>
      yd' <- rowsLoop frameWidth frameHeight classLabels prob yd ;;
      layersLoop frameWidth frameHeight classLabels detLayers' yd'
  end.

(** The first half of [extractPredictions]: the candidates. *)
Definition decode (detLayers : list Mat) (frameWidth frameHeight : Z)
  (classLabels : list string) : result YoloDSlice :=
  layersLoop frameWidth frameHeight classLabels detLayers [].

(** [area := d.detBBox.Size().X * d.detBBox.Size().Y] *)
Definition area (r : Rectangle) : Z := GoInt.mul (X (Size r)) (Y (Size r)).

(** [float64(ovArea) <= ovrThr*float64(area)] for a candidate d and an
    accepted detection df. *)
Definition withinThr (d df : YoloDetection) : bool :=
  let area := area (detBBox d) in
  let overlap := Intersect (detBBox d) (detBBox df) in
  let ovArea := GoInt.mul (X (Size overlap)) (Y (Size overlap)) in
  Float.leb (Float.float64_of_int ovArea)
            (Float.mul64 ovrThr (Float.float64_of_int area)).

(** [for _, df := range ydFiltered { keep = keep && ...; if !keep { break } }] *)
Fixpoint keepLoop (d : YoloDetection) (ydFiltered : YoloDSlice) (keep : bool) : bool :=
  match ydFiltered with
  | [] => keep
  | df :: rest =>
      let keep := keep && withinThr d df in
      if negb keep then keep else keepLoop d rest keep
  end.

(** [for _, d := range yd { keep := true; ...; if keep { append } }] *)
Fixpoint nmsLoop (yd : YoloDSlice) (ydFiltered : YoloDSlice) : YoloDSlice :=
  match yd with
  | [] => ydFiltered
  | d :: yd' =>
      let keep := keepLoop d ydFiltered true in
      nmsLoop yd' (if keep then ydFiltered ++ [d] else ydFiltered)
  end.

(** *** [sort.Sort]

    The library promises a permutation of the slice in which no element
    is [Less] than its predecessor, and no stability; which permutation
    it is depends on the algorithm of the Go release.  The program is
    therefore written over any function [sort_Sort], and the facts below
    name the part of the promise they rely on. *)

Section Program.

Variable sort_Sort : YoloDSlice -> YoloDSlice.

(** The second half of [extractPredictions]: sort, then the greedy pass. *)
Definition suppress (yd : YoloDSlice) : YoloDSlice :=
  nmsLoop (sort_Sort yd) [].

Definition extractPredictions (detLayers : list Mat) (imgSize : list Z)
  (classLabels : list string) : result YoloDSlice :=
  frameWidth <- index imgSize 1 ;;
  frameHeight <- index imgSize 0 ;;
  yd <- decode detLayers frameWidth frameHeight classLabels ;;
  Ok (suppress yd).

End Program.

(** What [sort.IsSorted] checks of a slice under [sort.Reverse]. *)
Definition IsSorted (yd : YoloDSlice) : Prop :=
  Sorted (fun prev next => Reverse_Less next prev = false) yd.

(** [insertionSort] of package [sort], which is all that [sort.Sort] runs
    on a short slice (at most 12 elements; at most 6 before Go 1.19):
    each element moves down while it is [Less] than its predecessor.
    The sorted prefix is kept reversed, its last element first. *)
Fixpoint insertDown (x : YoloDetection) (rprefix : YoloDSlice) : YoloDSlice :=
  match rprefix with
  | [] => [x]
  | y :: rest =>
      if Reverse_Less x y then y :: insertDown x rest
      else x :: rprefix
  end.

Definition insertionSort (yd : YoloDSlice) : YoloDSlice :=
  rev (fold_left (fun rprefix x => insertDown x rprefix) yd []).

(* ================================================================== *)
(** ** Statements of the specification, in its own words *)



(** The candidates one row contributes, and whether its decoding runs to
    completion. *)
Definition rowCandidates (frameWidth frameHeight : Z) (classLabels : list string)
  (row : Row) : YoloDSlice :=
  match decodeRow frameWidth frameHeight classLabels row with
  | Ok (Some d) => [d]
  | _ => []
  end.

Definition rowDecodes (frameWidth frameHeight : Z) (classLabels : list string)
  (row : Row) : Prop :=
  exists r, decodeRow frameWidth frameHeight classLabels row = Ok r.

(** A normalised coordinate scaled to pixels: [int(v * float32(dim))]. *)
Definition pixels (v : Float.float32) (dim : Z) : Z :=
  Float.int_of_float (Float.mul32 v (Float.float32_of_int dim)).

(** [subseq k l]: k is l with some elements left out, the order kept. *)
Inductive subseq {A : Type} : list A -> list A -> Prop :=
| subseq_nil : subseq [] []
| subseq_skip x k l : subseq k l -> subseq k (x :: l)
| subseq_keep x k l : subseq k l -> subseq (x :: k) (x :: l).

(** A candidate whose confidence is a number; every candidate of the
    decoder is one, its confidence being above the threshold. *)
Definition numeric (d : YoloDetection) : Prop := Float.is_nan (detConf d) = false.

(** Confidence-descending: each detection's confidence is at least that
    of the next one. *)
Definition descending (yd : YoloDSlice) : Prop :=
  Sorted (fun earlier later => Float.leb (detConf later) (detConf earlier) = true) yd.

(** Two candidates whose confidences differ: one is strictly below the
    other. *)
Definition differ (a b : YoloDetection) : Prop :=
  Less a b = true \/ Less b a = true.

(** No two candidates of the slice have equal confidence. *)
Definition distinctConf (yd : YoloDSlice) : Prop := ForallOrdPairs differ yd.

(** "a is not below b", between numeric candidates: a transitive
    relation. *)
Definition notBelow (a b : YoloDetection) : Prop :=
  numeric a /\ numeric b /\ Less a b = false.

(** "a is strictly above b". *)
Definition above (a b : YoloDetection) : Prop := Less b a = true.

(** The score columns as the specification has them: columns 4..N. *)
Definition specScoreColumns (row : Row) : Row := skipn 4 row.

(** A rectangle whose sides are shorter than 2^31 pixels. *)
Definition sidesFit (r : Rectangle) : Prop :=
  X (Max r) - X (Min r) < 2 ^ 31 /\ Y (Max r) - Y (Min r) < 2 ^ 31.

(* ================================================================== *)
(** ** Sample inputs *)

Module Samples.

(** The [float32] nearest to n/d. *)
Definition q32 (n d : Z) : Float.float32 :=
  SFdiv 24 128 (Float.float32_of_int n) (Float.float32_of_int d).

Definition labels : list string := ["person"%string; "car"%string].

Definition box40 : Rectangle := {| Min := Pt 40 40; Max := Pt 60 60 |}.

(** Centre (0.5, 0.5), size 0.2 x 0.2, objectness 1, scores 0.9 and 0.1. *)
Definition rowPerson : Row :=
  [q32 1 2; q32 1 2; q32 2 10; q32 2 10; q32 1 1; q32 9 10; q32 1 10].

(** The same box, scores 0.1 and 0.9. *)
Definition rowCar : Row :=
  [q32 1 2; q32 1 2; q32 2 10; q32 2 10; q32 1 1; q32 1 10; q32 9 10].

(** The same box, scores 0.8 and 0.1. *)
Definition rowFainter : Row :=
  [q32 1 2; q32 1 2; q32 2 10; q32 2 10; q32 1 1; q32 8 10; q32 1 10].

(** Objectness 0.95 in column 4, scores 0.6 and 0.9 in columns 5 and 6. *)
Definition rowObjectness : Row :=
  [q32 1 2; q32 1 2; q32 2 10; q32 2 10; q32 95 100; q32 6 10; q32 9 10].

(** Three scores, the largest (0.9) the third: class index 2. *)
Definition rowThird : Row :=
  [q32 1 2; q32 1 2; q32 2 10; q32 2 10; q32 1 1; q32 1 10; q32 2 10; q32 9 10].

(** A box as large as the image, scores 0.9 and 0.8. *)
Definition rowWhole : Row :=
  [q32 1 2; q32 1 2; q32 1 1; q32 1 1; q32 1 1; q32 9 10].
Definition rowWhole' : Row :=
  [q32 1 2; q32 1 2; q32 1 1; q32 1 1; q32 1 1; q32 8 10].

Definition detPerson : YoloDetection :=
  {| detClass := 0; detName := "person"; detConf := q32 9 10; detBBox := box40 |}.

Definition detCar : YoloDetection :=
  {| detClass := 1; detName := "car"; detConf := q32 9 10; detBBox := box40 |}.

Definition detFainter : YoloDetection :=
  {| detClass := 0; detName := "person"; detConf := q32 8 10; detBBox := box40 |}.

(** An image of 2^32 by 2^31 pixels, and the box that covers it. *)
Definition hugeWidth : Z := 2 ^ 32.
Definition hugeHeight : Z := 2 ^ 31.

Definition boxWhole : Rectangle :=
  {| Min := Pt 0 0; Max := Pt hugeWidth hugeHeight |}.

Definition detWhole : YoloDetection :=
  {| detClass := 0; detName := "person"; detConf := q32 9 10; detBBox := boxWhole |}.

Definition detWhole' : YoloDetection :=
  {| detClass := 0; detName := "person"; detConf := q32 8 10; detBBox := boxWhole |}.

End Samples.

(* ================================================================== *)
(** * The rest of yolo4/main.go *)

From Stdlib Require Import Ascii.
From Equations Require Import Equations.

(* ================================================================== *)
(** ** The methods of [YoloDSlice] ([sort.Interface]) *)

Module Slice.

(** [l[i] = x], for an index within the slice. *)
Definition setAt {A} (l : list A) (i : Z) (x : A) : list A :=
  firstn (Z.to_nat i) l ++ x :: skipn (S (Z.to_nat i)) l.

(** [yd.Len()] *)
Definition Len (yd : YoloDSlice) : Z := Z.of_nat (List.length yd).

(** [yd.Less(i, j)]: [yd[i].detConf < yd[j].detConf] *)
Definition Less (yd : YoloDSlice) (i j : Z) : result bool :=
  a <- index yd i ;;
  b <- index yd j ;;
  Ok (Float.ltb (detConf a) (detConf b)).

(** [yd.Swap(i, j)]: [yd[i], yd[j] = yd[j], yd[i]].  Both right-hand
    sides are read before the first assignment. *)
Definition Swap (yd : YoloDSlice) (i j : Z) : result YoloDSlice :=
  b <- index yd j ;;
  a <- index yd i ;;
  Ok (setAt (setAt yd i b) j a).

End Slice.

(* ================================================================== *)
(** ** [readClassLabels] *)

(** A function that may end the process ([log.Fatal] prints and calls
    [os.Exit(1)]). *)
Inductive run (A : Type) : Type :=
| Returns (a : A)
| Exits (status : Z).

Arguments Returns {A} a.
Arguments Exits {A} status.

(** Package [bufio]: a [Scanner] with the default split function
    [ScanLines] over the bytes of a file that are still unread. *)
Module Bufio.

Definition LF : ascii := "010"%char.
Definition CR : ascii := "013"%char.

(** [MaxScanTokenSize = 64 * 1024]: the size of the largest buffer. *)
Definition MaxScanTokenSize : Z := 64 * 1024.

(** The bytes before the first newline and those after it
    ([bytes.IndexByte(data, '\n')]). *)
Fixpoint cutAtNewline (data : string) : option (string * string) :=
  match data with
  | EmptyString => None
  | String c rest =>
      if Ascii.eqb c LF then Some (EmptyString, rest)
      else match cutAtNewline rest with
           | Some (line, after) => Some (String c line, after)
           | None => None
           end
  end.

(** [dropCR]: a terminal carriage return is dropped. *)
Fixpoint dropCR (data : string) : string :=
  match data with
  | EmptyString => EmptyString
  | String c EmptyString => if Ascii.eqb c CR then EmptyString else data
  | String c rest => String c (dropCR rest)
  end.

(** One [scanner.Scan()]: the token of [scanner.Text()] and the bytes
    left, or [None] when [Scan] returns false.  That is at the end of
    the file, and when the buffer of [MaxScanTokenSize] bytes is full
    before a newline or the end of the file is met ([ErrTooLong]). *)
Definition Scan (data : string) : option (string * string) :=
  match data with
  | EmptyString => None
  | _ =>
      match cutAtNewline data with
      | Some (line, after) =>
          if Z.of_nat (String.length line) <? MaxScanTokenSize
          then Some (dropCR line, after) else None
      | None =>
          if Z.of_nat (String.length data) <? MaxScanTokenSize
          then Some (dropCR data, EmptyString) else None
      end
  end.

Definition inspect {A} (a : A) : {b : A | a = b} := exist _ a eq_refl.

End Bufio.

(** [for scanner.Scan() { cl = append(cl, scanner.Text()) }] *)
Equations? scanLoop (data : string) (cl : list string) : list string
  by wf (String.length data) lt :=
  scanLoop data cl with Bufio.inspect (Bufio.Scan data) := {
    | exist _ (Some (token, rest)) E => scanLoop rest (cl ++ [token]);
    | exist _ None _ => cl }.
Proof.
  assert (forall d line after, Bufio.cutAtNewline d = Some (line, after) ->
            (String.length after < String.length d)%nat) as Hcut.
  { induction d as [|c d IH]; cbn; intros line after; [discriminate|].
    destruct (Ascii.eqb c Bufio.LF).
    - intros [= _ <-]. lia.
    - destruct (Bufio.cutAtNewline d) as [[l a]|]; [|discriminate].
      intros [= _ <-]. specialize (IH l a eq_refl). lia. }
  unfold Bufio.Scan in E. destruct data as [|c d]; [discriminate|].
  destruct (Bufio.cutAtNewline (String c d)) as [[l a]|] eqn:EC.
  - destruct (_ <? _); [|discriminate]. injection E as _ <-.
    eapply Hcut; eauto.
  - destruct (_ <? _); [|discriminate]. injection E as _ <-. cbn. lia.
Defined.

(** [readClassLabels(filename)], over the files that can be opened:
    [os_Open filename] is the content of the file, if there is one.  An
    error of the scanner is not looked at: the labels read so far are
    returned. *)
Definition readClassLabels (os_Open : string -> option string) (filename : string)
  : run (list string) :=
  match os_Open filename with
  | None => Exits 1
  | Some content => Returns (scanLoop content [])
  end.

(** The lines of a text file, each followed by the line ending. *)
Fixpoint joinLines (eol : string) (lines : list string) : string :=
  match lines with
  | [] => EmptyString
  | l :: rest => (l ++ eol ++ joinLines eol rest)%string
  end.

Definition newline : string := String Bufio.LF EmptyString.
Definition crlf : string := String Bufio.CR newline.

(** No newline in the string. *)
Fixpoint noLF (s : string) : Prop :=
  match s with
  | EmptyString => True
  | String c rest => c <> Bufio.LF /\ noLF rest
  end.

(** A label that a line of the file can carry: no newline, no carriage
    return at its end, and room for its line ending in the buffer. *)
Definition plainLabel (l : string) : Prop :=
  noLF l /\ Bufio.dropCR l = l /\ Z.of_nat (String.length l) + 1 < Bufio.MaxScanTokenSize.

(* ================================================================== *)
(** ** [drawPredictions] *)

Module Draw.

(** [color.RGBA] *)
Record RGBA := { R : Z; G : Z; B : Z; A : Z }.

Definition green : RGBA := {| R := 0; G := 255; B := 0; A := 0 |}.
Definition darkblue : RGBA := {| R := 0; G := 0; B := 127; A := 0 |}.
Definition white : RGBA := {| R := 255; G := 255; B := 255; A := 0 |}.

(** [gocv.FontHersheySimplex], [fontScale = 0.6] as a [float64]. *)
Definition fontFace : Z := 0.
Definition fontScale : Float.float64 := S754_finite false 5404319552844595 (-53).
Definition fontThickness : Z := 1.
Definition bboxThickness : Z := 1.
Definition textPadding : Z := 3.

(** What is drawn on an image, in the order of drawing. *)
Inductive op : Type :=
| Rectangle (r : Image.Rectangle) (c : RGBA) (thickness : Z)
| PutText (text : string) (org : Point) (fontFace : Z) (fontScale : Float.float64)
          (c : RGBA) (thickness : Z).

Section Draw.

(** [gocv.GetTextSize(text, fontFace, fontScale, fontThickness)] *)
Variable GetTextSize : string -> Z -> Float.float64 -> Z -> Point.

(** The body of the loop, for one detection. *)
Definition drawOne (img : list op) (d : YoloDetection) : list op :=
  let textSize := GetTextSize (detName d) fontFace fontScale fontThickness in
  let bboxMin := Min (detBBox d) in
  let img := img ++
    [Rectangle
       (Rect (X bboxMin) (Y bboxMin)
             (GoInt.add (GoInt.add (X bboxMin) (X textSize)) (GoInt.mul 2 textPadding))
             (GoInt.sub (GoInt.sub (Y bboxMin) (Y textSize)) (GoInt.mul 2 textPadding)))
       darkblue (-1)] in
  let img := img ++
    [PutText (detName d)
       (Pt (GoInt.add (X (Min (detBBox d))) textPadding)
           (GoInt.sub (Y (Min (detBBox d))) (GoInt.mul 2 textPadding)))
       fontFace fontScale white fontThickness] in
  img ++ [Rectangle (detBBox d) green bboxThickness].

(** [for _, d := range yd { ... }] *)
Fixpoint drawPredictions (img : list op) (yd : YoloDSlice) : list op :=
  match yd with
  | [] => img
  | d :: yd' => drawPredictions (drawOne img d) yd'
  end.

End Draw.

(** The rectangle a text of the given size covers when drawn at [org],
    the left end of its base line. *)
Definition textBox (org size : Point) : Image.Rectangle :=
  {| Min := Pt (X org) (Y org - Y size); Max := Pt (X org + X size) (Y org) |}.

(** [inner] lies within [outer]. *)
Definition within (inner outer : Image.Rectangle) : Prop :=
  X (Min outer) <= X (Min inner) /\ X (Max inner) <= X (Max outer) /\
  Y (Min outer) <= Y (Min inner) /\ Y (Max inner) <= Y (Max outer).

End Draw.

(* ================================================================== *)
(** * The card detector (ORB) *)

Module Orb.

(** [gocv.DMatch] *)
Record DMatch := {
  QueryIdx : Z;
  TrainIdx : Z;
  ImgIdx : Z;
  Distance : Float.float64
}.

(** [thrMatches = 15]; [distFactor = 0.75] as a [float64];
    [detectInterval], 500 ms in nanoseconds. *)
Definition thrMatches : Z := 15.
Definition distFactor : Float.float64 := S754_finite false 6755399441055744 (-53).
Definition detectInterval : Z := 500 * 1000000.

Definition faceCardPrefixes : list string :=
  ["Jack"%string; "Queen"%string; "King"%string; "Ace of Spades"%string].

(** [strings.HasPrefix(s, prefix)] *)
Definition HasPrefix (s prefix : string) : bool := String.prefix prefix s.

(** [for _, pref := range faceCardPrefixes { if ... { return true } }
    return false] *)
Fixpoint prefixLoop (filename : string) (prefixes : list string) : bool :=
  match prefixes with
  | [] => false
  | pref :: rest =>
      if HasPrefix filename pref then true else prefixLoop filename rest
  end.

(** [isValidName(filename)], with the package variable [detectAll] as an
    argument. *)
Definition isValidName (detectAll : bool) (filename : string) : bool :=
  if detectAll then true else prefixLoop filename faceCardPrefixes.

(** [for _, mtcPair := range matches { if ... { num++ } }] *)
Fixpoint countLoop (matches : list (list DMatch)) (num : Z) : result Z :=
  match matches with
  | [] => Ok num
  | mtcPair :: rest =>
      m0 <- index mtcPair 0 ;;
      m1 <- index mtcPair 1 ;;
      countLoop rest
        (if Float.ltb (Distance m0) (Float.mul64 distFactor (Distance m1))
         then GoInt.add num 1 else num)
  end.

Section Detector.

(** [gocv.Mat], as far as the detector looks at it: whether it is
    empty, the descriptors [orb.DetectAndCompute] finds in it, and the
    matches of [bf.KnnMatch] between two sets of descriptors. *)
Variable CvMat : Type.
Variable Empty : CvMat -> bool.
Variable DetectAndCompute : CvMat -> CvMat.
Variable KnnMatch : CvMat -> CvMat -> Z -> list (list DMatch).

(** The zero value of [gocv.Mat]. *)
Variable zeroMat : CvMat.

Record ORBPattern := {
  name : string;
  img : CvMat;
  descr : CvMat
}.

(** The zero value [ORBPattern{}]. *)
Definition noPattern : ORBPattern :=
  {| name := EmptyString; img := zeroMat; descr := zeroMat |}.

(** [numGoodMatches(bf, descr1, descr2)] *)
Definition numGoodMatches (descr1 descr2 : CvMat) : result Z :=
  countLoop (KnnMatch descr1 descr2 2) 0.

(** [for i, pat := range opd.pats { ... }], from index i on. *)
Fixpoint matchLoop (descr1 : CvMat) (pats : list ORBPattern) (i : Z)
  (numMatches bestID : Z) : result (Z * Z) :=
  match pats with
  | [] => Ok (numMatches, bestID)
  | pat :: rest =>
      nMatches <- numGoodMatches descr1 (descr pat) ;;
      if (nMatches >? numMatches) && (nMatches >? thrMatches)
      then matchLoop descr1 rest (i + 1) nMatches i
      else matchLoop descr1 rest (i + 1) numMatches bestID
  end.

(** [opd.Match(img)]: the best pattern and its number of matches. *)
Definition Match (pats : list ORBPattern) (image : CvMat) : result (ORBPattern * Z) :=
  if Empty image then Ok (noPattern, 0)
  else
    let descr1 := DetectAndCompute image in
    r <- matchLoop descr1 pats 0 0 (-1) ;;
    let '(numMatches, bestID) := r in
    if bestID >=? 0 then
      best <- index pats bestID ;;
      Ok (best, numMatches)
    else Ok (noPattern, numMatches).

End Detector.

(** [t.Sub(u)]: the [time.Duration] between two readings of the clock,
    in nanoseconds, held within the range of an [int64]. *)
Definition Sub (t u : Z) : Z :=
  Z.max GoInt.min_int (Z.min GoInt.max_int (t - u)).

(** One turn of the loop of [main], lines 407-418: from the name and the
    number of matches of the frame's best pattern, the reading of the
    clock, and [lastDetClass], [lastDetTime], to [detectedClass] and
    the new [lastDetClass], [lastDetTime]. *)
Definition showStep (patName : string) (nMatches now : Z)
  (lastDetClass : string) (lastDetTime : Z) : string * (string * Z) :=
  if nMatches >? 0 then (patName, (patName, now))
  else if Sub now lastDetTime <? detectInterval
       then (lastDetClass, (lastDetClass, lastDetTime))
       else (EmptyString, (lastDetClass, lastDetTime)).

(** A frame as the loop sees it. *)
Record frame := { patName : string; nMatches : Z; now : Z }.

(** The loop over some frames: the state after them and what was
    shown, frame by frame. *)
Fixpoint showLoop (frames : list frame) (lastDetClass : string) (lastDetTime : Z)
  : list string * (string * Z) :=
  match frames with
  | [] => ([], (lastDetClass, lastDetTime))
  | f :: rest =>
      let '(detectedClass, (c, t)) :=
        showStep (patName f) (nMatches f) (now f) lastDetClass lastDetTime in
      let '(shown, st) := showLoop rest c t in
      (detectedClass :: shown, st)
  end.

(** The last frame in which a pattern was found. *)
Fixpoint lastFound (frames : list frame) : option frame :=
  match frames with
  | [] => None
  | f :: rest =>
      match lastFound rest with
      | Some g => Some g
      | None => if nMatches f >? 0 then Some f else None
      end
  end.

End Orb.

(** The test of [numGoodMatches] on one pair of matches: the nearest
    match is closer than [distFactor] times the second nearest. *)
Definition goodPair (mtcPair : list Orb.DMatch) : bool :=
  match mtcPair with
  | m0 :: m1 :: _ =>
      Float.ltb (Orb.Distance m0) (Float.mul64 Orb.distFactor (Orb.Distance m1))
  | _ => false
  end.

(** ** Loading the patterns *)

Module Patterns.
Import Orb.

Definition dot : ascii := "."%char.

(** [strings.Split(filename, ".")[0]]: the part before the first dot,
    the whole name when it has none. *)
Fixpoint beforeDot (filename : string) : string :=
  match filename with
  | EmptyString => EmptyString
  | String c rest => if Ascii.eqb c dot then EmptyString else String c (beforeDot rest)
  end.

(** [imgDir = "../real_cards/train_img"] *)
Definition imgDir : string := "../real_cards/train_img".

Section Load.

Variable CvMat : Type.
Variable Empty : CvMat -> bool.
Variable DetectAndCompute : CvMat -> CvMat.

(** [gocv.IMRead(path, gocv.IMReadGrayScale)]: an empty matrix when the
    file is no image. *)
Variable IMRead : string -> CvMat.

(** [for _, item := range items { ... }], over the names of the
    directory's entries. *)
Fixpoint loadLoop (detectAll : bool) (items : list string)
  (pats : list (ORBPattern CvMat)) : list (ORBPattern CvMat) :=
  match items with
  | [] => pats
  | filename :: rest =>
      if negb (isValidName detectAll filename) then loadLoop detectAll rest pats
      else
        let patImg := IMRead (imgDir ++ "/" ++ filename) in
        if negb (Empty patImg) then
          loadLoop detectAll rest
            (pats ++ [{| name := beforeDot filename;
                         img := patImg;
                         descr := DetectAndCompute patImg |}])
        else loadLoop detectAll rest pats
  end.

(** The patterns of [NewORBPatternDetector(orb, dir)]: none when
    [runtime.Caller] fails; otherwise those of the entries of [imgDir],
    [items] (none when the directory cannot be read). *)
Definition NewORBPatternDetector (callerOk detectAll : bool) (items : list string)
  : list (ORBPattern CvMat) :=
  if negb callerOk then [] else loadLoop detectAll items [].

End Load.

(** No dot in the string. *)
Fixpoint noDot (s : string) : Prop :=
  match s with
  | EmptyString => True
  | String c rest => c <> dot /\ noDot rest
  end.

End Patterns.

(* ================================================================== *)
(** * orb/edit-video/main.go *)

Module Video.

(** [outputFPS = 30], and the weights 0.7, 0.3, 0 and 1, as [float64]. *)
Definition outputFPS : Float.float64 := Eval vm_compute in Float.float64_of_int 30.
Definition w07 : Float.float64 :=
  Eval vm_compute in SFdiv 53 1024 (Float.float64_of_int 7) (Float.float64_of_int 10).
Definition w03 : Float.float64 :=
  Eval vm_compute in SFdiv 53 1024 (Float.float64_of_int 3) (Float.float64_of_int 10).
Definition zero : Float.float64 := S754_zero false.
Definition one : Float.float64 := Eval vm_compute in Float.float64_of_int 1.

(** The errors the three methods return. *)
Inductive error : Type :=
| CannotWrite                              (* "Cannot write to the file" *)
| NoTransition (delay : Float.float64)     (* "Cannot make transition of %f seconds" *)
| WrongDuration (delay : Float.float64).   (* "Wrong duration specified: %f seconds" *)

(** A call returns, or the program stops: on a nil pointer, or on an
    exception of OpenCV. *)
Inductive outcome (A : Type) : Type :=
| Done (a : A)
| NilDereference
| CvError.

Arguments Done {A} a.
Arguments NilDereference {A}.
Arguments CvError {A}.

Section Video.

(** What a [gocv.Mat] holds, what an empty one holds, and
    [gocv.AddWeighted(src1, alpha, src2, beta, gamma, &dst)] as the
    content it leaves in [dst], if it does not throw. *)
Variable Image : Type.
Variable noImage : Image.
Variable AddWeighted :
  Image -> Float.float64 -> Image -> Float.float64 -> Float.float64 -> option Image.

(** A [*gocv.Mat] is the number of a matrix.  The state: the content of
    every matrix, the number of the next matrix [gocv.NewMat] makes,
    whether the writer is opened, the frames written to the file, the
    field [vwm.lastFrame] and the frames the reader has not read. *)
Record state := {
  contents : nat -> Image;
  fresh : nat;
  opened : bool;
  written : list Image;
  lastFrame : option nat;
  unread : list Image
}.

Definition setContent (st : state) (m : nat) (x : Image) : state :=
  {| contents := fun k => if Nat.eqb k m then x else contents st k;
     fresh := fresh st; opened := opened st; written := written st;
     lastFrame := lastFrame st; unread := unread st |}.

(** [gocv.NewMat()] *)
Definition NewMat (st : state) : nat * state :=
  (fresh st,
   {| contents := fun k => if Nat.eqb k (fresh st) then noImage else contents st k;
      fresh := S (fresh st); opened := opened st; written := written st;
      lastFrame := lastFrame st; unread := unread st |}).

(** [vwm.vWriter.Write(m)]: the content of the matrix goes to the file;
    the error gocv returns is always nil. *)
Definition Write (st : state) (m : nat) : state :=
  {| contents := contents st; fresh := fresh st; opened := opened st;
     written := written st ++ [contents st m];
     lastFrame := lastFrame st; unread := unread st |}.

Definition setLastFrame (st : state) (m : nat) : state :=
  {| contents := contents st; fresh := fresh st; opened := opened st;
     written := written st; lastFrame := Some m; unread := unread st |}.

(** [vr.Read(&img)]: the next frame, an empty matrix at the end. *)
Definition Read (st : state) (m : nat) : state :=
  match unread st with
  | [] => setContent st m noImage
  | f :: rest =>
      {| contents := fun k => if Nat.eqb k m then f else contents st k;
         fresh := fresh st; opened := opened st; written := written st;
         lastFrame := lastFrame st; unread := rest |}
  end.

(** [nFrames := int(delay * outputFPS)] *)
Definition nFramesOf (delay : Float.float64) : Z :=
  Float.int_of_float (Float.mul64 delay outputFPS).

(** [for i := 0; i <= nFrames; i++ { vwm.lastFrame = img; ... }],
    with [count] turns left. *)
Fixpoint repeatLoop (count : nat) (st : state) (img : nat) : state :=
  match count with
  | O => st
  | S count' => repeatLoop count' (Write (setLastFrame st img) img) img
  end.

(** [vwm.RepeatFrame(img, delay)] *)
Definition RepeatFrame (st : state) (img : nat) (delay : Float.float64)
  : state * option error :=
  if negb (opened st) then (st, Some CannotWrite)
  else
    let nFrames := nFramesOf delay in
    (repeatLoop (Z.to_nat (nFrames + 1)) st img, None).

(** The weights of turn i of [FadeImageInto]. *)
Definition weights (i nFrames : Z) : Float.float64 * Float.float64 :=
  if i =? GoInt.sub nFrames 1 then (zero, one)
  else
    let beta := SFdiv 53 1024 (Float.float64_of_int i)
                      (Float.float64_of_int (GoInt.sub nFrames 1)) in
    (SFsub 53 1024 one beta, beta).

(** [for i := 0; i <= nFrames; i++ { ... }] of [FadeImageInto], from
    turn i, with [count] turns left. *)
Fixpoint fadeLoop (count : nat) (i nFrames : Z) (st : state) (img1 img2 img3 : nat)
  : outcome state :=
  match count with
  | O => Done st
  | S count' =>
      let '(alpha, beta) := weights i nFrames in
      match AddWeighted (contents st img1) alpha (contents st img2) beta one with
      | None => CvError
      | Some x =>
          let st := setContent st img3 x in
          let st := setLastFrame st img3 in
          let st := Write st img3 in
          fadeLoop count' (i + 1) nFrames st img1 img2 img3
      end
  end.

(** [vwm.FadeImageInto(img1, img2, delay)] *)
Definition FadeImageInto (st : state) (img1 img2 : nat) (delay : Float.float64)
  : outcome (state * option error) :=
  if Float.leb delay zero then Done (st, Some (NoTransition delay))
  else if negb (opened st) then Done (st, Some CannotWrite)
  else
    let '(img3, st) := NewMat st in
    let nFrames := nFramesOf delay in
    match fadeLoop (Z.to_nat (nFrames + 1)) 0 nFrames st img1 img2 img3 with
    | Done st => Done (st, None)
    | NilDereference => NilDereference
    | CvError => CvError
    end.

(** [for i := 0; i < nFrames; i++ { ... }] of [CopyFrom], with [count]
    turns left. *)
Fixpoint copyLoop (count : nat) (st : state) (extraFrame img : nat) : outcome state :=
  match count with
  | O => Done st
  | S count' =>
      let st := Read st img in
      match lastFrame st with
      | None => NilDereference
      | Some last =>
          match AddWeighted (contents st last) w07 (contents st img) w03 one with
          | None => CvError
          | Some x =>
              let st := Write (setContent st extraFrame x) extraFrame in
              match lastFrame st with
              | None => NilDereference
              | Some last =>
                  match AddWeighted (contents st last) w03 (contents st img) w07 one with
                  | None => CvError
                  | Some y =>
                      let st := Write (setContent st extraFrame y) extraFrame in
                      let st := Write st img in
                      copyLoop count' (setLastFrame st img) extraFrame img
                  end
              end
          end
      end
  end.

(** [vwm.CopyFrom(vr, delay)] *)
Definition CopyFrom (st : state) (delay : Float.float64) : outcome (state * option error) :=
  if Float.leb delay zero then Done (st, Some (WrongDuration delay))
  else if negb (opened st) then Done (st, Some CannotWrite)
  else if negb (opened st) then Done (st, Some CannotWrite)
  else
    let nFrames := nFramesOf delay in
    let '(extraFrame, st) := NewMat st in
    let '(img, st) := NewMat st in
    match copyLoop (Z.to_nat nFrames) st extraFrame img with
    | Done st => Done (st, None)
    | NilDereference => NilDereference
    | CvError => CvError
    end.

(** The frames a fade writes: turn by turn, the blend of the two
    images with the weights of the turn, if no blend throws. *)
Fixpoint fadeFrames (count : nat) (i nFrames : Z) (a b : Image) : option (list Image) :=
  match count with
  | O => Some []
  | S count' =>
      match AddWeighted a (fst (weights i nFrames)) b (snd (weights i nFrames)) one,
            fadeFrames count' (i + 1) nFrames a b with
      | Some x, Some rest => Some (x :: rest)
      | _, _ => None
      end
  end.

(** The frames a copy writes for the frames [source] of the reader:
    for each frame f two blends with the image [vwm.lastFrame] points
    at, then f.  [previous] is that image in the first turn; in every
    later turn it is f itself. *)
Fixpoint copyFrames (count : nat) (previous : option Image) (source : list Image)
  : option (list Image) :=
  match count with
  | O => Some []
  | S count' =>
      let f := hd noImage source in
      let p := match previous with Some l => l | None => f end in
      match AddWeighted p w07 f w03 one, AddWeighted p w03 f w07 one,
            copyFrames count' None (tl source) with
      | Some x, Some y, Some rest => Some (x :: y :: f :: rest)
      | _, _, _ => None
      end
  end.

(** The image [vwm.lastFrame] points at once the frame is read: the
    frame itself when the pointer is that of [img]. *)
Definition previousOf (st : state) (last img : nat) : option Image :=
  if Nat.eqb last img then None else Some (contents st last).

End Video.

(** ** [MessageBox] *)

Section MessageBox.

(** [gocv.GetTextSize(text, font, fontScale, thickness)] *)
Variable GetTextSize : string -> Z -> Float.float64 -> Z -> Point.

(** [gocv.FontHersheyTriplex] *)
Definition font : Z := 4.

(** [for i, s := range lines { ... }], from index i on. *)
Fixpoint linesLoop (lines : list string) (i : Z) (img : list Draw.op)
  (textColor : Draw.RGBA) (fontScale : Float.float64) (thickness width : Z)
  (startY lineHeightPixels : Z) : list Draw.op :=
  match lines with
  | [] => img
  | s :: rest =>
      let lineWidthPixels := X (GetTextSize s font fontScale thickness) in
      linesLoop rest (i + 1)
        (img ++ [Draw.PutText s
                   (Pt (GoInt.quo (GoInt.sub width lineWidthPixels) 2)
                       (GoInt.add startY (GoInt.mul i lineHeightPixels)))
                   font fontScale textColor thickness])
        textColor fontScale thickness width startY lineHeightPixels
  end.

(** [MessageBox(lines, textColor, bgColor, fontScale, lineHeight,
    thickness, width, height)]: what is drawn on the new image. *)
Definition MessageBox (lines : list string) (textColor bgColor : Draw.RGBA)
  (fontScale lineHeight : Float.float64) (thickness width height : Z) : list Draw.op :=
  let img := [Draw.Rectangle (Rect 0 0 width height) bgColor (-1)] in
  match lines with
  | [] => img
  | first :: _ =>
      let textHeightPixels := Y (GetTextSize first font fontScale thickness) in
      let lineHeightPixels :=
        Float.int_of_float
          (Float.mul64 (Float.float64_of_int textHeightPixels) lineHeight) in
      let totalTextHeight :=
        GoInt.add (GoInt.mul lineHeightPixels
                             (GoInt.sub (Z.of_nat (List.length lines)) 1))
                  textHeightPixels in
      let startY :=
        GoInt.add (GoInt.quo (GoInt.sub height totalTextHeight) 2) textHeightPixels in
      linesLoop lines 0 img textColor fontScale thickness width startY lineHeightPixels
  end.

End MessageBox.

End Video.

(* ================================================================== *)
(** * Sample inputs for the rest of the code *)

Module ExtraSamples.
Import Samples.

(** ** Label files *)

Fixpoint replicate (n : nat) (c : ascii) : string :=
  match n with
  | O => EmptyString
  | S n' => String c (replicate n' c)
  end.

(** A line of 64 KiB. *)
Definition longLine : string := replicate (Z.to_nat (64 * 1024)) "a"%char.

(** Three files: the two labels, one to the line; the same with a third
    label and no line ending after it; and the two labels in lines that
    end in carriage return and newline, then the long line and one
    more label. *)
Definition files (filename : string) : option string :=
  if String.eqb filename "coco.names" then Some (joinLines newline labels)
  else if String.eqb filename "more.names"
  then Some (joinLines newline labels ++ "dog")%string
  else if String.eqb filename "long.names"
  then Some (joinLines crlf labels ++ longLine ++ (newline ++ "dog"))%string
  else None.

(** ** A second object: a person in the corner of the image, with
    centre (0.2, 0.2), size 0.2 x 0.2 and score 0.8. *)
Definition rowCorner : Row :=
  [q32 2 10; q32 2 10; q32 2 10; q32 2 10; q32 1 1; q32 8 10; q32 1 10].

Definition detCorner : YoloDetection :=
  {| detClass := 0; detName := "person"; detConf := q32 8 10;
     detBBox := {| Min := Pt 10 10; Max := Pt 30 30 |} |}.

(** ** Text sizes: letters of 11 by 13 pixels. *)
Definition textSize (text : string) (fontFace : Z) (fontScale : Float.float64)
  (thickness : Z) : Point :=
  Pt (11 * Z.of_nat (String.length text)) 13.

(** ** Matrices of the card detector, by number *)

(** Matrix 0 is the empty one; the descriptors of image m are matrix
    m + 10. *)
Definition isEmpty (m : nat) : bool := Nat.eqb m 0.
Definition detect (m : nat) : nat := (m + 10)%nat.

Definition mtc (distance : Z) : Orb.DMatch :=
  {| Orb.QueryIdx := 0; Orb.TrainIdx := 0; Orb.ImgIdx := 0;
     Orb.Distance := Float.float64_of_int distance |}.

(** A pair that passes the ratio test (10 < 0.75 * 40), one that does
    not (30 = 0.75 * 40), and a descriptor with one match only. *)
Definition goodMatch : list Orb.DMatch := [mtc 10; mtc 40].
Definition poorMatch : list Orb.DMatch := [mtc 30; mtc 40].
Definition loneMatch : list Orb.DMatch := [mtc 10].

(** Against the descriptors 11, 12 and 13 of the patterns, an image has
    16 good pairs, 20 good pairs and a poor one, and 20 good pairs;
    against descriptor 14 the matcher finds a lone match. *)
Definition knn (descr1 descr2 : nat) (k : Z) : list (list Orb.DMatch) :=
  match descr2 with
  | 11%nat => repeat goodMatch 16
  | 12%nat => repeat goodMatch 20 ++ [poorMatch]
  | 13%nat => repeat goodMatch 20
  | 14%nat => [goodMatch; loneMatch; goodMatch]
  | _ => []
  end.

Definition jack : Orb.ORBPattern nat :=
  {| Orb.name := "Jack of Hearts"; Orb.img := 1%nat; Orb.descr := 11%nat |}.
Definition queen : Orb.ORBPattern nat :=
  {| Orb.name := "Queen of Hearts"; Orb.img := 2%nat; Orb.descr := 12%nat |}.
Definition king : Orb.ORBPattern nat :=
  {| Orb.name := "King of Hearts"; Orb.img := 3%nat; Orb.descr := 13%nat |}.

Definition cards : list (Orb.ORBPattern nat) := [jack; queen; king].

(** The number of good matches of a pattern with image 7. *)
Definition cardCount (p : Orb.ORBPattern nat) : Z :=
  match Orb.numGoodMatches nat knn (detect 7) (Orb.descr nat p) with
  | Ok n => n
  | Panic _ => 0
  end.

(** ** Images of the video editor: one row of grey levels *)

(** A blend of two rows of the same length; rows of different lengths
    make OpenCV throw. *)
Definition blend (a : list Z) (alpha : Float.float64) (b : list Z)
  (beta gamma : Float.float64) : option (list Z) :=
  if Nat.eqb (List.length a) (List.length b)
  then Some (map (fun xy : Z * Z =>
                    Float.int_of_float
                      (SFadd 53 1024
                         (SFadd 53 1024
                            (Float.mul64 (Float.float64_of_int (fst xy)) alpha)
                            (Float.mul64 (Float.float64_of_int (snd xy)) beta))
                         gamma))
                 (combine a b))
  else None.

(** An opened writer, one matrix (an intro frame), nothing written. *)
Definition studio : Video.state (list Z) :=
  {| Video.contents := fun k => match k with O => [10; 200] | _ => [] end;
     Video.fresh := 1;
     Video.opened := true;
     Video.written := [];
     Video.lastFrame := None;
     Video.unread := [[1; 2]; [3; 4]; [5; 6]] |}.

(** A tenth of a second: three frames and one. *)
Definition tenth : Float.float64 :=
  SFdiv 53 1024 (Float.float64_of_int 1) (Float.float64_of_int 10).

Definition repeated : Video.state (list Z) :=
  fst (Video.RepeatFrame (list Z) studio 0 tenth).

Definition faded : Video.state (list Z) :=
  match Video.FadeImageInto (list Z) [] blend repeated 0 0 tenth with
  | Video.Done (st, _) => st
  | _ => repeated
  end.

(** ** The first intro screen of [main], on a video of 1280 by 720. *)
Definition introLines : list string :=
  ["OpenCV ORB"%string; "playing cards recognition"%string; "example with gocv"%string].

End ExtraSamples.

(* ================================================================== *)
(** * Package [sort] of Go 1.18

    [sort.Sort] as Go 1.18 has it (sort.go), the last release before
    the pattern-defeating quicksort of Go 1.19: a quicksort that
    changes to heapsort when it has gone too deep and ends with a pass
    of Shell sort and an insertion sort on ranges of at most 12
    elements.  The functions work on [data] through
    [Len], [Less] and [Swap] only.  The loops that count run for their
    number of turns; for the others a number of turns that the range
    they work on never exceeds is given, and they stop as the code
    does.  All indices lie between 0 and the length of the slice. *)

Module Sort18.

Section Interface.

(** [sort.Interface] *)
Variable Data : Type.
Variable Len : Data -> Z.
Variable Less : Data -> Z -> Z -> result bool.
Variable Swap : Data -> Z -> Z -> result Data.

(** [for j := i; j > a && data.Less(j, j-1); j-- { data.Swap(j, j-1) }] *)
Fixpoint insertDown (turns : nat) (data : Data) (a j : Z) : result Data :=
  match turns with
  | O => Ok data
  | S turns' =>
      if j >? a then
        less <- Less data j (j - 1) ;;
        if less : bool then
          data <- Swap data j (j - 1) ;;
          insertDown turns' data a (j - 1)
        else Ok data
      else Ok data
  end.

(** [for i := a + 1; i < b; i++ { ... }] *)
Fixpoint insertionLoop (turns : nat) (data : Data) (a i : Z) : result Data :=
  match turns with
  | O => Ok data
  | S turns' =>
      data <- insertDown (Z.to_nat (i - a)) data a i ;;
      insertionLoop turns' data a (i + 1)
  end.

(** [insertionSort(data, a, b)] *)
Definition insertionSort (data : Data) (a b : Z) : result Data :=
  insertionLoop (Z.to_nat (b - (a + 1))) data a (a + 1).

(** The loop of [siftDown(data, lo, hi, first)], from [root]. *)
Fixpoint siftLoop (turns : nat) (data : Data) (root hi first : Z) : result Data :=
  match turns with
  | O => Ok data
  | S turns' =>
      let child := 2 * root + 1 in
      if child >=? hi then Ok data
      else
        child <- (if child + 1 <? hi then
                    less <- Less data (first + child) (first + child + 1) ;;
                    Ok (if less : bool then child + 1 else child)
                  else Ok child) ;;
        less <- Less data (first + root) (first + child) ;;
        if negb less then Ok data
        else
          data <- Swap data (first + root) (first + child) ;;
          siftLoop turns' data child hi first
  end.

Definition siftDown (data : Data) (lo hi first : Z) : result Data :=
  siftLoop (Z.to_nat hi) data lo hi first.

(** [for i := (hi - 1) / 2; i >= 0; i-- { siftDown(data, i, hi, first) }] *)
Fixpoint buildHeap (turns : nat) (data : Data) (i hi first : Z) : result Data :=
  match turns with
  | O => Ok data
  | S turns' =>
      data <- siftDown data i hi first ;;
      buildHeap turns' data (i - 1) hi first
  end.

(** [for i := hi - 1; i >= 0; i-- { data.Swap(first, first+i);
    siftDown(data, lo, i, first) }] *)
Fixpoint popHeap (turns : nat) (data : Data) (i lo first : Z) : result Data :=
  match turns with
  | O => Ok data
  | S turns' =>
      data <- Swap data first (first + i) ;;
      data <- siftDown data lo i first ;;
      popHeap turns' data (i - 1) lo first
  end.

(** [heapSort(data, a, b)] *)
Definition heapSort (data : Data) (a b : Z) : result Data :=
  let first := a in
  let lo := 0 in
  let hi := b - a in
  data <- buildHeap (Z.to_nat (Z.quot (hi - 1) 2 + 1)) data (Z.quot (hi - 1) 2) hi first ;;
  popHeap (Z.to_nat hi) data (hi - 1) lo first.

(** [medianOfThree(data, m1, m0, m2)] moves the median of the three
    into [data[m1]]. *)
Definition medianOfThree (data : Data) (m1 m0 m2 : Z) : result Data :=
  less <- Less data m1 m0 ;;
  data <- (if less : bool then Swap data m1 m0 else Ok data) ;;
  less <- Less data m2 m1 ;;
  if less : bool then
    data <- Swap data m2 m1 ;;
    less <- Less data m1 m0 ;;
    if less : bool then Swap data m1 m0 else Ok data
  else Ok data.

(** [for ; a < c && data.Less(a, pivot); a++ { }] *)
Fixpoint skipLess (turns : nat) (data : Data) (a c pivot : Z) : result Z :=
  match turns with
  | O => Ok a
  | S turns' =>
      if a <? c then
        less <- Less data a pivot ;;
        if less : bool then skipLess turns' data (a + 1) c pivot else Ok a
      else Ok a
  end.

(** [for ; b < c && !data.Less(pivot, b); b++ { }] *)
Fixpoint skipNotAbove (turns : nat) (data : Data) (b c pivot : Z) : result Z :=
  match turns with
  | O => Ok b
  | S turns' =>
      if b <? c then
        less <- Less data pivot b ;;
        if negb less then skipNotAbove turns' data (b + 1) c pivot else Ok b
      else Ok b
  end.

(** [for ; b < c && data.Less(pivot, c-1); c-- { }] *)
Fixpoint skipAbove (turns : nat) (data : Data) (b c pivot : Z) : result Z :=
  match turns with
  | O => Ok c
  | S turns' =>
      if b <? c then
        less <- Less data pivot (c - 1) ;;
        if less : bool then skipAbove turns' data b (c - 1) pivot else Ok c
      else Ok c
  end.

(** The partitioning loop of [doPivot]:
    [for { ...; if b >= c { break }; data.Swap(b, c-1); b++; c-- }] *)
Fixpoint partition (turns : nat) (data : Data) (b c pivot : Z) : result (Data * Z * Z) :=
  match turns with
  | O => Ok (data, b, c)
  | S turns' =>
      b <- skipNotAbove (Z.to_nat (c - b)) data b c pivot ;;
      c <- skipAbove (Z.to_nat (c - b)) data b c pivot ;;
      if b >=? c then Ok (data, b, c)
      else
        data <- Swap data b (c - 1) ;;
        partition turns' data (b + 1) (c - 1) pivot
  end.

(** [for ; a < b && !data.Less(b-1, pivot); b-- { }] *)
Fixpoint skipEqual (turns : nat) (data : Data) (a b pivot : Z) : result Z :=
  match turns with
  | O => Ok b
  | S turns' =>
      if a <? b then
        less <- Less data (b - 1) pivot ;;
        if negb less then skipEqual turns' data a (b - 1) pivot else Ok b
      else Ok b
  end.

(** The loop that protects against many duplicates:
    [for { ...; if a >= b { break }; data.Swap(a, b-1); a++; b-- }] *)
Fixpoint gatherEqual (turns : nat) (data : Data) (a b pivot : Z) : result (Data * Z) :=
  match turns with
  | O => Ok (data, b)
  | S turns' =>
      b <- skipEqual (Z.to_nat (b - a)) data a b pivot ;;
      a <- skipLess (Z.to_nat (b - a)) data a b pivot ;;
      if a >=? b then Ok (data, b)
      else
        data <- Swap data a (b - 1) ;;
        gatherEqual turns' data (a + 1) (b - 1) pivot
  end.

(** [doPivot(data, lo, hi)]: the slice and [midlo], [midhi]. *)
Definition doPivot (data : Data) (lo hi : Z) : result (Data * Z * Z) :=
  let m := Z.shiftr (lo + hi) 1 in
  data <- (if hi - lo >? 40 then
             let s := Z.quot (hi - lo) 8 in
             data <- medianOfThree data lo (lo + s) (lo + 2 * s) ;;
             data <- medianOfThree data m (m - s) (m + s) ;;
             medianOfThree data (hi - 1) (hi - 1 - s) (hi - 1 - 2 * s)
           else Ok data) ;;
  data <- medianOfThree data lo m (hi - 1) ;;
  let pivot := lo in
  let a := lo + 1 in
  let c := hi - 1 in
  a <- skipLess (Z.to_nat (c - a)) data a c pivot ;;
  let b := a in
  r <- partition (S (Z.to_nat (c - b))) data b c pivot ;;
  let '(data, b, c) := r in
  let protect := hi - c <? 5 in
  r <- (if negb protect && (hi - c <? Z.quot (hi - lo) 4) then
          let dups := 0 in
          less <- Less data pivot (hi - 1) ;;
          r <- (if negb less then
                  data <- Swap data c (hi - 1) ;;
                  Ok (data, c + 1, dups + 1)
                else Ok (data, c, dups)) ;;
          let '(data, c, dups) := r in
          less <- Less data (b - 1) pivot ;;
          let '(b, dups) := if negb less then (b - 1, dups + 1) else (b, dups) in
          less <- Less data m pivot ;;
          r <- (if negb less then
                  data <- Swap data m (b - 1) ;;
                  Ok (data, b - 1, dups + 1)
                else Ok (data, b, dups)) ;;
          let '(data, b, dups) := r in
          Ok (data, b, c, dups >? 1)
        else Ok (data, b, c, protect)) ;;
  let '(data, b, c, protect) := r in
  r <- (if protect : bool then gatherEqual (S (Z.to_nat (b - a))) data a b pivot
        else Ok (data, b)) ;;
  let '(data, b) := r in
  data <- Swap data pivot (b - 1) ;;
  Ok (data, b - 1, c).

(** [for i := a + 6; i < b; i++ { if data.Less(i, i-6) { data.Swap(i, i-6) } }] *)
Fixpoint shellPass (turns : nat) (data : Data) (i : Z) : result Data :=
  match turns with
  | O => Ok data
  | S turns' =>
      less <- Less data i (i - 6) ;;
      data <- (if less : bool then Swap data i (i - 6) else Ok data) ;;
      shellPass turns' data (i + 1)
  end.

(** [quickSort(data, a, b, maxDepth)].  Each turn of its loop and each
    call of itself takes one from [maxDepth]; the turn after
    [a = mhi] or [b = mlo] is the second call here. *)
Fixpoint quickSort (data : Data) (a b : Z) (maxDepth : nat) : result Data :=
  if b - a >? 12 then
    match maxDepth with
    | O => heapSort data a b
    | S maxDepth =>
        r <- doPivot data a b ;;
        let '(data, mlo, mhi) := r in
        if mlo - a <? b - mhi then
          data <- quickSort data a mlo maxDepth ;;
          quickSort data mhi b maxDepth
        else
          data <- quickSort data mhi b maxDepth ;;
          quickSort data a mlo maxDepth
    end
  else if b - a >? 1 then
    data <- shellPass (Z.to_nat (b - (a + 6))) data (a + 6) ;;
    insertionSort data a b
  else Ok data.

(** [maxDepth(n)]: twice the number of bits of n. *)
Definition maxDepth (n : Z) : nat :=
  if n >? 0 then (2 * (Z.to_nat (Z.log2 n) + 1))%nat else O.

(** [sort.Sort(data)] *)
Definition Sort (data : Data) : result Data :=
  let n := Len data in
  quickSort data 0 n (maxDepth n).

End Interface.

(** [sort.Sort(sort.Reverse(yd))]: [Less(i, j)] of the reversed slice
    is [yd.Less(j, i)]. *)
Definition SortReverse (yd : YoloDSlice) : result YoloDSlice :=
  Sort YoloDSlice Slice.Len (fun yd i j => Slice.Less yd j i) Slice.Swap yd.

(** The slice after the call; the slice as it is, should an index
    expression of the sort panic. *)
Definition sort_Sort (yd : YoloDSlice) : YoloDSlice :=
  match SortReverse yd with
  | Ok sorted => sorted
  | Panic _ => yd
  end.

End Sort18.

(** ** Thirteen detections, two of them of equal confidence *)

Module SortSamples.
Import Samples.

(** A detection of 10 by 10 pixels in the top row of the image, at
    100 * k, with confidence percent / 100. *)
Definition small (k percent : Z) : YoloDetection :=
  {| detClass := 0; detName := "person"; detConf := q32 percent 100;
     detBBox := {| Min := Pt (100 * k) 0; Max := Pt (100 * k + 10) 10 |} |}.

(** A car of 100 by 100 pixels and a person of 10 by 10 pixels within
    its box, both with confidence 0.93. *)
Definition wide : YoloDetection :=
  {| detClass := 1; detName := "car"; detConf := q32 93 100;
     detBBox := {| Min := Pt 0 100; Max := Pt 100 200 |} |}.

Definition inner : YoloDetection :=
  {| detClass := 0; detName := "person"; detConf := q32 93 100;
     detBBox := {| Min := Pt 10 110; Max := Pt 20 120 |} |}.

Definition before6 : YoloDSlice :=
  [small 0 99; small 1 98; small 2 97; small 3 96; small 4 95; small 5 94].

Definition after5 : YoloDSlice :=
  [small 8 92; small 9 91; small 10 90; small 11 89; small 12 88].

(** The candidates, by descending confidence, the car before the
    person; the same with the person before the car; and without the
    person. *)
Definition carFirst : YoloDSlice := before6 ++ [wide; inner] ++ after5.
Definition personFirst : YoloDSlice := before6 ++ [inner; wide] ++ after5.
Definition carOnly : YoloDSlice := before6 ++ [wide] ++ after5.

End SortSamples.
(* ================================================================== *)
(** * Facts about the library models *)

Module GoIntFacts.
Import GoInt.

Lemma wrap_id z : in_range z -> wrap z = z.
Proof.
  unfold in_range, min_int, max_int, wrap. intros H.
  rewrite Z.mod_small; lia.
Qed.

Lemma wrap_in_range z : in_range (wrap z).
Proof.
  unfold in_range, min_int, max_int, wrap.
  pose proof (Z.mod_pos_bound (z + 2 ^ 63) (2 ^ 64) ltac:(lia)). lia.
Qed.

End GoIntFacts.

Module FloatFacts.
Import Float.

Lemma pos_compare_cont_Eq p q : Pos.compare_cont Eq p q = (Zpos p ?= Zpos q).
Proof. reflexivity. Qed.

(** Case analysis on the classes and signs of two numbers, closing the
    cases that [lia] decides on the keys; what is left are two finite
    numbers of the same sign. *)
Ltac by_class x y :=
  destruct x as [?|?| |? ? ?], y as [?|?| |? ? ?];
  try discriminate; intros _ _;
  repeat match goal with s : bool |- _ => destruct s end;
  cbn -[Z.compare Z.opp];
  try (split; [discriminate | lia]);
  try (split; [lia | reflexivity]).

Ltac same_sign :=
  rewrite pos_compare_cont_Eq;
  match goal with
  | |- context [match (?e1 ?= ?e2) with _ => _ end] =>
      match goal with
      | |- context [Zpos ?m1 ?= Zpos ?m2] =>
          destruct (Z.compare_spec e1 e2), (Z.compare_spec (Zpos m1) (Zpos m2))
      end
  end;
  cbn; split; try discriminate; try reflexivity; lia.

Lemma ltb_key x y :
  is_nan x = false -> is_nan y = false ->
  (ltb x y = true <-> key_lt (key x) (key y)).
Proof. unfold ltb, SFltb. by_class x y; same_sign. Qed.

Lemma leb_key x y :
  is_nan x = false -> is_nan y = false ->
  (leb x y = true <-> ~ key_lt (key y) (key x)).
Proof. unfold leb, SFleb. by_class x y; same_sign. Qed.

Lemma ltb_not_nan x y : ltb x y = true -> is_nan x = false /\ is_nan y = false.
Proof.
  unfold ltb, SFltb.
  destruct x as [sx|sx| |sx mx ex], y as [sy|sy| |sy my ey];
    cbn; try discriminate; auto.
Qed.

Lemma ltb_asym x y : ltb x y = true -> ltb y x = false.
Proof.
  intros H. destruct (ltb_not_nan _ _ H) as [Hx Hy].
  apply (ltb_key _ _ Hx Hy) in H.
  destruct (ltb y x) eqn:E; [|reflexivity].
  apply (ltb_key _ _ Hy Hx) in E.
  unfold key_lt in *. destruct (key x) as [[? ?] ?], (key y) as [[? ?] ?]. lia.
Qed.

Lemma ltb_irrefl x : ltb x x = false.
Proof. destruct (ltb x x) eqn:E; [|reflexivity]. now rewrite (ltb_asym _ _ E) in E. Qed.

(** Without NaN, [x <= y] is the negation of [y < x]. *)
Lemma leb_negb_ltb x y :
  is_nan x = false -> is_nan y = false -> leb x y = negb (ltb y x).
Proof.
  intros Hx Hy.
  pose proof (leb_key _ _ Hx Hy) as L. pose proof (ltb_key _ _ Hy Hx) as K.
  destruct (leb x y), (ltb y x); cbn; try reflexivity; intuition congruence.
Qed.

Lemma not_ltb_trans a b c :
  is_nan a = false -> is_nan b = false -> is_nan c = false ->
  ltb a b = false -> ltb b c = false -> ltb a c = false.
Proof.
  intros Ha Hb Hc Hab Hbc.
  destruct (ltb a c) eqn:E; [|reflexivity].
  apply (ltb_key _ _ Ha Hc) in E.
  assert (~ key_lt (key a) (key b)) as N1
    by (intros K; apply (ltb_key _ _ Ha Hb) in K; congruence).
  assert (~ key_lt (key b) (key c)) as N2
    by (intros K; apply (ltb_key _ _ Hb Hc) in K; congruence).
  unfold key_lt in *.
  destruct (key a) as [[? ?] ?], (key b) as [[? ?] ?], (key c) as [[? ?] ?]. lia.
Qed.

Lemma ltb_trans a b c : ltb a b = true -> ltb b c = true -> ltb a c = true.
Proof.
  intros Hab Hbc.
  destruct (ltb_not_nan _ _ Hab) as [Ha Hb], (ltb_not_nan _ _ Hbc) as [_ Hc].
  apply (ltb_key _ _ Ha Hb) in Hab. apply (ltb_key _ _ Hb Hc) in Hbc.
  apply (ltb_key _ _ Ha Hc).
  unfold key_lt in *.
  destruct (key a) as [[? ?] ?], (key b) as [[? ?] ?], (key c) as [[? ?] ?]. lia.
Qed.

(** [a <= b] and [b < c] give [a < c]. *)
Lemma not_ltb_ltb_trans a b c :
  is_nan a = false -> ltb b a = false -> ltb b c = true -> ltb a c = true.
Proof.
  intros Ha Hba Hbc.
  destruct (ltb_not_nan _ _ Hbc) as [Hb Hc].
  apply (ltb_key _ _ Hb Hc) in Hbc. apply (ltb_key _ _ Ha Hc).
  assert (~ key_lt (key b) (key a)) as N
    by (intros K; apply (ltb_key _ _ Hb Ha) in K; congruence).
  unfold key_lt in *.
  destruct (key a) as [[? ?] ?], (key b) as [[? ?] ?], (key c) as [[? ?] ?]. lia.
Qed.

Lemma not_above_neg_infinity v :
  is_nan v = false -> ltb (S754_infinity true) v = false -> v = S754_infinity true.
Proof. destruct v as [s|[]| |[] m e]; cbn; intros; congruence. Qed.

(** *** Rounding never produces NaN *)

Lemma iter_pos_inv {A} (P : A -> Prop) (f : A -> A) :
  (forall x, P x -> P (f x)) -> forall p x, P x -> P (iter_pos f p x).
Proof.
  intros Hf. induction p as [p IH|p IH|]; intros x Hx; cbn; auto.
Qed.

Lemma shr_1_nonneg mrs : 0 <= shr_m mrs -> 0 <= shr_m (shr_1 mrs).
Proof.
  destruct mrs as [m r s]. cbn.
  destruct m as [|[p|p|]|[p|p|]]; cbn; lia.
Qed.

Lemma shr_fexp_nonneg prec emax m e l :
  0 <= m -> 0 <= shr_m (fst (shr_fexp prec emax m e l)).
Proof.
  intros Hm. unfold shr_fexp, shr.
  assert (0 <= shr_m (shr_record_of_loc m l)) as H0
    by (destruct l as [|[]]; cbn; exact Hm).
  destruct (fexp prec emax (Zdigits2 m + e) - e); cbn; auto.
  apply (iter_pos_inv (fun r => 0 <= shr_m r)); auto using shr_1_nonneg.
Qed.

Lemma round_nearest_even_nonneg m l : 0 <= m -> 0 <= round_nearest_even m l.
Proof.
  intros Hm. unfold round_nearest_even.
  destruct l as [|[]]; try lia. destruct (Z.even m); lia.
Qed.

Lemma binary_round_aux_not_nan prec emax sx mx ex lx :
  0 <= mx -> is_nan (binary_round_aux prec emax sx mx ex lx) = false.
Proof.
  intros Hm. unfold binary_round_aux.
  pose proof (shr_fexp_nonneg prec emax mx ex lx Hm) as H1.
  destruct (shr_fexp prec emax mx ex lx) as [mrs' e']. cbn [fst] in H1.
  pose proof (shr_fexp_nonneg prec emax _ e' loc_Exact
                (round_nearest_even_nonneg _ (loc_of_shr_record mrs') H1)) as H2.
  destruct (shr_fexp prec emax _ e' loc_Exact) as [mrs'' e'']. cbn [fst] in H2.
  destruct (shr_m mrs'') as [|m|m]; [reflexivity| |lia].
  destruct (e'' <=? emax - prec); reflexivity.
Qed.

Lemma binary_normalize_not_nan prec emax m e sz :
  is_nan (binary_normalize prec emax m e sz) = false.
Proof.
  unfold binary_normalize, binary_round.
  destruct m as [|p|p]; [reflexivity| |];
    destruct (shl_align _ _ _) as [mz ez];
    apply binary_round_aux_not_nan; lia.
Qed.


Lemma float32_of_int_not_nan n : is_nan (float32_of_int n) = false.
Proof. apply binary_normalize_not_nan. Qed.


End FloatFacts.

(* ================================================================== *)
(** * The greedy pass *)








(* ================================================================== *)
(** * The decoder: the two loops *)

Section Loops.

Variables (frameWidth frameHeight : Z) (classLabels : list string).

Let decodes := rowDecodes frameWidth frameHeight classLabels.
Let cands := rowCandidates frameWidth frameHeight classLabels.

Lemma rowsLoop_Ok_iff rows yd yd' :
  rowsLoop frameWidth frameHeight classLabels rows yd = Ok yd' <->
  Forall decodes rows /\ yd' = yd ++ flat_map cands rows.
Proof.
  subst decodes cands. revert yd.
  induction rows as [|row rows IH]; intros yd; cbn [rowsLoop flat_map].
  - rewrite app_nil_r. split.
    + intros [= <-]. split; [constructor | reflexivity].
    + intros [_ ->]. reflexivity.
  - unfold rowCandidates at 1.
    destruct (decodeRow frameWidth frameHeight classLabels row) as [r|p] eqn:E; cbn [bind].
    + rewrite IH. split; intros [HF ->]; split.
      * constructor; [now exists r | exact HF].
      * destruct r; cbn; now rewrite <- ?app_assoc.
      * now inversion HF.
      * destruct r; cbn; now rewrite <- ?app_assoc.
    + split; [discriminate|]. intros [HF _]. inversion HF as [|? ? [r Hr] ?]; subst.
      unfold rowDecodes in *. congruence.
Qed.

Lemma rowsLoop_Panic_iff rows yd p :
  rowsLoop frameWidth frameHeight classLabels rows yd = Panic p <->
  exists before row after,
    rows = before ++ row :: after /\ Forall decodes before /\
    decodeRow frameWidth frameHeight classLabels row = Panic p.
Proof.
  subst decodes. revert yd.
  induction rows as [|row rows IH]; intros yd; cbn [rowsLoop].
  - split; [discriminate|]. intros (b & r & a & H & _). now destruct b.
  - destruct (decodeRow frameWidth frameHeight classLabels row) as [r|q] eqn:E; cbn [bind].
    + rewrite IH. split.
      * intros (b & r' & a & -> & HF & Hp). exists (row :: b), r', a.
        repeat split; auto. constructor; [now exists r | exact HF].
      * intros (b & r' & a & Hrows & HF & Hp). destruct b as [|x b]; cbn in Hrows.
        -- injection Hrows as -> ->. congruence.
        -- injection Hrows as -> ->. exists b, r', a. repeat split; auto. now inversion HF.
    + split.
      * intros [= ->]. exists [], row, rows. repeat split; auto.
      * intros (b & r' & a & Hrows & HF & Hp). destruct b as [|x b]; cbn in Hrows.
        -- injection Hrows as -> ->. congruence.
        -- injection Hrows as -> ->. inversion HF as [|? ? [r Hr] ?]; subst.
           unfold rowDecodes in *. congruence.
Qed.

Lemma layersLoop_Ok_iff detLayers yd yd' :
  layersLoop frameWidth frameHeight classLabels detLayers yd = Ok yd' <->
  Forall (Forall decodes) detLayers /\ yd' = yd ++ flat_map (flat_map cands) detLayers.
Proof.
  revert yd. induction detLayers as [|prob ls IH]; intros yd; cbn [layersLoop flat_map].
  - rewrite app_nil_r. split.
    + intros [= <-]. split; [constructor | reflexivity].
    + intros [_ ->]. reflexivity.
  - destruct (rowsLoop frameWidth frameHeight classLabels prob yd) as [y|p] eqn:E; cbn [bind].
    + apply rowsLoop_Ok_iff in E. destruct E as [HF ->].
      rewrite IH. rewrite <- app_assoc. split; intros [H ->]; split; auto.
      now inversion H.
    + split; [discriminate|]. intros [HF _]. inversion HF as [|? ? Hp ?]; subst.
      assert (rowsLoop frameWidth frameHeight classLabels prob yd
              = Ok (yd ++ flat_map cands prob)) as E'
          by (apply rowsLoop_Ok_iff; auto).
      congruence.
Qed.

Lemma decode_Ok_iff detLayers yd :
  decode detLayers frameWidth frameHeight classLabels = Ok yd <->
  Forall (Forall decodes) detLayers /\ yd = flat_map (flat_map cands) detLayers.
Proof. unfold decode. now rewrite layersLoop_Ok_iff. Qed.

(** Every candidate comes from a row, and every row that yields a
    candidate has it in the output. *)
Lemma decode_In detLayers yd d :
  decode detLayers frameWidth frameHeight classLabels = Ok yd ->
  (In d yd <->
   exists prob row, In prob detLayers /\ In row prob /\
     decodeRow frameWidth frameHeight classLabels row = Ok (Some d)).
Proof.
  intros H. apply decode_Ok_iff in H. destruct H as [_ ->]. subst cands.
  rewrite in_flat_map. split.
  - intros (prob & Hp & Hd). rewrite in_flat_map in Hd. destruct Hd as (row & Hr & Hd).
    exists prob, row. repeat split; auto. unfold rowCandidates in Hd.
    destruct (decodeRow _ _ _ row) as [[d'|]|]; cbn in Hd; try contradiction.
    destruct Hd as [->|[]]. reflexivity.
  - intros (prob & row & Hp & Hr & Hd). exists prob. split; auto.
    rewrite in_flat_map. exists row. split; auto.
    unfold rowCandidates. rewrite Hd. now left.
Qed.

End Loops.

(* ================================================================== *)
(** * The decoder: one row *)

Lemma index_Ok_iff {A} (l : list A) i a :
  index l i = Ok a <->
  0 <= i < Z.of_nat (List.length l) /\ nth_error l (Z.to_nat i) = Some a.
Proof.
  unfold index.
  destruct (Z.leb_spec 0 i), (Z.ltb_spec i (Z.of_nat (List.length l))); cbn;
    try (split; [discriminate | lia]).
  destruct (nth_error l (Z.to_nat i)) as [x|] eqn:E.
  - split; [intros [= ->]; split; [lia | reflexivity] | intros [_ [= ->]]; reflexivity].
  - apply nth_error_None in E. lia.
Qed.

Lemma index_Panic_iff {A} (l : list A) i p :
  index l i = Panic p <->
  ~ (0 <= i < Z.of_nat (List.length l)) /\ p = IndexOutOfRange i (Z.of_nat (List.length l)).
Proof.
  unfold index.
  destruct (Z.leb_spec 0 i), (Z.ltb_spec i (Z.of_nat (List.length l))); cbn;
    try (split; [intros [= <-]; split; [lia | reflexivity] | intros [_ ->]; reflexivity]).
  destruct (nth_error l (Z.to_nat i)) as [x|] eqn:E.
  - split; [discriminate | lia].
  - apply nth_error_None in E. lia.
Qed.

Lemma ColRange_Ok_iff start row scores :
  ColRange start row = Ok scores <->
  0 <= start <= Z.of_nat (List.length row) /\ scores = skipn (Z.to_nat start) row.
Proof.
  unfold ColRange.
  destruct (Z.leb_spec 0 start), (Z.leb_spec start (Z.of_nat (List.length row))); cbn;
    try (split; [discriminate | lia]).
  split; [intros [= <-]; split; [lia | reflexivity] | intros [_ ->]; reflexivity].
Qed.

Section Row.

Variables (frameWidth frameHeight : Z) (classLabels : list string).

(** What a row that yields a candidate went through. *)
Lemma decodeRow_Some row d :
  decodeRow frameWidth frameHeight classLabels row = Ok (Some d) ->
  exists scores,
    ColRange 5 row = Ok scores /\
    Float.ltb confThr (fst (MinMaxLoc scores)) = true /\
    index classLabels (snd (MinMaxLoc scores)) = Ok (detName d) /\
    detClass d = snd (MinMaxLoc scores) /\
    detConf d = fst (MinMaxLoc scores) /\
    detBBox d =
      (let centerX := pixels (GetFloatAt row 0) frameWidth in
       let centerY := pixels (GetFloatAt row 1) frameHeight in
       let width := pixels (GetFloatAt row 2) frameWidth in
       let height := pixels (GetFloatAt row 3) frameHeight in
       let left := GoInt.sub centerX (GoInt.quo width 2) in
       let top := GoInt.sub centerY (GoInt.quo height 2) in
       Rect left top (GoInt.add left width) (GoInt.add top height)).
Proof.
  unfold decodeRow. destruct (ColRange 5 row) as [scores|] eqn:EC; cbn [bind]; [|discriminate].
  destruct (MinMaxLoc scores) as [confidence maxLoc] eqn:EM.
  destruct (Float.ltb confThr confidence) eqn:ET; [|discriminate].
  destruct (index classLabels maxLoc) as [name|] eqn:EI; cbn [bind]; [|discriminate].
  intros [= <-]. exists scores. rewrite EM. cbn. repeat split; auto.
Qed.

Lemma decodeRow_None row scores :
  ColRange 5 row = Ok scores ->
  (decodeRow frameWidth frameHeight classLabels row = Ok None <->
   Float.ltb confThr (fst (MinMaxLoc scores)) = false).
Proof.
  intros EC. unfold decodeRow. rewrite EC. cbn [bind].
  destruct (MinMaxLoc scores) as [confidence maxLoc] eqn:EM. cbn [fst].
  destruct (Float.ltb confThr confidence) eqn:ET.
  - destruct (index classLabels maxLoc); cbn [bind]; split; discriminate.
  - split; reflexivity.
Qed.

Lemma decodeRow_emits row scores name :
  ColRange 5 row = Ok scores ->
  Float.ltb confThr (fst (MinMaxLoc scores)) = true ->
  index classLabels (snd (MinMaxLoc scores)) = Ok name ->
  exists d, decodeRow frameWidth frameHeight classLabels row = Ok (Some d).
Proof.
  intros EC ET EI. unfold decodeRow. rewrite EC. cbn [bind].
  destruct (MinMaxLoc scores) as [confidence maxLoc] eqn:EM. cbn [fst snd] in *.
  rewrite ET, EI. cbn [bind]. eauto.
Qed.

Lemma decodeRow_lookup_panics row scores :
  ColRange 5 row = Ok scores ->
  Float.ltb confThr (fst (MinMaxLoc scores)) = true ->
  ~ (0 <= snd (MinMaxLoc scores) < Z.of_nat (List.length classLabels)) ->
  decodeRow frameWidth frameHeight classLabels row
  = Panic (IndexOutOfRange (snd (MinMaxLoc scores)) (Z.of_nat (List.length classLabels))).
Proof.
  intros EC ET EI. unfold decodeRow. rewrite EC. cbn [bind].
  destruct (MinMaxLoc scores) as [confidence maxLoc] eqn:EM. cbn [fst snd] in *.
  rewrite ET.
  destruct (index classLabels maxLoc) as [name|p] eqn:E; cbn [bind].
  - apply index_Ok_iff in E. tauto.
  - apply index_Panic_iff in E. now destruct E as [_ ->].
Qed.

End Row.

Lemma decodeRow_Panic fw fh labels row p :
  decodeRow fw fh labels row = Panic p ->
  (ColRange 5 row = Panic CvException /\ p = CvException) \/
  (exists scores,
      ColRange 5 row = Ok scores /\
      Float.ltb confThr (fst (MinMaxLoc scores)) = true /\
      ~ (0 <= snd (MinMaxLoc scores) < Z.of_nat (List.length labels)) /\
      p = IndexOutOfRange (snd (MinMaxLoc scores)) (Z.of_nat (List.length labels))).
Proof.
  unfold decodeRow. destruct (ColRange 5 row) as [scores|q] eqn:EC; cbn [bind].
  - destruct (MinMaxLoc scores) as [confidence maxLoc] eqn:EM.
    destruct (Float.ltb confThr confidence) eqn:ET; [|discriminate].
    destruct (index labels maxLoc) as [name|q] eqn:EI; cbn [bind]; [discriminate|].
    intros [= ->]. right. exists scores. rewrite EM. cbn [fst snd].
    apply index_Panic_iff in EI. destruct EI as [Hr ->]. auto.
  - intros [= ->]. left. unfold ColRange in EC.
    destruct (_ && _); [discriminate|]. injection EC as <-. auto.
Qed.

Lemma layersLoop_Panic fw fh labels detLayers yd p :
  layersLoop fw fh labels detLayers yd = Panic p ->
  exists prob row, In prob detLayers /\ In row prob /\ decodeRow fw fh labels row = Panic p.
Proof.
  revert yd. induction detLayers as [|prob ls IH]; intros yd; cbn [layersLoop]; [discriminate|].
  destruct (rowsLoop fw fh labels prob yd) as [y|q] eqn:E; cbn [bind].
  - intros H. destruct (IH _ H) as (pr & row & Hp & Hr & Hd).
    exists pr, row. repeat split; auto. now right.
  - intros [= ->]. apply rowsLoop_Panic_iff in E.
    destruct E as (b & row & a & -> & _ & Hd).
    exists (b ++ row :: a), row. repeat split; auto; [now left | apply in_elt].
Qed.

Lemma result_cases {A} (r : result A) : (exists a, r = Ok a) \/ (exists p, r = Panic p).
Proof. destruct r; eauto. Qed.

(** With both image sizes present, [extractPredictions] is the decoder
    followed by the suppressor. *)
Lemma extractPredictions_decode sort_Sort detLayers h w rest labels :
  extractPredictions sort_Sort detLayers (h :: w :: rest) labels
  = (yd <- decode detLayers w h labels ;; Ok (suppress sort_Sort yd)).
Proof.
  unfold extractPredictions, index. cbn [List.length nth_error Z.to_nat].
  assert ((0 <=? 1) && (1 <? Z.of_nat (S (S (List.length rest)))) = true) as -> by
      (apply andb_true_iff; split; [reflexivity | apply Z.ltb_lt; lia]).
  assert ((0 <=? 0) && (0 <? Z.of_nat (S (S (List.length rest)))) = true) as -> by
      (apply andb_true_iff; split; [reflexivity | apply Z.ltb_lt; lia]).
  reflexivity.
Qed.

(* ================================================================== *)
(** * The confidence threshold *)

(** C3: a row yields a candidate exactly when its confidence is
    strictly above the threshold.  A row whose confidence is not above
    it, the threshold itself included, is dropped without an error; the
    confidence of every candidate, of a row and of a whole decoding, is
    strictly above the threshold.  A decoding that returns holds the
    candidates of the rows, row by row in the order of the layers:
    every row above the threshold has its candidate in it, and nothing
    else is in it.  The decoding returns when every row can be
    decoded. *)
Theorem C3_threshold_strict :
  forall (frameWidth frameHeight : Z) (classLabels : list string),
    (forall row scores,
        ColRange 5 row = Ok scores ->
        let confidence := fst (MinMaxLoc scores) in
        (decodeRow frameWidth frameHeight classLabels row = Ok None <->
         Float.ltb confThr confidence = false)
        /\ (confidence = confThr ->
            decodeRow frameWidth frameHeight classLabels row = Ok None)
        /\ (forall d, decodeRow frameWidth frameHeight classLabels row = Ok (Some d) ->
                      detConf d = confidence /\ Float.ltb confThr confidence = true)
        /\ (Float.ltb confThr confidence = true ->
            forall name, index classLabels (snd (MinMaxLoc scores)) = Ok name ->
            exists d, decodeRow frameWidth frameHeight classLabels row = Ok (Some d)))
    /\ (forall detLayers yd,
           decode detLayers frameWidth frameHeight classLabels = Ok yd ->
           Forall (fun d => Float.ltb confThr (detConf d) = true) yd
           /\ yd = flat_map (flat_map (rowCandidates frameWidth frameHeight classLabels))
                            detLayers
           /\ (forall d,
                  In d yd <->
                  exists prob row,
                    In prob detLayers /\ In row prob /\
                    decodeRow frameWidth frameHeight classLabels row = Ok (Some d))
           /\ (forall prob row scores,
                  In prob detLayers -> In row prob ->
                  ColRange 5 row = Ok scores ->
                  Float.ltb confThr (fst (MinMaxLoc scores)) = true ->
                  exists d,
                    In d yd /\ detConf d = fst (MinMaxLoc scores) /\
                    decodeRow frameWidth frameHeight classLabels row = Ok (Some d))
           /\ (forall prob row scores,
                  In prob detLayers -> In row prob ->
                  ColRange 5 row = Ok scores ->
                  Float.ltb confThr (fst (MinMaxLoc scores)) = false ->
                  rowCandidates frameWidth frameHeight classLabels row = []))
    /\ (forall detLayers,
           Forall (Forall (rowDecodes frameWidth frameHeight classLabels)) detLayers ->
           exists yd, decode detLayers frameWidth frameHeight classLabels = Ok yd).
Proof.
  intros fw fh labels. split; [|split].
  - intros row scores EC confidence. split; [now apply decodeRow_None|]. split; [|split].
    + intros E. apply (decodeRow_None fw fh labels row scores EC).
      fold confidence. rewrite E. apply FloatFacts.ltb_irrefl.
    + intros d Hd. apply decodeRow_Some in Hd. destruct Hd as (s & EC' & Ht & _ & _ & Hc & _).
      rewrite EC in EC'. injection EC' as <-. auto.
    + intros Ht name Hi. eapply decodeRow_emits; eauto.
  - intros layers yd H. split; [|split; [|split; [|split]]].
    + apply Forall_forall. intros d Hd.
      apply (decode_In _ _ _ _ _ _ H) in Hd. destruct Hd as (prob & row & _ & _ & Hd).
      apply decodeRow_Some in Hd. destruct Hd as (s & _ & Ht & _ & _ & Hc & _).
      now rewrite Hc.
    + now apply decode_Ok_iff in H.
    + intros d. apply (decode_In _ _ _ _ _ _ H).
    + intros prob row scores Hp Hr EC Ht.
      pose proof H as HF. apply decode_Ok_iff in HF. destruct HF as [HF _].
      rewrite Forall_forall in HF. specialize (HF prob Hp).
      rewrite Forall_forall in HF. destruct (HF row Hr) as [r Hrow].
      destruct r as [d|].
      * exists d. split; [|split; [|exact Hrow]].
        -- apply (decode_In _ _ _ _ _ _ H). exists prob, row. auto.
        -- apply decodeRow_Some in Hrow.
           destruct Hrow as (s & EC' & _ & _ & _ & Hc & _).
           rewrite EC in EC'. injection EC' as <-. exact Hc.
      * apply (decodeRow_None fw fh labels row scores EC) in Hrow. congruence.
    + intros prob row scores _ _ EC Ht.
      apply (decodeRow_None fw fh labels row scores EC) in Ht.
      unfold rowCandidates. now rewrite Ht.
  - intros layers HF. eexists. apply decode_Ok_iff. split; [exact HF | reflexivity].
Qed.

(* ================================================================== *)
(** * The pixel box *)

(** [Float.trunc] drops the fraction of the exact value
    [(-1)^s * m * 2^e]: it is the quotient, rounded toward zero, of the
    signed mantissa scaled up by the non-negative part of the exponent
    and divided by two to the non-positive part. *)
Lemma trunc_toward_zero s m e :
  Float.trunc (S754_finite s m e)
  = Some (Z.quot ((if s then - Zpos m else Zpos m) * 2 ^ Z.max e 0) (2 ^ Z.max (- e) 0)).
Proof.
  unfold Float.trunc. f_equal.
  assert (Z.shiftl (Zpos m) e = Z.quot (Zpos m * 2 ^ Z.max e 0) (2 ^ Z.max (- e) 0)) as E.
  { destruct (Z.le_gt_cases 0 e) as [He|He].
    - rewrite Z.shiftl_mul_pow2 by lia.
      rewrite (Z.max_l e 0), (Z.max_r (- e) 0) by lia.
      cbn [Z.pow]. now rewrite Z.quot_1_r.
    - rewrite Z.shiftl_div_pow2 by lia.
      rewrite (Z.max_r e 0), (Z.max_l (- e) 0) by lia.
      rewrite Z.mul_1_r. symmetry. apply Z.quot_div_nonneg; [lia|].
      apply Z.pow_pos_nonneg; lia. }
  destruct s; [|exact E].
  rewrite E, Z.mul_opp_l, Z.quot_opp_l; [reflexivity|].
  apply Z.pow_nonzero; lia.
Qed.

Lemma int_of_float_trunc x t :
  Float.trunc x = Some t -> GoInt.in_range t -> Float.int_of_float x = t.
Proof.
  unfold Float.int_of_float, GoInt.in_range. intros -> [H1 H2].
  apply Z.leb_le in H1. apply Z.leb_le in H2. now rewrite H1, H2.
Qed.

Lemma Rect_min_max x0 y0 x1 y1 :
  Rect x0 y0 x1 y1
  = {| Min := Pt (Z.min x0 x1) (Z.min y0 y1); Max := Pt (Z.max x0 x1) (Z.max y0 y1) |}.
Proof.
  unfold Rect.
  destruct (Z.gtb_spec x0 x1), (Z.gtb_spec y0 y1);
    repeat f_equal; lia.
Qed.

(** C4: the box of a candidate is [image.Rect(left, top, left+width,
    top+height)], where centerX, centerY, width and height are the
    products of the first four columns with the image width and height,
    converted to [int] (the fraction is dropped), and
    [left = centerX - width/2], [top = centerY - height/2] with the
    division rounding toward zero.  As long as the quantities stay
    within 62 bits the [int] operations are the exact ones, and for a
    non-negative width and height the corners are (left, top) and
    (left+width, top+height). *)
Theorem C4_pixel_box :
  forall (frameWidth frameHeight : Z) (classLabels : list string) (row : Row)
         (d : YoloDetection),
    decodeRow frameWidth frameHeight classLabels row = Ok (Some d) ->
    let centerX := Float.int_of_float
      (Float.mul32 (GetFloatAt row 0) (Float.float32_of_int frameWidth)) in
    let centerY := Float.int_of_float
      (Float.mul32 (GetFloatAt row 1) (Float.float32_of_int frameHeight)) in
    let width := Float.int_of_float
      (Float.mul32 (GetFloatAt row 2) (Float.float32_of_int frameWidth)) in
    let height := Float.int_of_float
      (Float.mul32 (GetFloatAt row 3) (Float.float32_of_int frameHeight)) in
    let left := GoInt.sub centerX (GoInt.quo width 2) in
    let top := GoInt.sub centerY (GoInt.quo height 2) in
    detBBox d = Rect left top (GoInt.add left width) (GoInt.add top height)
    /\ (forall v dim t,
           Float.trunc (Float.mul32 v (Float.float32_of_int dim)) = Some t ->
           GoInt.in_range t ->
           Float.int_of_float (Float.mul32 v (Float.float32_of_int dim)) = t)
    /\ (Z.abs centerX <= 2 ^ 61 -> Z.abs width <= 2 ^ 61 ->
        left = centerX - Z.quot width 2 /\ GoInt.add left width = left + width)
    /\ (Z.abs centerY <= 2 ^ 61 -> Z.abs height <= 2 ^ 61 ->
        top = centerY - Z.quot height 2 /\ GoInt.add top height = top + height)
    /\ (Z.abs centerX <= 2 ^ 61 -> Z.abs centerY <= 2 ^ 61 ->
        0 <= width <= 2 ^ 61 -> 0 <= height <= 2 ^ 61 ->
        Min (detBBox d) = Pt left top /\
        Max (detBBox d) = Pt (left + width) (top + height)).
Proof.
  intros fw fh labels row d Hd centerX centerY width height left top.
  apply decodeRow_Some in Hd. destruct Hd as (s & _ & _ & _ & _ & _ & Hb).
  assert (forall c w, Z.abs c <= 2 ^ 61 -> Z.abs w <= 2 ^ 61 ->
            GoInt.sub c (GoInt.quo w 2) = c - Z.quot w 2 /\
            GoInt.add (GoInt.sub c (GoInt.quo w 2)) w = c - Z.quot w 2 + w) as Harith.
  { intros c w Hc Hw.
    assert (Z.abs (Z.quot w 2) <= Z.abs w) as Hq.
    { rewrite <- (Z.quot_abs w 2) by lia.
      apply Z.quot_le_upper_bound; lia. }
    unfold GoInt.sub, GoInt.add, GoInt.quo.
    rewrite (GoIntFacts.wrap_id (Z.quot w 2))
      by (unfold GoInt.in_range, GoInt.min_int, GoInt.max_int; lia).
    rewrite (GoIntFacts.wrap_id (c - Z.quot w 2))
      by (unfold GoInt.in_range, GoInt.min_int, GoInt.max_int; lia).
    split; [reflexivity|].
    apply GoIntFacts.wrap_id.
    unfold GoInt.in_range, GoInt.min_int, GoInt.max_int; lia. }
  split; [exact Hb|]. split; [intros v dim t; apply int_of_float_trunc|].
  split; [|split].
  - intros Hc Hw. destruct (Harith centerX width Hc Hw) as [E1 E2].
    subst left. rewrite E2, E1. auto.
  - intros Hc Hw. destruct (Harith centerY height Hc Hw) as [E1 E2].
    subst top. rewrite E2, E1. auto.
  - intros Hcx Hcy Hw Hh.
    destruct (Harith centerX width Hcx ltac:(lia)) as [E1 E2].
    destruct (Harith centerY height Hcy ltac:(lia)) as [E3 E4].
    rewrite Hb. unfold pixels. fold centerX centerY width height. fold left top.
    rewrite Rect_min_max. cbn [Min Max].
    subst left top. rewrite E2, E4, E1, E3.
    split; f_equal; lia.
Qed.

(* ================================================================== *)
(** * The label lookup *)

Lemma ColRange_wide start row :
  0 <= start <= Z.of_nat (List.length row) ->
  ColRange start row = Ok (skipn (Z.to_nat start) row).
Proof. intros H. now apply ColRange_Ok_iff. Qed.

(** C8: a row above the threshold whose class index has no entry in the
    label list makes the decoder panic with "index out of range",
    carrying the index and the length of the list; the panic is that of
    the whole decoding and of [extractPredictions].  The index is never
    clamped and the name never left blank: in a decoding that returns,
    every candidate's name is the label at its class index. *)
Theorem C8_lookup_panics :
  forall (sort_Sort : YoloDSlice -> YoloDSlice)
         (frameWidth frameHeight : Z) (classLabels : list string),
    (forall row scores,
        ColRange 5 row = Ok scores ->
        Float.ltb confThr (fst (MinMaxLoc scores)) = true ->
        ~ (0 <= snd (MinMaxLoc scores) < Z.of_nat (List.length classLabels)) ->
        decodeRow frameWidth frameHeight classLabels row
        = Panic (IndexOutOfRange (snd (MinMaxLoc scores))
                                 (Z.of_nat (List.length classLabels))))
    /\ (forall detLayers,
           Forall (Forall (fun row : Row => 5 <= Z.of_nat (List.length row))) detLayers ->
           (exists prob row scores,
               In prob detLayers /\ In row prob /\ ColRange 5 row = Ok scores /\
               Float.ltb confThr (fst (MinMaxLoc scores)) = true /\
               ~ (0 <= snd (MinMaxLoc scores) < Z.of_nat (List.length classLabels))) ->
           exists i,
             ~ (0 <= i < Z.of_nat (List.length classLabels)) /\
             decode detLayers frameWidth frameHeight classLabels
             = Panic (IndexOutOfRange i (Z.of_nat (List.length classLabels))) /\
             extractPredictions sort_Sort detLayers [frameHeight; frameWidth] classLabels
             = Panic (IndexOutOfRange i (Z.of_nat (List.length classLabels))))
    /\ (forall detLayers yd d,
           decode detLayers frameWidth frameHeight classLabels = Ok yd ->
           In d yd ->
           0 <= detClass d < Z.of_nat (List.length classLabels) /\
           nth_error classLabels (Z.to_nat (detClass d)) = Some (detName d)).
Proof.
  intros sort_Sort fw fh labels. split; [|split].
  - intros row scores. apply decodeRow_lookup_panics.
  - intros layers Hwide (prob & row & scores & Hp & Hr & EC & Ht & Hi).
    pose proof (decodeRow_lookup_panics fw fh labels row scores EC Ht Hi) as Hrow.
    destruct (result_cases (decode layers fw fh labels)) as [[yd E]|[p E]].
    + apply decode_Ok_iff in E. destruct E as [HF _].
      rewrite Forall_forall in HF. specialize (HF prob Hp).
      rewrite Forall_forall in HF. destruct (HF row Hr) as [r Hr']. congruence.
    + pose proof E as E'. unfold decode in E'. apply layersLoop_Panic in E'.
      destruct E' as (prob' & row' & Hp' & Hr' & Hd').
      apply decodeRow_Panic in Hd'. destruct Hd' as [[EC' _]|(s' & _ & _ & Hi' & ->)].
      * rewrite Forall_forall in Hwide. specialize (Hwide prob' Hp').
        rewrite Forall_forall in Hwide. specialize (Hwide row' Hr').
        rewrite ColRange_wide in EC' by lia. discriminate.
      * exists (snd (MinMaxLoc s')). split; [exact Hi'|]. split; [exact E|].
        rewrite extractPredictions_decode, E. reflexivity.
  - intros layers yd d H Hd.
    apply (decode_In _ _ _ _ _ _ H) in Hd. destruct Hd as (prob & row & _ & _ & Hd).
    apply decodeRow_Some in Hd. destruct Hd as (s & _ & _ & Hi & Hc & _).
    apply index_Ok_iff in Hi. now rewrite Hc.
Qed.

(* ================================================================== *)
(** * Empty input *)

(** C9: no layers, or layers without rows, decode to no candidates and
    not to an error; no candidates are suppressed to no detections, by
    any sorting function that returns a permutation of its argument; and
    [extractPredictions] then returns the empty slice. *)
Theorem C9_empty_input :
  forall (sort_Sort : YoloDSlice -> YoloDSlice)
         (frameWidth frameHeight : Z) (classLabels : list string),
    (forall yd, Permutation yd (sort_Sort yd)) ->
    decode [] frameWidth frameHeight classLabels = Ok []
    /\ (forall detLayers,
           Forall (fun prob : Mat => prob = []) detLayers ->
           decode detLayers frameWidth frameHeight classLabels = Ok [])
    /\ suppress sort_Sort [] = []
    /\ (forall detLayers,
           Forall (fun prob : Mat => prob = []) detLayers ->
           extractPredictions sort_Sort detLayers [frameHeight; frameWidth] classLabels
           = Ok []).
Proof.
  intros sort_Sort fw fh labels Hperm.
  assert (forall layers, Forall (fun prob : Mat => prob = []) layers ->
                         decode layers fw fh labels = Ok []) as Hdec.
  { intros layers HF. apply decode_Ok_iff. split.
    - induction HF as [|prob ls -> _ IH]; constructor; auto.
    - induction HF as [|prob ls -> _ IH]; cbn; auto. }
  assert (suppress sort_Sort [] = []) as Hsup.
  { unfold suppress. now rewrite (Permutation_nil (Hperm [])). }
  split; [reflexivity|]. split; [exact Hdec|]. split; [exact Hsup|].
  intros layers HF. rewrite extractPredictions_decode, (Hdec layers HF).
  cbn [bind]. now rewrite Hsup.
Qed.

(* ================================================================== *)
(** * Sorted slices *)

Lemma Sorted_snoc {A} (R : A -> A -> Prop) l x :
  Sorted R l -> (forall pre y, l = pre ++ [y] -> R y x) -> Sorted R (l ++ [x]).
Proof.
  induction 1 as [|a l HS IH HR]; intros Hlast; cbn.
  - repeat constructor.
  - constructor.
    + apply IH. intros pre y ->. apply (Hlast (a :: pre) y). reflexivity.
    + destruct l as [|b l]; cbn.
      * constructor. apply (Hlast [] a). reflexivity.
      * constructor. now inversion HR.
Qed.

Lemma Sorted_rev {A} (R : A -> A -> Prop) l :
  Sorted R l -> Sorted (fun a b => R b a) (rev l).
Proof.
  induction 1 as [|a l HS IH HR]; cbn; [constructor|].
  apply Sorted_snoc; [exact IH|].
  intros pre y E.
  assert (l = y :: rev pre) as ->.
  { rewrite <- (rev_involutive l), E, rev_app_distr. reflexivity. }
  now inversion HR.
Qed.

Lemma Sorted_middle {A} (R : A -> A -> Prop) p y x s :
  Sorted R (p ++ y :: x :: s) -> R y x.
Proof.
  induction p as [|a p IH]; cbn; intros H.
  - apply Sorted_inv in H. destruct H as [_ H]. now inversion H.
  - apply Sorted_inv in H. tauto.
Qed.

Lemma subseq_refl {A} (l : list A) : subseq l l.
Proof. induction l; [apply subseq_nil | now apply subseq_keep]. Qed.

Lemma subseq_Forall {A} (P : A -> Prop) k l : subseq k l -> Forall P l -> Forall P k.
Proof.
  induction 1 as [|x k l _ IH|x k l _ IH]; intros H; auto;
    inversion H; subst; auto.
Qed.

Lemma subseq_StronglySorted {A} (R : A -> A -> Prop) k l :
  subseq k l -> StronglySorted R l -> StronglySorted R k.
Proof.
  induction 1 as [|x k l Hs IH|x k l Hs IH]; intros H; auto;
    apply StronglySorted_inv in H; destruct H as [H HF]; auto.
  constructor; auto. eapply subseq_Forall; eauto.
Qed.

(* ================================================================== *)
(** * [insertionSort] keeps the promise of [sort.Sort] *)

Lemma insertDown_perm x rp : Permutation (x :: rp) (insertDown x rp).
Proof.
  induction rp as [|y rp IH]; cbn; [reflexivity|].
  destruct (Reverse_Less x y); [|reflexivity].
  rewrite perm_swap. now constructor.
Qed.

Lemma insertionSort_permutes yd : Permutation yd (insertionSort yd).
Proof.
  unfold insertionSort.
  assert (forall l acc, Permutation (l ++ acc)
            (fold_left (fun rprefix x => insertDown x rprefix) l acc)) as H.
  { induction l as [|x l IH]; intros acc; cbn; [reflexivity|].
    rewrite <- IH. rewrite <- insertDown_perm. apply Permutation_middle. }
  rewrite <- Permutation_rev. rewrite <- H. now rewrite app_nil_r.
Qed.

Lemma Reverse_Less_asym a b : Reverse_Less a b = true -> Reverse_Less b a = false.
Proof. unfold Reverse_Less, Less. apply FloatFacts.ltb_asym. Qed.

Lemma insertDown_sorted x rp :
  Sorted (fun a b => Reverse_Less a b = false) rp ->
  Sorted (fun a b => Reverse_Less a b = false) (insertDown x rp).
Proof.
  induction 1 as [|y rp HS IH HR]; cbn; [repeat constructor|].
  destruct (Reverse_Less x y) eqn:E.
  - constructor; [exact IH|].
    destruct rp as [|z rp]; cbn.
    + constructor. now apply Reverse_Less_asym.
    + destruct (Reverse_Less x z); constructor.
      * now inversion HR.
      * now apply Reverse_Less_asym.
  - repeat constructor; auto.
Qed.

Lemma insertionSort_sorts yd : IsSorted (insertionSort yd).
Proof.
  unfold IsSorted, insertionSort.
  apply (Sorted_rev (fun a b => Reverse_Less a b = false)).
  assert (forall l acc, Sorted (fun a b => Reverse_Less a b = false) acc ->
            Sorted (fun a b => Reverse_Less a b = false)
                   (fold_left (fun rprefix x => insertDown x rprefix) l acc)) as H.
  { induction l as [|x l IH]; intros acc Hacc; cbn; auto using insertDown_sorted. }
  apply H. constructor.
Qed.

(** A slice that is sorted already comes back as it is. *)
Lemma insertionSort_keeps_sorted yd : IsSorted yd -> insertionSort yd = yd.
Proof.
  unfold IsSorted, insertionSort. intros HS.
  assert (forall l acc,
             Sorted (fun prev next => Reverse_Less next prev = false) (rev acc ++ l) ->
             fold_left (fun rprefix x => insertDown x rprefix) l acc = rev l ++ acc) as H.
  { induction l as [|x l IH]; intros acc Hs; cbn; [reflexivity|].
    assert (insertDown x acc = x :: acc) as ->.
    { destruct acc as [|y acc]; cbn; [reflexivity|].
      cbn in Hs. rewrite <- app_assoc in Hs. cbn in Hs.
      now rewrite (Sorted_middle _ _ _ _ _ Hs). }
    rewrite IH; [now rewrite <- app_assoc|].
    cbn. now rewrite <- app_assoc. }
  rewrite H by exact HS. now rewrite app_nil_r, rev_involutive.
Qed.

(* ================================================================== *)
(** * The order of candidates *)

Lemma notBelow_trans a b c : notBelow a b -> notBelow b c -> notBelow a c.
Proof.
  unfold notBelow, numeric, Less. intros (Ha & Hb & Hab) (_ & Hc & Hbc).
  repeat split; auto.
  now apply (FloatFacts.not_ltb_trans _ (detConf b)).
Qed.

Lemma IsSorted_notBelow yd :
  Forall numeric yd -> IsSorted yd -> StronglySorted notBelow yd.
Proof.
  intros HN HS. apply Sorted_StronglySorted.
  - intros a b c. apply notBelow_trans.
  - unfold IsSorted in HS. induction HS as [|a l HS IH HR]; constructor.
    + apply IH. now inversion HN.
    + inversion HN as [|? ? Ha Hl]; subst.
      destruct HR as [|b l HR]; constructor.
      inversion Hl; subst. repeat split; auto.
Qed.

Lemma notBelow_IsSorted yd : StronglySorted notBelow yd -> IsSorted yd.
Proof.
  intros H. apply StronglySorted_Sorted in H. unfold IsSorted.
  induction H as [|a l HS IH HR]; constructor; auto.
  destruct HR as [|b l (_ & _ & HR)]; constructor. exact HR.
Qed.

Lemma notBelow_descending yd : StronglySorted notBelow yd -> descending yd.
Proof.
  intros H. apply StronglySorted_Sorted in H. unfold descending.
  induction H as [|a l HS IH HR]; constructor; auto.
  destruct HR as [|b l (Ha & Hb & HR)]; constructor.
  unfold numeric, Less in *. rewrite FloatFacts.leb_negb_ltb by assumption.
  now rewrite HR.
Qed.

(** The greedy pass extends the accepted list by a subsequence of the
    candidates, and a second pass over that subsequence accepts all of
    it. *)
Lemma nmsLoop_split yd acc :
  exists k, nmsLoop yd acc = acc ++ k /\ subseq k yd /\ nmsLoop k acc = acc ++ k.
Proof.
  revert acc. induction yd as [|d yd IH]; intros acc; cbn [nmsLoop].
  - exists []. rewrite app_nil_r. repeat split. constructor.
  - destruct (keepLoop d acc true) eqn:K.
    + destruct (IH (acc ++ [d])) as (k & E & Hs & E2).
      exists (d :: k). rewrite E, <- app_assoc. repeat split.
      * now constructor.
      * cbn [nmsLoop]. rewrite K, E2, <- app_assoc. reflexivity.
    + destruct (IH acc) as (k & E & Hs & E2).
      exists k. repeat split; auto. now constructor.
Qed.

Lemma differ_sym a b : differ a b -> differ b a.
Proof. unfold differ. tauto. Qed.

Lemma distinctConf_perm yd yd' :
  Permutation yd yd' -> distinctConf yd -> distinctConf yd'.
Proof.
  unfold distinctConf.
  induction 1 as [|x l l' HP IH|x y l|l l' l'' _ IH1 _ IH2]; intros H; auto.
  - inversion H; subst. constructor; auto. now rewrite <- HP.
  - inversion H as [|? ? Hy Hxl]; subst. inversion Hxl as [|? ? Hx Hl]; subst.
    inversion Hy as [|? ? Hyx Hyl]; subst.
    constructor; [|constructor; auto].
    constructor; [now apply differ_sym | exact Hx].
Qed.

Lemma IsSorted_distinct_above yd :
  IsSorted yd -> distinctConf yd -> StronglySorted above yd.
Proof.
  intros HS HD. apply Sorted_StronglySorted.
  - intros a b c. unfold above, Less. intros H1 H2. eapply FloatFacts.ltb_trans; eauto.
  - unfold IsSorted in HS. induction HS as [|a l HS IH HR]; constructor.
    + apply IH. now inversion HD.
    + inversion HD as [|? ? Ha _]; subst.
      destruct HR as [|b l HR]; constructor.
      inversion Ha as [|? ? [Hab|Hab] _]; subst; [|exact Hab].
      unfold Reverse_Less in HR. congruence.
Qed.

(** A permutation that is strictly descending is the only one. *)
Lemma above_sorted_unique yd yd' :
  Permutation yd yd' -> StronglySorted above yd -> StronglySorted above yd' -> yd = yd'.
Proof.
  revert yd'. induction yd as [|a t IH]; intros [|b t'] HP H1 H2.
  - reflexivity.
  - apply Permutation_nil in HP. discriminate.
  - apply Permutation_sym, Permutation_nil in HP. discriminate.
  - apply StronglySorted_inv in H1. destruct H1 as [H1 F1].
    apply StronglySorted_inv in H2. destruct H2 as [H2 F2].
    assert (a = b) as ->.
    { pose proof (Permutation_in a HP (or_introl eq_refl)) as [E|Ia]; [now symmetry|].
      pose proof (Permutation_in b (Permutation_sym HP) (or_introl eq_refl)) as [E|Ib];
        [exact E|].
      rewrite Forall_forall in F1, F2.
      pose proof (F1 b Ib) as G1. pose proof (F2 a Ia) as G2.
      unfold above, Less in *. rewrite (FloatFacts.ltb_asym _ _ G1) in G2. discriminate. }
    f_equal. apply IH; auto. eapply Permutation_cons_inv; eauto.
Qed.

(* ================================================================== *)
(** * The suppressor *)

Section Suppressor.

Variable sort_Sort : YoloDSlice -> YoloDSlice.

Hypothesis sort_permutes : forall yd, Permutation yd (sort_Sort yd).
Hypothesis sort_sorts : forall yd, IsSorted (sort_Sort yd).

Lemma suppress_subseq c : subseq (suppress sort_Sort c) (sort_Sort c).
Proof.
  unfold suppress. destruct (nmsLoop_split (sort_Sort c) []) as (k & -> & Hs & _).
  exact Hs.
Qed.

Lemma suppress_notBelow c :
  Forall numeric c -> StronglySorted notBelow (suppress sort_Sort c).
Proof.
  intros HN. apply (subseq_StronglySorted _ _ _ (suppress_subseq c)).
  apply IsSorted_notBelow; [|apply sort_sorts].
  now rewrite <- (sort_permutes c).
Qed.

(** C5: the suppressor returns the accepted list in the order of
    appending: a subsequence of the sorted candidates.  It is
    confidence-descending: of two adjacent detections the earlier one
    has a confidence greater than or equal to that of the later one.
    (The candidates are numeric, as all those of the decoder are.) *)
Theorem C5_output_descending :
  forall c : YoloDSlice,
    Forall numeric c ->
    subseq (suppress sort_Sort c) (sort_Sort c)
    /\ descending (suppress sort_Sort c).
Proof.
  intros c HN. split; [apply suppress_subseq|].
  apply notBelow_descending. now apply suppress_notBelow.
Qed.

(** C6, amended: suppressing the output of the suppressor again, with
    the same overlap threshold [ovrThr], returns that output unchanged,
    as a sequence, whenever sorting that output again leaves it as it
    is; and sorting leaves it as it is whenever no two detections of
    the output have equal confidence. *)
Theorem C6_suppress_idempotent_distinct :
  forall c : YoloDSlice,
    Forall numeric c ->
    (sort_Sort (suppress sort_Sort c) = suppress sort_Sort c ->
     suppress sort_Sort (suppress sort_Sort c) = suppress sort_Sort c)
    /\ (distinctConf (suppress sort_Sort c) ->
        sort_Sort (suppress sort_Sort c) = suppress sort_Sort c
        /\ suppress sort_Sort (suppress sort_Sort c) = suppress sort_Sort c).
Proof.
  intros c HN.
  assert (sort_Sort (suppress sort_Sort c) = suppress sort_Sort c ->
          suppress sort_Sort (suppress sort_Sort c) = suppress sort_Sort c) as Hstay.
  { intros E. unfold suppress at 1. rewrite E. unfold suppress.
    destruct (nmsLoop_split (sort_Sort c) []) as (k & -> & _ & E2). exact E2. }
  split; [exact Hstay|]. intros HD.
  assert (sort_Sort (suppress sort_Sort c) = suppress sort_Sort c) as E.
  { symmetry. apply above_sorted_unique.
    - apply sort_permutes.
    - apply IsSorted_distinct_above; [|exact HD].
      apply notBelow_IsSorted. now apply suppress_notBelow.
    - apply IsSorted_distinct_above; [apply sort_sorts|].
      apply (distinctConf_perm (suppress sort_Sort c)); [apply sort_permutes | exact HD]. }
  split; [exact E | exact (Hstay E)].
Qed.

End Suppressor.

(* ================================================================== *)
(** * The order of the layers *)

Lemma decode_perm fw fh labels detLayers detLayers' c :
  Permutation detLayers detLayers' ->
  decode detLayers fw fh labels = Ok c ->
  exists c', decode detLayers' fw fh labels = Ok c' /\ Permutation c c'.
Proof.
  intros HP H. apply decode_Ok_iff in H. destruct H as [HF ->].
  exists (flat_map (flat_map (rowCandidates fw fh labels)) detLayers'). split.
  - apply decode_Ok_iff. split; [|reflexivity]. now rewrite <- HP.
  - now apply Permutation_flat_map.
Qed.

Section LayerOrder.

Variable sort_Sort : YoloDSlice -> YoloDSlice.

Hypothesis sort_permutes : forall yd, Permutation yd (sort_Sort yd).
Hypothesis sort_sorts : forall yd, IsSorted (sort_Sort yd).

Lemma suppress_perm c c' :
  Permutation c c' -> distinctConf c -> suppress sort_Sort c' = suppress sort_Sort c.
Proof.
  intros HP HD. unfold suppress. f_equal.
  apply above_sorted_unique.
  - now rewrite <- (sort_permutes c'), <- (sort_permutes c).
  - apply IsSorted_distinct_above; [apply sort_sorts|].
    apply (distinctConf_perm c); [|exact HD].
    now rewrite <- (sort_permutes c').
  - apply IsSorted_distinct_above; [apply sort_sorts|].
    apply (distinctConf_perm c); [apply sort_permutes | exact HD].
Qed.

(** C7, amended: decoding a permutation of the layers that decode to c
    yields a permutation c' of c (the same candidates, each as often)
    and, as long as no two candidates have equal confidence, the
    suppressor and [extractPredictions] return the same sequence for
    both orders. *)
Theorem C7_layer_order_distinct :
  forall (frameWidth frameHeight : Z) (classLabels : list string)
         (detLayers detLayers' : list Mat) (c : YoloDSlice),
    Permutation detLayers detLayers' ->
    decode detLayers frameWidth frameHeight classLabels = Ok c ->
    exists c',
      decode detLayers' frameWidth frameHeight classLabels = Ok c'
      /\ Permutation c c'
      /\ (distinctConf c ->
          suppress sort_Sort c' = suppress sort_Sort c
          /\ extractPredictions sort_Sort detLayers' [frameHeight; frameWidth] classLabels
             = extractPredictions sort_Sort detLayers [frameHeight; frameWidth] classLabels).
Proof.
  intros fw fh labels layers layers' c HP H.
  destruct (decode_perm fw fh labels layers layers' c HP H) as (c' & H' & HPc).
  exists c'. split; [exact H'|]. split; [exact HPc|].
  intros HD. pose proof (suppress_perm c c' HPc HD) as E. split; [exact E|].
  rewrite !extractPredictions_decode, H, H'. cbn [bind]. now rewrite E.
Qed.

End LayerOrder.

(* ================================================================== *)
(** * The score columns *)

Lemma maxScan_spec l :
  forall pre best bi,
    Forall (fun v => Float.is_nan v = false) (pre ++ l) ->
    nth_error pre bi = Some best ->
    Forall (fun v => Float.ltb best v = false) pre ->
    (forall j v, (j < bi)%nat -> nth_error pre j = Some v -> Float.ltb v best = true) ->
    exists k,
      snd (maxScan l (Z.of_nat (List.length pre)) best (Z.of_nat bi)) = Z.of_nat k /\
      nth_error (pre ++ l) k
      = Some (fst (maxScan l (Z.of_nat (List.length pre)) best (Z.of_nat bi))) /\
      Forall (fun v => Float.ltb (fst (maxScan l (Z.of_nat (List.length pre)) best
                                               (Z.of_nat bi))) v = false) (pre ++ l) /\
      (forall j v, (j < k)%nat -> nth_error (pre ++ l) j = Some v ->
                   Float.ltb v (fst (maxScan l (Z.of_nat (List.length pre)) best
                                             (Z.of_nat bi))) = true).
Proof.
  induction l as [|v l IH]; intros pre best bi HN Hbi Hmax Hfirst.
  - cbn [maxScan fst snd]. rewrite app_nil_r. exists bi. auto.
  - cbn [maxScan].
    assert (Z.of_nat (List.length pre) + 1 = Z.of_nat (List.length (pre ++ [v]))) as EL
        by (rewrite length_app; cbn; lia).
    assert (pre ++ v :: l = (pre ++ [v]) ++ l) as EA by (now rewrite <- app_assoc).
    assert (Float.is_nan v = false) as Hv.
    { rewrite Forall_forall in HN. apply HN. apply in_elt. }
    assert (Forall (fun u => Float.is_nan u = false) pre) as Hpre.
    { rewrite Forall_forall in *. intros u Hu. apply HN. apply in_or_app. now left. }
    rewrite EL, EA. rewrite EA in HN.
    destruct (Float.ltb best v) eqn:E.
    + apply IH; auto.
      * rewrite nth_error_app2, Nat.sub_diag by lia. reflexivity.
      * apply Forall_app. split.
        -- rewrite Forall_forall in *. intros u Hu.
           destruct (Float.ltb v u) eqn:E2; [|reflexivity].
           rewrite <- (Hmax u Hu). symmetry.
           now apply (FloatFacts.ltb_trans _ v).
        -- constructor; [apply FloatFacts.ltb_irrefl | constructor].
      * intros j u Hj Hu. rewrite nth_error_app1 in Hu by exact Hj.
        apply (FloatFacts.not_ltb_ltb_trans u best v); auto.
        -- rewrite Forall_forall in Hpre. apply Hpre. eapply nth_error_In; eauto.
        -- rewrite Forall_forall in Hmax. apply Hmax. eapply nth_error_In; eauto.
    + assert (bi < List.length pre)%nat as Hlt
          by (apply nth_error_Some; congruence).
      apply IH; auto.
      * rewrite nth_error_app1 by exact Hlt. exact Hbi.
      * apply Forall_app. split; [exact Hmax | constructor; [exact E | constructor]].
      * intros j u Hj Hu. rewrite nth_error_app1 in Hu by lia. eauto.
Qed.

(** On a row of scores without NaN, [MinMaxLoc] returns the maximum and
    the index of its first occurrence. *)
Lemma MinMaxLoc_spec scores :
  scores <> [] ->
  Forall (fun v => Float.is_nan v = false) scores ->
  exists k,
    snd (MinMaxLoc scores) = Z.of_nat k /\
    nth_error scores k = Some (fst (MinMaxLoc scores)) /\
    Forall (fun v => Float.leb v (fst (MinMaxLoc scores)) = true) scores /\
    (forall j v, (j < k)%nat -> nth_error scores j = Some v ->
                 Float.ltb v (fst (MinMaxLoc scores)) = true).
Proof.
  destruct scores as [|v l]; [congruence|]. intros _ HN.
  assert (Float.is_nan v = false) as Hv by (now inversion HN).
  assert (MinMaxLoc (v :: l) = maxScan l (Z.of_nat (List.length [v])) v (Z.of_nat 0)) as ->.
  { unfold MinMaxLoc. cbn [maxScan]. change (0 + 1) with 1.
    destruct (Float.ltb (S754_infinity true) v) eqn:E; [reflexivity|].
    now rewrite (FloatFacts.not_above_neg_infinity v Hv E). }
  destruct (maxScan_spec l [v] v 0%nat) as (k & Hk & Hnth & Hmax & Hfirst); auto.
  - constructor; [apply FloatFacts.ltb_irrefl | constructor].
  - intros j u Hj. lia.
  - exists k. cbn [app] in *. repeat split; auto.
    assert (Float.is_nan (fst (maxScan l (Z.of_nat (List.length [v])) v (Z.of_nat 0))) = false)
      as Hm.
    { rewrite Forall_forall in HN. apply HN. eapply nth_error_In; eauto. }
    rewrite Forall_forall in *. intros u Hu.
    rewrite FloatFacts.leb_negb_ltb; auto. now rewrite (Hmax u Hu).
Qed.

(** C2, amended: the score columns of a row are its columns 5..N: the
    first four columns are geometry and column 4 is passed over.  On
    scores without NaN the confidence is the maximum over those columns
    and the class index is the position of the first maximum within
    them, so that the confidence stands in column 5 + classID of the
    row; the class index is used as it is as the index into the label
    list. *)
Theorem C2_score_columns_from_5 :
  forall (frameWidth frameHeight : Z) (classLabels : list string) (row scores : Row),
    ColRange 5 row = Ok scores ->
    scores = skipn 5 row
    /\ (forall d,
           decodeRow frameWidth frameHeight classLabels row = Ok (Some d) ->
           detConf d = fst (MinMaxLoc scores) /\
           detClass d = snd (MinMaxLoc scores) /\
           index classLabels (detClass d) = Ok (detName d))
    /\ (scores <> [] ->
        Forall (fun v => Float.is_nan v = false) scores ->
        exists k,
          snd (MinMaxLoc scores) = Z.of_nat k /\
          nth_error scores k = Some (fst (MinMaxLoc scores)) /\
          nth_error row (5 + k) = Some (fst (MinMaxLoc scores)) /\
          Forall (fun v => Float.leb v (fst (MinMaxLoc scores)) = true) scores /\
          (forall j v, (j < k)%nat -> nth_error scores j = Some v ->
                       Float.ltb v (fst (MinMaxLoc scores)) = true)).
Proof.
  intros fw fh labels row scores EC.
  pose proof EC as EC0. apply ColRange_Ok_iff in EC0. destruct EC0 as [_ Es].
  change (Z.to_nat 5) with 5%nat in Es.
  split; [exact Es|]. split.
  - intros d Hd. apply decodeRow_Some in Hd.
    destruct Hd as (s & EC' & _ & Hi & Hc & Hconf & _).
    rewrite EC in EC'. injection EC' as <-. rewrite Hc. auto.
  - intros Hne HN. destruct (MinMaxLoc_spec scores Hne HN) as (k & Hk & Hnth & Hmax & Hfirst).
    exists k. repeat split; auto.
    rewrite <- Hnth, Es. symmetry. apply nth_error_skipn.
Qed.

(* ================================================================== *)
(** * Canonical boxes *)

Lemma Rect_canonical x0 y0 x1 y1 : canonical (Rect x0 y0 x1 y1).
Proof. rewrite Rect_min_max. unfold canonical. cbn. lia. Qed.

Lemma Size_exact r :
  canonical r -> sidesFit r ->
  Size r = Pt (X (Max r) - X (Min r)) (Y (Max r) - Y (Min r)).
Proof.
  unfold canonical, sidesFit, Size, GoInt.sub. intros [Hx Hy] [Sx Sy].
  rewrite !GoIntFacts.wrap_id
    by (unfold GoInt.in_range, GoInt.min_int, GoInt.max_int; lia).
  reflexivity.
Qed.

Lemma area_exact r :
  canonical r -> sidesFit r ->
  area r = (X (Max r) - X (Min r)) * (Y (Max r) - Y (Min r)).
Proof.
  intros Hc Hs. unfold area. rewrite (Size_exact r Hc Hs). cbn [X Y].
  unfold canonical, sidesFit in *. unfold GoInt.mul.
  apply GoIntFacts.wrap_id.
  unfold GoInt.in_range, GoInt.min_int, GoInt.max_int.
  assert (2 ^ 31 * 2 ^ 31 = 2 ^ 62) as E by reflexivity.
  nia.
Qed.

(** The intersection with any rectangle lies inside the box. *)
Lemma Intersect_inside r s :
  canonical r ->
  canonical (Intersect r s) /\
  X (Max (Intersect r s)) - X (Min (Intersect r s)) <= X (Max r) - X (Min r) /\
  Y (Max (Intersect r s)) - Y (Min (Intersect r s)) <= Y (Max r) - Y (Min r).
Proof.
  unfold canonical, Intersect, Empty. intros [Hx Hy]. cbn [Min Max X Y].
  destruct (Z.ltb_spec (X (Min r)) (X (Min s))), (Z.ltb_spec (Y (Min r)) (Y (Min s))),
    (Z.gtb_spec (X (Max r)) (X (Max s))), (Z.gtb_spec (Y (Max r)) (Y (Max s)));
    match goal with
    | |- context [?a >=? ?b] => destruct (Z.geb_spec a b)
    end; cbn [orb Min Max X Y ZR];
    try match goal with
    | |- context [?a >=? ?b] => destruct (Z.geb_spec a b)
    end; cbn [orb Min Max X Y ZR]; lia.
Qed.

(** C10, amended: every box of the decoder is canonical, [image.Rect]
    having swapped the corners where needed, so that Min is
    component-wise at most Max.  When the sides of the box are shorter
    than 2^31 pixels, the [int] arithmetic of [Size] and of the area
    does not wrap: width, height and area of the box are non-negative,
    and so is the area of its intersection with any rectangle, which is
    at most the area of the box. *)
Theorem C10_canonical_boxes :
  forall (frameWidth frameHeight : Z) (classLabels : list string) (row : Row)
         (d : YoloDetection),
    decodeRow frameWidth frameHeight classLabels row = Ok (Some d) ->
    canonical (detBBox d)
    /\ (sidesFit (detBBox d) ->
        0 <= X (Size (detBBox d))
        /\ 0 <= Y (Size (detBBox d))
        /\ 0 <= area (detBBox d)
        /\ (forall s, 0 <= area (Intersect (detBBox d) s) <= area (detBBox d))).
Proof.
  intros fw fh labels row d Hd.
  apply decodeRow_Some in Hd. destruct Hd as (s & _ & _ & _ & _ & _ & Hb).
  assert (canonical (detBBox d)) as Hc by (rewrite Hb; apply Rect_canonical).
  split; [exact Hc|]. intros Hs.
  rewrite (Size_exact _ Hc Hs), (area_exact _ Hc Hs). cbn [X Y].
  pose proof Hc as [Hx Hy]. pose proof Hs as [Sx Sy].
  split; [lia|]. split; [lia|]. split; [nia|].
  intros r. destruct (Intersect_inside (detBBox d) r Hc) as (Hci & Ix & Iy).
  assert (sidesFit (Intersect (detBBox d) r)) as Hsi by (unfold sidesFit; lia).
  rewrite (area_exact _ Hci Hsi). destruct Hci as [Cx Cy]. nia.
Qed.

(* ================================================================== *)
(** * [extractPredictions] as a whole *)

Lemma decode_numeric fw fh labels detLayers c :
  decode detLayers fw fh labels = Ok c -> Forall numeric c.
Proof.
  intros H. apply Forall_forall. intros d Hd.
  apply (decode_In _ _ _ _ _ _ H) in Hd. destruct Hd as (prob & row & _ & _ & Hd).
  apply decodeRow_Some in Hd. destruct Hd as (s & _ & Ht & _ & _ & Hc & _).
  unfold numeric. rewrite Hc. now destruct (FloatFacts.ltb_not_nan _ _ Ht).
Qed.

(** Whatever the layers, a result of [extractPredictions] is
    confidence-descending. *)
Lemma extractPredictions_descending sort_Sort detLayers h w labels out :
  (forall yd, Permutation yd (sort_Sort yd)) ->
  (forall yd, IsSorted (sort_Sort yd)) ->
  extractPredictions sort_Sort detLayers [h; w] labels = Ok out ->
  descending out.
Proof.
  intros HP HS. rewrite extractPredictions_decode.
  destruct (decode detLayers w h labels) as [c|p] eqn:E; cbn [bind]; [|discriminate].
  intros [= <-]. apply notBelow_descending, suppress_notBelow; auto.
  eapply decode_numeric; eauto.
Qed.

(* ================================================================== *)
(** * The facts above at sample inputs *)

Module SampleFacts.
Import Samples.

Lemma decodeRow_rowPerson : decodeRow 100 100 labels rowPerson = Ok (Some detPerson).
Proof. vm_compute. reflexivity. Qed.

Lemma decodeRow_rowObjectness : decodeRow 100 100 labels rowObjectness = Ok (Some detCar).
Proof. vm_compute. reflexivity. Qed.

(** The end-to-end scenario: two rows of one layer on a 100 x 100
    image, boxes 20 x 20 at x = 40 and x = 42; the fainter one overlaps
    the other by more than 40% of its own area and is suppressed. *)
Example end_to_end :
  extractPredictions insertionSort
    [[rowPerson;
      [q32 52 100; q32 1 2; q32 2 10; q32 2 10; q32 1 1; q32 6 10; q32 1 10]]]
    [100; 100] labels
  = Ok [detPerson].
Proof. vm_compute. reflexivity. Qed.

(** A row whose best score is the threshold 0.5 itself is dropped. *)
Example threshold_boundary :
  decodeRow 100 100 labels
    [q32 1 2; q32 1 2; q32 2 10; q32 2 10; q32 1 1; q32 1 2; q32 1 10]
  = Ok None.
Proof. vm_compute. reflexivity. Qed.

(** With two labels, class index 2 has no entry. *)
Example lookup_panics :
  extractPredictions insertionSort [[rowPerson; rowThird]] [100; 100] labels
  = Panic (IndexOutOfRange 2 2).
Proof. vm_compute. reflexivity. Qed.

(** A width of -0.2: [image.Rect] swaps the corners. *)
Example negative_width :
  decodeRow 100 100 labels
    [q32 1 2; q32 1 2; q32 (-2) 10; q32 2 10; q32 1 1; q32 9 10; q32 1 10]
  = Ok (Some detPerson).
Proof. vm_compute. reflexivity. Qed.

(** Overlap asymmetry: a box of area 100 inside one of area 10000.
    The small one is rejected after the large one; the large one is
    accepted after the small one. *)
Example small_inside_large :
  let large := {| detClass := 0; detName := "person"; detConf := q32 9 10;
                  detBBox := {| Min := Pt 0 0; Max := Pt 100 100 |} |} in
  let small := {| detClass := 1; detName := "car"; detConf := q32 6 10;
                  detBBox := {| Min := Pt 10 10; Max := Pt 20 20 |} |} in
  suppress insertionSort [small; large] = [large].
Proof. vm_compute. reflexivity. Qed.

Example large_around_small :
  let large := {| detClass := 0; detName := "person"; detConf := q32 6 10;
                  detBBox := {| Min := Pt 0 0; Max := Pt 100 100 |} |} in
  let small := {| detClass := 1; detName := "car"; detConf := q32 9 10;
                  detBBox := {| Min := Pt 10 10; Max := Pt 20 20 |} |} in
  suppress insertionSort [large; small] = [small; large].
Proof. vm_compute. reflexivity. Qed.

(** At [rowObjectness] the maximum over columns 4..N is the objectness
    0.95 at position 0, while the candidate has confidence 0.9 and
    class index 1, the maximum over columns 5..N. *)
Lemma C2_counterexample :
  decodeRow 100 100 labels rowObjectness = Ok (Some detCar)
  /\ MinMaxLoc (specScoreColumns rowObjectness) = (q32 95 100, 0)
  /\ MinMaxLoc (skipn 5 rowObjectness) = (detConf detCar, detClass detCar)
  /\ detConf detCar <> fst (MinMaxLoc (specScoreColumns rowObjectness))
  /\ detClass detCar <> snd (MinMaxLoc (specScoreColumns rowObjectness)).
Proof.
  split; [exact decodeRow_rowObjectness|].
  split; [vm_compute; reflexivity|]. split; [vm_compute; reflexivity|].
  split; vm_compute; discriminate.
Qed.

Lemma C2_witness :
  ColRange 5 rowObjectness = Ok (skipn 5 rowObjectness)
  /\ forall d,
      decodeRow 100 100 labels rowObjectness = Ok (Some d) ->
      detConf d = fst (MinMaxLoc (skipn 5 rowObjectness)) /\
      detClass d = snd (MinMaxLoc (skipn 5 rowObjectness)) /\
      index labels (detClass d) = Ok (detName d).
Proof.
  split; [reflexivity|].
  exact (proj1 (proj2 (C2_score_columns_from_5 100 100 labels rowObjectness
                         (skipn 5 rowObjectness) eq_refl))).
Defined.

Lemma C4_witness :
  decodeRow 100 100 labels rowPerson = Ok (Some detPerson)
  /\ detBBox detPerson
     = (let centerX := Float.int_of_float
          (Float.mul32 (GetFloatAt rowPerson 0) (Float.float32_of_int 100)) in
        let centerY := Float.int_of_float
          (Float.mul32 (GetFloatAt rowPerson 1) (Float.float32_of_int 100)) in
        let width := Float.int_of_float
          (Float.mul32 (GetFloatAt rowPerson 2) (Float.float32_of_int 100)) in
        let height := Float.int_of_float
          (Float.mul32 (GetFloatAt rowPerson 3) (Float.float32_of_int 100)) in
        let left := GoInt.sub centerX (GoInt.quo width 2) in
        let top := GoInt.sub centerY (GoInt.quo height 2) in
        Rect left top (GoInt.add left width) (GoInt.add top height)).
Proof.
  assert (decodeRow 100 100 labels rowPerson = Ok (Some detPerson)) as H
      by (vm_compute; reflexivity).
  split; [exact H|].
  exact (proj1 (C4_pixel_box 100 100 labels rowPerson detPerson H)).
Defined.

Lemma C5_witness :
  Forall numeric [detFainter; detPerson]
  /\ subseq (suppress insertionSort [detFainter; detPerson])
            (insertionSort [detFainter; detPerson])
  /\ descending (suppress insertionSort [detFainter; detPerson]).
Proof.
  assert (Forall numeric [detFainter; detPerson]) as H
      by (repeat constructor).
  split; [exact H|].
  exact (C5_output_descending insertionSort insertionSort_permutes insertionSort_sorts
           [detFainter; detPerson] H).
Defined.

(** Thirteen candidates by descending confidence, the car and the
    person within its box with the same confidence 0.93, under the
    [sort.Sort] of Go 1.18.  The sort puts the person before the car,
    and both are accepted: the output.  Sorting the output puts the car
    before the person again, and the person, all of it within the box
    of the car, is rejected. *)
Lemma C6_counterexample :
  Forall numeric SortSamples.carFirst
  /\ Sort18.SortReverse SortSamples.carFirst = Ok SortSamples.personFirst
  /\ suppress Sort18.sort_Sort SortSamples.carFirst = SortSamples.personFirst
  /\ Sort18.SortReverse SortSamples.personFirst = Ok SortSamples.carFirst
  /\ suppress Sort18.sort_Sort (suppress Sort18.sort_Sort SortSamples.carFirst)
     = SortSamples.carOnly
  /\ suppress Sort18.sort_Sort (suppress Sort18.sort_Sort SortSamples.carFirst)
     <> suppress Sort18.sort_Sort SortSamples.carFirst.
Proof.
  split; [repeat constructor|].
  split; [vm_compute; reflexivity|]. split; [vm_compute; reflexivity|].
  split; [vm_compute; reflexivity|]. split; [vm_compute; reflexivity|].
  vm_compute. discriminate.
Qed.

(** Four candidates; the fainter person within the box of the car is
    rejected, and the three that are kept have the confidences 0.9, 0.7
    and 0.6. *)
Lemma C6_witness :
  let c := [SortSamples.small 1 70; detFainter; detCar; SortSamples.small 2 60] in
  Forall numeric c
  /\ suppress insertionSort c = [detCar; SortSamples.small 1 70; SortSamples.small 2 60]
  /\ distinctConf (suppress insertionSort c)
  /\ insertionSort (suppress insertionSort c) = suppress insertionSort c
  /\ suppress insertionSort (suppress insertionSort c) = suppress insertionSort c.
Proof.
  cbv zeta.
  assert (Forall numeric [SortSamples.small 1 70; detFainter; detCar; SortSamples.small 2 60])
    as H by (repeat constructor).
  assert (suppress insertionSort
            [SortSamples.small 1 70; detFainter; detCar; SortSamples.small 2 60]
          = [detCar; SortSamples.small 1 70; SortSamples.small 2 60]) as E
      by (vm_compute; reflexivity).
  assert (distinctConf (suppress insertionSort
            [SortSamples.small 1 70; detFainter; detCar; SortSamples.small 2 60])) as HD.
  { rewrite E. unfold distinctConf.
    repeat first [apply FOP_cons | apply FOP_nil | apply Forall_cons | apply Forall_nil];
      unfold differ; right; vm_compute; reflexivity. }
  split; [exact H|]. split; [exact E|]. split; [exact HD|].
  exact (proj2 (C6_suppress_idempotent_distinct insertionSort insertionSort_permutes
                  insertionSort_sorts _ H) HD).
Defined.

(** Two layers of one row each, the same box and the same confidence
    0.9, one of class "person" and one of class "car": whichever layer
    comes first gives the detection that is kept. *)
Lemma C7_counterexample :
  Permutation [[rowPerson]; [rowCar]] [[rowCar]; [rowPerson]]
  /\ extractPredictions insertionSort [[rowPerson]; [rowCar]] [100; 100] labels
     = Ok [detPerson]
  /\ extractPredictions insertionSort [[rowCar]; [rowPerson]] [100; 100] labels
     = Ok [detCar]
  /\ extractPredictions insertionSort [[rowPerson]; [rowCar]] [100; 100] labels
     <> extractPredictions insertionSort [[rowCar]; [rowPerson]] [100; 100] labels.
Proof.
  split; [apply perm_swap|].
  split; [vm_compute; reflexivity|]. split; [vm_compute; reflexivity|].
  vm_compute. discriminate.
Qed.

Lemma C7_witness :
  Permutation [[rowFainter]; [rowPerson]] [[rowPerson]; [rowFainter]]
  /\ decode [[rowFainter]; [rowPerson]] 100 100 labels = Ok [detFainter; detPerson]
  /\ distinctConf [detFainter; detPerson]
  /\ extractPredictions insertionSort [[rowPerson]; [rowFainter]] [100; 100] labels
     = extractPredictions insertionSort [[rowFainter]; [rowPerson]] [100; 100] labels.
Proof.
  assert (decode [[rowFainter]; [rowPerson]] 100 100 labels = Ok [detFainter; detPerson]) as H
      by (vm_compute; reflexivity).
  assert (distinctConf [detFainter; detPerson]) as HD.
  { unfold distinctConf. constructor.
    - constructor; [|constructor]. left. vm_compute. reflexivity.
    - repeat constructor. }
  split; [apply perm_swap|]. split; [exact H|]. split; [exact HD|].
  destruct (C7_layer_order_distinct insertionSort insertionSort_permutes insertionSort_sorts
              100 100 labels [[rowFainter]; [rowPerson]] [[rowPerson]; [rowFainter]]
              [detFainter; detPerson] (perm_swap _ _ _) H) as (c' & _ & _ & Himp).
  exact (proj2 (Himp HD)).
Defined.

Lemma C9_witness :
  (forall yd, Permutation yd (insertionSort yd))
  /\ decode [] 100 100 labels = Ok []
  /\ suppress insertionSort [] = []
  /\ extractPredictions insertionSort [[]; []] [100; 100] labels = Ok [].
Proof.
  split; [exact insertionSort_permutes|].
  pose proof (C9_empty_input insertionSort 100 100 labels insertionSort_permutes)
    as (H1 & _ & H3 & H4).
  split; [exact H1|]. split; [exact H3|].
  apply H4. repeat constructor.
Defined.

(** On an image of 2^32 by 2^31 pixels the box that covers the image
    has width 2^32 and height 2^31; their product 2^63 wraps to the
    smallest [int].  In the greedy pass the second such candidate is
    tested with that negative area, and kept beside the first. *)
Lemma C10_counterexample :
  decodeRow hugeWidth hugeHeight labels rowWhole' = Ok (Some detWhole')
  /\ Size (detBBox detWhole') = Pt (2 ^ 32) (2 ^ 31)
  /\ area (detBBox detWhole') = - 2 ^ 63
  /\ area (detBBox detWhole') < 0
  /\ extractPredictions insertionSort [[rowWhole; rowWhole']] [hugeHeight; hugeWidth] labels
     = Ok [detWhole; detWhole'].
Proof.
  split; [vm_compute; reflexivity|]. split; [vm_compute; reflexivity|].
  split; [vm_compute; reflexivity|]. split; [vm_compute; reflexivity|].
  vm_compute. reflexivity.
Qed.

Lemma C10_witness :
  decodeRow 100 100 labels rowPerson = Ok (Some detPerson)
  /\ sidesFit (detBBox detPerson)
  /\ canonical (detBBox detPerson)
  /\ 0 <= X (Size (detBBox detPerson))
  /\ 0 <= Y (Size (detBBox detPerson))
  /\ 0 <= area (detBBox detPerson)
  /\ (forall s, 0 <= area (Intersect (detBBox detPerson) s) <= area (detBBox detPerson)).
Proof.
  assert (decodeRow 100 100 labels rowPerson = Ok (Some detPerson)) as H
      by (vm_compute; reflexivity).
  assert (sidesFit (detBBox detPerson)) as HS
      by (unfold sidesFit; cbn; lia).
  split; [exact H|]. split; [exact HS|].
  destruct (C10_canonical_boxes 100 100 labels rowPerson detPerson H) as [Hc Hrest].
  split; [exact Hc|]. exact (Hrest HS).
Defined.

End SampleFacts.

(* ================================================================== *)
(** * The methods of [YoloDSlice] *)

Module SliceFacts.
Import Slice.

Lemma nth_error_setAt {A} (l : list A) n x k :
  (n < List.length l)%nat ->
  nth_error (setAt l (Z.of_nat n) x) k = if Nat.eqb k n then Some x else nth_error l k.
Proof.
  intros Hn. unfold setAt. rewrite Nat2Z.id.
  assert (List.length (firstn n l) = n) as Hf by (rewrite length_firstn; lia).
  destruct (Nat.eqb_spec k n) as [->|Hk].
  - rewrite nth_error_app2 by lia. now rewrite Hf, Nat.sub_diag.
  - destruct (Nat.lt_ge_cases k n) as [Hlt|Hge].
    + rewrite nth_error_app1 by lia. rewrite nth_error_firstn.
      destruct (Nat.ltb_spec k n); [reflexivity | lia].
    + rewrite nth_error_app2 by lia. rewrite Hf.
      destruct (k - n)%nat as [|m] eqn:E; [lia|]. cbn [nth_error].
      rewrite nth_error_skipn. f_equal. lia.
Qed.

Lemma length_setAt {A} (l : list A) n x :
  (n < List.length l)%nat -> List.length (setAt l (Z.of_nat n) x) = List.length l.
Proof.
  intros Hn. unfold setAt. rewrite Nat2Z.id, length_app. cbn [List.length].
  rewrite length_firstn, length_skipn. lia.
Qed.

Lemma firstn_length_app {A} (l1 r : list A) : firstn (List.length l1) (l1 ++ r) = l1.
Proof. induction l1 as [|x l1 IH]; cbn; [now destruct r | now rewrite IH]. Qed.

Lemma skipn_S_length_app {A} (l1 l2 : list A) a :
  skipn (S (List.length l1)) (l1 ++ a :: l2) = l2.
Proof. induction l1 as [|x l1 IH]; cbn; [reflexivity | exact IH]. Qed.

(** Writing x over a gives the same elements, a exchanged for x. *)
Lemma setAt_replace {A} (l : list A) n a x :
  nth_error l n = Some a ->
  Permutation (a :: setAt l (Z.of_nat n) x) (x :: l).
Proof.
  intros Hn. unfold setAt. rewrite Nat2Z.id.
  destruct (nth_error_split l n Hn) as (l1 & l2 & -> & <-).
  rewrite firstn_length_app, skipn_S_length_app.
  rewrite <- !Permutation_middle. apply perm_swap.
Qed.

Lemma index_nat {A} (l : list A) i a :
  index l i = Ok a ->
  exists n, i = Z.of_nat n /\ (n < List.length l)%nat /\ nth_error l n = Some a.
Proof.
  intros H. apply index_Ok_iff in H. destruct H as [Hr Hn].
  exists (Z.to_nat i). repeat split; auto; lia.
Qed.

Lemma index_of_nth {A} (l : list A) n :
  index l (Z.of_nat n)
  = match nth_error l n with
    | Some a => Ok a
    | None => Panic (IndexOutOfRange (Z.of_nat n) (Z.of_nat (List.length l)))
    end.
Proof.
  destruct (nth_error l n) as [a|] eqn:E.
  - apply index_Ok_iff. rewrite Nat2Z.id. split; [|exact E].
    assert (n < List.length l)%nat by (apply nth_error_Some; congruence). lia.
  - apply index_Panic_iff. split; [|reflexivity].
    apply nth_error_None in E. lia.
Qed.

Lemma index_outside {A} (l : list A) k :
  ~ (0 <= k < Z.of_nat (List.length l)) ->
  index l k = Panic (IndexOutOfRange k (Z.of_nat (List.length l))).
Proof. intros H. now apply index_Panic_iff. Qed.

(** X1: a [Swap] that returns was given two indices within the slice;
    the result has the same elements and the same length, the elements
    at i and j have changed places and every other element is where it
    was. *)
Theorem Swap_exchanges :
  forall (yd yd' : YoloDSlice) (i j : Z),
    Swap yd i j = Ok yd' ->
    0 <= i < Len yd /\ 0 <= j < Len yd
    /\ Permutation yd yd'
    /\ Len yd' = Len yd
    /\ index yd' i = index yd j
    /\ index yd' j = index yd i
    /\ (forall k, k <> i -> k <> j -> index yd' k = index yd k).
Proof.
  intros yd yd' i j. unfold Swap.
  destruct (index yd j) as [b|] eqn:Ej; cbn [bind]; [|discriminate].
  destruct (index yd i) as [a|] eqn:Ei; cbn [bind]; [|discriminate].
  intros [= <-].
  destruct (index_nat _ _ _ Ei) as (n & -> & Hn & En).
  destruct (index_nat _ _ _ Ej) as (m & -> & Hm & Em).
  assert (List.length (setAt yd (Z.of_nat n) b) = List.length yd) as L1
      by now apply length_setAt.
  assert (List.length (setAt (setAt yd (Z.of_nat n) b) (Z.of_nat m) a) = List.length yd) as L2
      by (rewrite length_setAt; lia).
  assert (nth_error (setAt yd (Z.of_nat n) b) m = Some b) as E1.
  { rewrite nth_error_setAt by exact Hn. destruct (Nat.eqb_spec m n); auto. }
  unfold Len. rewrite L2. split; [lia|]. split; [lia|]. split; [|split; [reflexivity|]].
  - apply (Permutation_cons_inv (a := b)).
    rewrite <- (setAt_replace _ _ _ b En).
    symmetry. now apply setAt_replace.
  - split; [|split].
    + rewrite index_of_nth, nth_error_setAt by lia.
      destruct (Nat.eqb_spec n m) as [E|Hne].
      * subst m. congruence.
      * rewrite nth_error_setAt by exact Hn. now rewrite Nat.eqb_refl.
    + rewrite index_of_nth, nth_error_setAt by lia. now rewrite Nat.eqb_refl.
    + intros k Hki Hkj.
      destruct (Z.lt_ge_cases k 0) as [Hneg|Hpos].
      * rewrite !index_outside by lia. now rewrite L2.
      * rewrite <- (Z2Nat.id k) by lia. rewrite !index_of_nth, L2.
        rewrite nth_error_setAt by lia.
        destruct (Nat.eqb_spec (Z.to_nat k) m); [lia|].
        rewrite nth_error_setAt by exact Hn.
        destruct (Nat.eqb_spec (Z.to_nat k) n); [lia|]. reflexivity.
Qed.

Lemma list_ext {A} (l l' : list A) :
  (forall k, nth_error l k = nth_error l' k) -> l = l'.
Proof.
  revert l'. induction l as [|a l IH]; intros [|b l'] H.
  - reflexivity.
  - specialize (H 0%nat). discriminate.
  - specialize (H 0%nat). discriminate.
  - pose proof (H 0%nat) as H0. cbn in H0. injection H0 as ->.
    f_equal. apply IH. intros k. apply (H (S k)).
Qed.

(** X2: with both indices within the slice [Swap] returns, and a second
    [Swap] of the same indices gives the slice back. *)
Theorem Swap_involutive :
  forall (yd : YoloDSlice) (i j : Z),
    0 <= i < Len yd -> 0 <= j < Len yd ->
    exists yd', Swap yd i j = Ok yd' /\ Swap yd' i j = Ok yd.
Proof.
  intros yd i j Hi Hj. unfold Len in *.
  rewrite <- (Z2Nat.id i), <- (Z2Nat.id j) in * by lia.
  set (n := Z.to_nat i) in *. set (m := Z.to_nat j) in *.
  assert (n < List.length yd)%nat as Hn by lia.
  assert (m < List.length yd)%nat as Hm by lia.
  destruct (nth_error yd n) as [a|] eqn:En; [|apply nth_error_None in En; lia].
  destruct (nth_error yd m) as [b|] eqn:Em; [|apply nth_error_None in Em; lia].
  exists (setAt (setAt yd (Z.of_nat n) b) (Z.of_nat m) a).
  assert (List.length (setAt yd (Z.of_nat n) b) = List.length yd) as L1
      by now apply length_setAt.
  assert (forall k, nth_error (setAt (setAt yd (Z.of_nat n) b) (Z.of_nat m) a) k
                    = if Nat.eqb k m then Some a
                      else if Nat.eqb k n then Some b else nth_error yd k) as Hnth.
  { intros k. rewrite nth_error_setAt by lia.
    destruct (Nat.eqb k m); [reflexivity|]. now rewrite nth_error_setAt by exact Hn. }
  split.
  - unfold Swap. rewrite !index_of_nth, Em, En. reflexivity.
  - unfold Swap. rewrite !index_of_nth, !Hnth, !Nat.eqb_refl.
    assert ((if Nat.eqb n m then Some a else Some b) = Some b) as ->.
    { destruct (Nat.eqb_spec n m) as [E|]; [|reflexivity]. subst m. congruence. }
    cbn [bind]. f_equal. apply list_ext. intros k.
    assert (List.length (setAt (setAt yd (Z.of_nat n) b) (Z.of_nat m) a) = List.length yd) as L2
        by (rewrite length_setAt; lia).
    rewrite nth_error_setAt by (rewrite length_setAt; lia).
    destruct (Nat.eqb_spec k m) as [->|Hkm]; [now rewrite Em|].
    rewrite nth_error_setAt by lia.
    destruct (Nat.eqb_spec k n) as [->|Hkn]; [now rewrite En|].
    rewrite Hnth.
    destruct (Nat.eqb_spec k m); [contradiction|].
    destruct (Nat.eqb_spec k n); [contradiction|]. reflexivity.
Qed.

End SliceFacts.

(** X3: [Less] is the strict order that [sort.Interface] asks for: no
    element is less than itself, [Less] is asymmetric and transitive,
    and on candidates with a numeric confidence "not less" is
    transitive as well, so that equal confidences form classes. *)
Theorem Less_strict_weak_order :
  forall a b c : YoloDetection,
    Less a a = false
    /\ (Less a b = true -> Less b a = false)
    /\ (Less a b = true -> Less b c = true -> Less a c = true)
    /\ (numeric a -> numeric b -> numeric c ->
        Less a b = false -> Less b c = false -> Less a c = false)
    /\ (numeric a -> numeric b -> Less a b = true \/ Less b a = true \/
        (Less a b = false /\ Less b a = false /\
         Float.leb (detConf a) (detConf b) = true /\
         Float.leb (detConf b) (detConf a) = true)).
Proof.
  intros a b c. unfold Less, numeric.
  split; [apply FloatFacts.ltb_irrefl|].
  split; [apply FloatFacts.ltb_asym|].
  split; [apply FloatFacts.ltb_trans|].
  split; [apply FloatFacts.not_ltb_trans|].
  intros Ha Hb.
  destruct (Float.ltb (detConf a) (detConf b)) eqn:E1; [now left|].
  destruct (Float.ltb (detConf b) (detConf a)) eqn:E2; [now right; left|].
  right; right. rewrite !FloatFacts.leb_negb_ltb, E1, E2 by assumption. auto.
Qed.

(* ================================================================== *)
(** * Reading the labels *)

Module LabelFacts.
Import Bufio.

Lemma append_assoc (a b c : string) : ((a ++ b) ++ c = a ++ (b ++ c))%string.
Proof. induction a as [|x a IH]; cbn; [reflexivity | now rewrite IH]. Qed.

Lemma append_nil_r (a : string) : (a ++ "")%string = a.
Proof. induction a as [|x a IH]; cbn; [reflexivity | now rewrite IH]. Qed.

Lemma length_append (a b : string) :
  String.length (a ++ b) = (String.length a + String.length b)%nat.
Proof. induction a as [|x a IH]; cbn; [reflexivity | now rewrite IH]. Qed.

Lemma scanLoop_eq data cl :
  scanLoop data cl
  = match Scan data with
    | Some (token, rest) => scanLoop rest (cl ++ [token])
    | None => cl
    end.
Proof.
  funelim (scanLoop data cl).
  - rewrite E. reflexivity.
  - rewrite e. reflexivity.
Qed.

Lemma cutAtNewline_line l rest :
  noLF l -> cutAtNewline (l ++ String LF rest) = Some (l, rest).
Proof.
  induction l as [|c l IH]; cbn; intros H.
  - reflexivity.
  - destruct H as [Hc Hl]. destruct (Ascii.eqb_spec c LF); [contradiction|].
    now rewrite IH.
Qed.

Lemma cutAtNewline_none s : noLF s -> cutAtNewline s = None.
Proof.
  induction s as [|c s IH]; cbn; intros H; [reflexivity|].
  destruct H as [Hc Hs]. destruct (Ascii.eqb_spec c LF); [contradiction|].
  now rewrite IH.
Qed.

Lemma cutAtNewline_Some data line after :
  cutAtNewline data = Some (line, after) ->
  data = (line ++ String LF after)%string /\ noLF line.
Proof.
  revert line. induction data as [|c d IH]; cbn; intros line; [discriminate|].
  destruct (Ascii.eqb_spec c LF) as [->|Hc].
  - intros [= <- <-]. cbn. auto.
  - destruct (cutAtNewline d) as [[l a]|]; [|discriminate].
    intros [= <- <-]. destruct (IH l eq_refl) as [-> Hl]. cbn. auto.
Qed.

Lemma cutAtNewline_None data : cutAtNewline data = None -> noLF data.
Proof.
  induction data as [|c d IH]; cbn; [auto|].
  destruct (Ascii.eqb_spec c LF) as [->|Hc]; [discriminate|].
  destruct (cutAtNewline d) as [[l a]|]; [discriminate|]. auto.
Qed.

Lemma dropCR_snoc l : dropCR (l ++ String CR "") = l.
Proof.
  induction l as [|c l IH]; cbn; [reflexivity|].
  destruct (l ++ String CR "")%string as [|c' s'] eqn:E.
  - destruct l; discriminate.
  - now rewrite IH.
Qed.

Lemma noLF_append a b : noLF (a ++ b) <-> noLF a /\ noLF b.
Proof. induction a as [|c a IH]; cbn; tauto. Qed.

Lemma dropCR_noLF s : noLF s -> noLF (dropCR s).
Proof.
  induction s as [|c s IH]; cbn; [auto|]. intros [Hc Hs].
  destruct s as [|c' s'].
  - destruct (Ascii.eqb c CR); cbn; auto.
  - cbn [noLF]. split; [exact Hc | now apply IH].
Qed.

Lemma dropCR_length s : (String.length (dropCR s) <= String.length s)%nat.
Proof.
  induction s as [|c s IH]; cbn; [lia|].
  destruct s as [|c' s'].
  - destruct (Ascii.eqb c CR); cbn; lia.
  - cbn [String.length] in *. lia.
Qed.

(** One line with its ending is one token. *)
Lemma Scan_line eol l rest :
  eol = newline \/ eol = crlf -> plainLabel l ->
  Scan (l ++ eol ++ rest) = Some (l, rest).
Proof.
  intros Heol (HLF & HCR & Hlen). unfold Scan.
  assert (exists c s, (l ++ eol ++ rest)%string = String c s) as (c & s & E).
  { destruct l as [|c l]; cbn; [|eauto]. destruct Heol as [->| ->]; cbn; eauto. }
  rewrite E, <- E. clear E c s.
  destruct Heol as [->| ->].
  - unfold newline. cbn [append]. rewrite cutAtNewline_line by exact HLF.
    destruct (Z.ltb_spec (Z.of_nat (String.length l)) MaxScanTokenSize); [|lia].
    now rewrite HCR.
  - unfold crlf, newline. cbn [append].
    change (l ++ String CR (String LF rest))%string
      with (l ++ (String CR "" ++ String LF rest))%string.
    rewrite <- append_assoc, cutAtNewline_line.
    + rewrite length_append. cbn [String.length].
      destruct (Z.ltb_spec (Z.of_nat (String.length l + 1)) MaxScanTokenSize); [|lia].
      now rewrite dropCR_snoc.
    + apply noLF_append. split; [exact HLF|]. cbn. split; [discriminate | exact I].
Qed.

Lemma scanLoop_join eol lines rest cl :
  eol = newline \/ eol = crlf -> Forall plainLabel lines ->
  scanLoop (joinLines eol lines ++ rest) cl = scanLoop rest (cl ++ lines).
Proof.
  intros Heol HF. revert cl. induction HF as [|l lines Hl _ IH]; intros cl; cbn [joinLines].
  - cbn. now rewrite app_nil_r.
  - rewrite scanLoop_eq, !append_assoc, (Scan_line eol l _ Heol Hl).
    rewrite IH, <- app_assoc. reflexivity.
Qed.

(** X4: a file of labels, one to a line, is read back as the list of its
    lines: each line ends in a newline, or each in carriage return and
    newline, the last line may go without, and a final line ending adds
    no empty label.  (No label holds a newline or ends in a carriage
    return, and each fits the buffer of the scanner.) *)
Theorem readClassLabels_round_trip :
  forall (os_Open : string -> option string) (filename eol : string)
         (lines : list string) (last : string),
    eol = newline \/ eol = crlf ->
    Forall plainLabel lines ->
    plainLabel last ->
    os_Open filename = Some (joinLines eol lines ++ last)%string ->
    readClassLabels os_Open filename
    = Returns (lines ++ match last with EmptyString => [] | _ => [last] end).
Proof.
  intros os_Open filename eol lines last Heol HF (HLF & HCR & Hlen) Hopen.
  unfold readClassLabels. rewrite Hopen. f_equal.
  rewrite scanLoop_join by assumption. cbn [app].
  rewrite scanLoop_eq. unfold Scan.
  destruct last as [|c s]; [now rewrite app_nil_r|].
  rewrite (cutAtNewline_none _ HLF).
  destruct (Z.ltb_spec (Z.of_nat (String.length (String c s))) MaxScanTokenSize); [|lia].
  rewrite HCR, scanLoop_eq. reflexivity.
Qed.

Lemma Scan_token data token rest :
  Scan data = Some (token, rest) ->
  noLF token /\ Z.of_nat (String.length token) < MaxScanTokenSize.
Proof.
  unfold Scan. destruct data as [|c d]; [discriminate|].
  destruct (cutAtNewline (String c d)) as [[l a]|] eqn:E.
  - destruct (Z.ltb_spec (Z.of_nat (String.length l)) MaxScanTokenSize); [|discriminate].
    intros [= <- <-]. apply cutAtNewline_Some in E. destruct E as [_ Hl].
    split; [now apply dropCR_noLF|]. pose proof (dropCR_length l). lia.
  - destruct (Z.ltb_spec (Z.of_nat (String.length (String c d))) MaxScanTokenSize);
      [|discriminate].
    intros [= <- <-]. apply cutAtNewline_None in E.
    split; [exact (dropCR_noLF (String c d) E)|].
    pose proof (dropCR_length (String c d)) as Hd.
    change (Z.of_nat (String.length (dropCR (String c d))) < MaxScanTokenSize). lia.
Qed.

Lemma scanLoop_Forall (P : string -> Prop) data cl :
  (forall d token rest, Scan d = Some (token, rest) -> P token) ->
  Forall P cl -> Forall P (scanLoop data cl).
Proof.
  intros HP. funelim (scanLoop data cl); intros Hcl.
  - apply H; [exact HP|]. apply Forall_app. split; [exact Hcl|].
    constructor; [|constructor]. eapply HP; eauto.
  - exact Hcl.
Qed.

(** X5: whatever the file holds, no label that is read holds a newline,
    and each is shorter than 64 KiB. *)
Theorem readClassLabels_labels_bounded :
  forall (os_Open : string -> option string) (filename : string) (cl : list string),
    readClassLabels os_Open filename = Returns cl ->
    Forall (fun label => noLF label /\ Z.of_nat (String.length label) < 64 * 1024) cl.
Proof.
  intros os_Open filename cl. unfold readClassLabels.
  destruct (os_Open filename) as [content|]; [|discriminate].
  intros [= <-]. apply scanLoop_Forall; [|constructor].
  intros d token rest. apply Scan_token.
Qed.

(** X6: a line of 64 KiB or more ends the reading without an error:
    the labels before it are returned and everything after them is
    lost. *)
Theorem readClassLabels_long_line_truncates :
  forall (os_Open : string -> option string) (filename eol : string)
         (lines : list string) (long tail : string),
    eol = newline \/ eol = crlf ->
    Forall plainLabel lines ->
    noLF long ->
    64 * 1024 <= Z.of_nat (String.length long) ->
    os_Open filename = Some (joinLines eol lines ++ long ++ tail)%string ->
    readClassLabels os_Open filename = Returns lines.
Proof.
  intros os_Open filename eol lines long tail Heol HF HLF Hlen Hopen.
  unfold readClassLabels. rewrite Hopen. f_equal.
  rewrite scanLoop_join by assumption. cbn [app].
  rewrite scanLoop_eq.
  assert (Scan (long ++ tail) = None) as ->; [|reflexivity].
  unfold Scan. destruct (long ++ tail)%string as [|c s] eqn:E; [reflexivity|].
  rewrite <- E.
  destruct (cutAtNewline (long ++ tail)) as [[l a]|] eqn:EC.
  - apply cutAtNewline_Some in EC. destruct EC as [EC Hl].
    assert (String.length long <= String.length l)%nat as Hle.
    { clear - EC HLF Hl. revert l EC Hl.
      induction long as [|c long IH]; intros l EC Hl; cbn; [lia|].
      destruct l as [|c' l]; cbn in EC.
      - injection EC as -> _. destruct HLF as [HLF _]. contradiction.
      - injection EC as -> EC. destruct HLF as [_ HLF]. destruct Hl as [_ Hl].
        specialize (IH HLF l EC Hl). cbn. lia. }
    destruct (Z.ltb_spec (Z.of_nat (String.length l)) MaxScanTokenSize);
      [unfold MaxScanTokenSize in *; lia | reflexivity].
  - rewrite length_append.
    destruct (Z.ltb_spec (Z.of_nat (String.length long + String.length tail))
                MaxScanTokenSize);
      [unfold MaxScanTokenSize in *; lia | reflexivity].
Qed.

End LabelFacts.

(* ================================================================== *)
(** * Drawing the detections *)

Module DrawFacts.
Import Draw.

Section Facts.

Variable GetTextSize : string -> Z -> Float.float64 -> Z -> Point.

(** X8: the label of a detection sits on top of its box.  For a text
    of non-negative size, all quantities within 61 bits, the dark blue
    background reaches from the left edge of the box to 6 pixels past
    the width of the text, and from the top edge of the box up by the
    height of the text and 6 pixels; the text, drawn 3 pixels in and 6
    pixels up, lies within it. *)
Theorem drawOne_label_geometry :
  forall (img : list op) (d : YoloDetection),
    let size := GetTextSize (detName d) fontFace fontScale fontThickness in
    let bx := X (Min (detBBox d)) in
    let by_ := Y (Min (detBBox d)) in
    Z.abs bx <= 2 ^ 61 -> Z.abs by_ <= 2 ^ 61 ->
    0 <= X size <= 2 ^ 61 -> 0 <= Y size <= 2 ^ 61 ->
    let background :=
      {| Min := Pt bx (by_ - Y size - 6); Max := Pt (bx + X size + 6) by_ |} in
    let org := Pt (bx + 3) (by_ - 6) in
    drawOne GetTextSize img d
    = img ++ [Rectangle background darkblue (-1);
              PutText (detName d) org fontFace fontScale white fontThickness;
              Rectangle (detBBox d) green bboxThickness]
    /\ within (textBox org size) background.
Proof.
  intros img d size bx by_ Hbx Hby Hsx Hsy background org.
  assert (forall z, Z.abs z <= 2 ^ 62 + 2 ^ 61 + 6 -> GoInt.wrap z = z) as Hw.
  { intros z Hz. apply GoIntFacts.wrap_id.
    unfold GoInt.in_range, GoInt.min_int, GoInt.max_int. lia. }
  split.
  - unfold drawOne. fold size bx by_. rewrite <- !app_assoc. cbn [app].
    unfold GoInt.add, GoInt.sub, GoInt.mul, textPadding.
    change (GoInt.wrap (2 * 3)) with 6.
    rewrite (Hw (bx + X size)), (Hw (bx + X size + 6)) by lia.
    rewrite (Hw (by_ - Y size)), (Hw (by_ - Y size - 6)) by lia.
    rewrite (Hw (bx + 3)), (Hw (by_ - 6)) by lia.
    rewrite Rect_min_max.
    repeat f_equal; subst background; cbn; f_equal; f_equal; lia.
  - unfold within, textBox. subst background org. cbn. lia.
Qed.

End Facts.

End DrawFacts.

(* ================================================================== *)
(** * The card detector *)

Module OrbFacts.
Import Orb.

Lemma prefix_iff p s :
  String.prefix p s = true <-> exists rest, s = (p ++ rest)%string.
Proof.
  revert s. induction p as [|a p IH]; intros [|b s]; simpl.
  - split; eauto.
  - split; eauto.
  - split; [discriminate | intros [r [=]]].
  - destruct (ascii_dec a b) as [->|Hab].
    + split.
      * intros H. apply IH in H. destruct H as [r ->]. now exists r.
      * intros [r Hr]. injection Hr as ->. apply IH. now exists r.
    + split; [discriminate | intros [r [= -> _]]; contradiction].
Qed.

Lemma prefixLoop_iff filename prefixes :
  prefixLoop filename prefixes = true <->
  exists pref rest, In pref prefixes /\ filename = (pref ++ rest)%string.
Proof.
  induction prefixes as [|p ps IH]; cbn [prefixLoop].
  - split; [discriminate | intros (? & ? & [] & _)].
  - unfold HasPrefix. destruct (String.prefix p filename) eqn:E.
    + split; [|reflexivity]. intros _. apply prefix_iff in E. destruct E as [r Hr].
      exists p, r. split; [now left | exact Hr].
    + rewrite IH. split.
      * intros (pref & r & Hin & Hr). exists pref, r. split; [now right | exact Hr].
      * intros (pref & r & [<-|Hin] & Hr).
        -- assert (String.prefix p filename = true) by (apply prefix_iff; eauto). congruence.
        -- eauto.
Qed.

(** X9: with [detectAll] every file name is valid; without, exactly the
    names that begin with "Jack", "Queen", "King" or "Ace of Spades",
    in these letters. *)
Theorem isValidName_iff :
  forall (detectAll : bool) (filename : string),
    isValidName detectAll filename = true <->
    detectAll = true \/
    exists rest,
      filename = ("Jack" ++ rest)%string \/ filename = ("Queen" ++ rest)%string \/
      filename = ("King" ++ rest)%string \/ filename = ("Ace of Spades" ++ rest)%string.
Proof.
  intros detectAll filename. unfold isValidName.
  destruct detectAll; [split; auto|].
  rewrite prefixLoop_iff. unfold faceCardPrefixes. split.
  - intros (pref & r & Hin & Hr). right. exists r.
    cbn in Hin. destruct Hin as [<-|[<-|[<-|[<-|[]]]]]; auto.
  - intros [[=]|(r & H)].
    destruct H as [H|[H|[H|H]]]; eexists _, r; (split; [|exact H]); cbn; auto.
Qed.

Lemma countLoop_Ok matches :
  forall num,
    Forall (fun pair : list DMatch => (2 <= List.length pair)%nat) matches ->
    GoInt.min_int <= num ->
    num + Z.of_nat (List.length matches) <= GoInt.max_int ->
    countLoop matches num = Ok (num + Z.of_nat (List.length (filter goodPair matches))).
Proof.
  induction matches as [|pair rest IH]; intros num HF Hlo Hhi; cbn [countLoop filter List.length].
  - now rewrite Z.add_0_r.
  - inversion HF as [|? ? Hp HF']; subst.
    destruct pair as [|m0 [|m1 pair]]; cbn in Hp; try lia.
    cbn [goodPair]. change (index (m0 :: m1 :: pair) 0) with (Ok m0).
    assert (index (m0 :: m1 :: pair) 1 = Ok m1) as ->.
    { apply index_Ok_iff. cbn [List.length]. split; [lia | reflexivity]. }
    cbn [bind].
    cbn [List.length] in Hhi.
    pose proof (filter_length_le goodPair rest) as Hle.
    destruct (Float.ltb (Distance m0) (Float.mul64 distFactor (Distance m1))).
    + unfold GoInt.add. rewrite GoIntFacts.wrap_id
        by (unfold GoInt.in_range; lia).
      rewrite IH by (auto; lia). cbn [List.length]. f_equal. lia.
    + rewrite IH by (auto; lia). reflexivity.
Qed.

Lemma countLoop_short before pair after num :
  Forall (fun pair : list DMatch => (2 <= List.length pair)%nat) before ->
  (List.length pair < 2)%nat ->
  countLoop (before ++ pair :: after) num
  = Panic (IndexOutOfRange (Z.of_nat (List.length pair)) (Z.of_nat (List.length pair))).
Proof.
  intros HF Hp. revert num.
  induction HF as [|q before Hq _ IH]; intros num; cbn [app countLoop].
  - destruct pair as [|m0 [|m1 pair]]; cbn in Hp; try lia; reflexivity.
  - destruct q as [|m0 [|m1 q]]; cbn in Hq; try lia.
    change (index (m0 :: m1 :: q) 0) with (Ok m0).
    assert (index (m0 :: m1 :: q) 1 = Ok m1) as ->.
    { apply index_Ok_iff. cbn [List.length]. split; [lia | reflexivity]. }
    cbn [bind]. apply IH.
Qed.

Section Facts.

Variable CvMat : Type.
Variable Empty : CvMat -> bool.
Variable DetectAndCompute : CvMat -> CvMat.
Variable KnnMatch : CvMat -> CvMat -> Z -> list (list DMatch).
Variable zeroMat : CvMat.

(** X10: [numGoodMatches] counts the pairs that pass the ratio test,
    provided the matcher returned two matches for every descriptor; the
    number lies between 0 and the number of pairs.  The first pair with
    fewer than two matches makes it panic with "index out of range". *)
Theorem numGoodMatches_counts :
  forall descr1 descr2 : CvMat,
    Z.of_nat (List.length (KnnMatch descr1 descr2 2)) <= GoInt.max_int ->
    (Forall (fun pair : list DMatch => (2 <= List.length pair)%nat)
            (KnnMatch descr1 descr2 2) ->
     numGoodMatches CvMat KnnMatch descr1 descr2
     = Ok (Z.of_nat (List.length (filter goodPair (KnnMatch descr1 descr2 2))))
     /\ 0 <= Z.of_nat (List.length (filter goodPair (KnnMatch descr1 descr2 2)))
          <= Z.of_nat (List.length (KnnMatch descr1 descr2 2)))
    /\ (forall before pair after,
           KnnMatch descr1 descr2 2 = before ++ pair :: after ->
           Forall (fun pair : list DMatch => (2 <= List.length pair)%nat) before ->
           (List.length pair < 2)%nat ->
           numGoodMatches CvMat KnnMatch descr1 descr2
           = Panic (IndexOutOfRange (Z.of_nat (List.length pair))
                                    (Z.of_nat (List.length pair)))).
Proof.
  intros d1 d2 Hlen. unfold numGoodMatches. split.
  - intros HF. split.
    + rewrite countLoop_Ok; auto. unfold GoInt.min_int. lia.
    + pose proof (filter_length_le goodPair (KnnMatch d1 d2 2)). lia.
  - intros before pair after -> HF Hp. now apply countLoop_short.
Qed.


(** The loop, started after the patterns [seen]: either no pattern so
    far has more than [thrMatches] matches, or the best one is the
    first of those with the largest number. *)
Lemma matchLoop_spec descr1 (cnt : ORBPattern CvMat -> Z) pats :
  forall seen numMatches bestID,
    (forall p, In p pats -> Orb.numGoodMatches CvMat KnnMatch descr1 (descr CvMat p) = Ok (cnt p)) ->
    ((bestID = -1 /\ numMatches = 0 /\ forall p, In p seen -> cnt p <= thrMatches)
     \/ (thrMatches < numMatches /\
         exists before best after,
           seen = before ++ best :: after /\ bestID = Z.of_nat (List.length before) /\
           cnt best = numMatches /\
           (forall p, In p before -> cnt p < numMatches) /\
           (forall p, In p after -> cnt p <= numMatches))) ->
    exists numMatches' bestID',
      Orb.matchLoop CvMat KnnMatch descr1 pats (Z.of_nat (List.length seen)) numMatches bestID
      = Ok (numMatches', bestID') /\
      ((bestID' = -1 /\ numMatches' = 0 /\
        forall p, In p (seen ++ pats) -> cnt p <= thrMatches)
       \/ (thrMatches < numMatches' /\
           exists before best after,
             seen ++ pats = before ++ best :: after /\
             bestID' = Z.of_nat (List.length before) /\
             cnt best = numMatches' /\
             (forall p, In p before -> cnt p < numMatches') /\
             (forall p, In p after -> cnt p <= numMatches'))).
Proof.
  induction pats as [|pat pats IH]; intros seen num bid Hcnt Hinv.
  - cbn [Orb.matchLoop]. exists num, bid. split; [reflexivity|].
    rewrite app_nil_r. exact Hinv.
  - cbn [Orb.matchLoop]. rewrite (Hcnt pat (or_introl eq_refl)). cbn [bind].
    assert (Z.of_nat (List.length seen) + 1 = Z.of_nat (List.length (seen ++ [pat]))) as EL
        by (rewrite length_app; cbn; lia).
    assert (seen ++ pat :: pats = (seen ++ [pat]) ++ pats) as EA
        by (now rewrite <- app_assoc).
    assert (forall p, In p pats -> Orb.numGoodMatches CvMat KnnMatch descr1 (descr CvMat p) = Ok (cnt p))
      as Hcnt' by (intros p Hp; apply Hcnt; now right).
    rewrite EL, EA.
    destruct (Z.gtb_spec (cnt pat) num) as [Hgt|Hle];
      destruct (Z.gtb_spec (cnt pat) thrMatches) as [Hthr|Hthr]; cbn [andb];
      apply IH; auto.
    + right. split; [exact Hthr|]. exists seen, pat, []. repeat split; auto.
      * intros p Hp. destruct Hinv as [(_ & -> & Hall)|(Hn & b & best & a & -> & _ & Hb & Hbef & Haft)].
        -- specialize (Hall p Hp). lia.
        -- apply in_app_or in Hp. destruct Hp as [Hp|[<-|Hp]].
           ++ specialize (Hbef p Hp). lia.
           ++ lia.
           ++ specialize (Haft p Hp). lia.
      * intros p [].
    + destruct Hinv as [(-> & -> & Hall)|(Hn & _)]; [|lia].
      left. repeat split; auto. intros p Hp. apply in_app_or in Hp.
      destruct Hp as [Hp|[<-|[]]]; auto.
    + destruct Hinv as [(-> & -> & Hall)|(Hn & b & best & a & -> & -> & Hb & Hbef & Haft)].
      * unfold thrMatches in *. lia.
      * right. split; [exact Hn|]. exists b, best, (a ++ [pat]).
        rewrite <- app_assoc. repeat split; auto.
        intros p Hp. apply in_app_or in Hp. destruct Hp as [Hp|[<-|[]]]; auto.
    + destruct Hinv as [(-> & -> & Hall)|(Hn & b & best & a & -> & -> & Hb & Hbef & Haft)].
      * left. repeat split; auto. intros p Hp. apply in_app_or in Hp.
        destruct Hp as [Hp|[<-|[]]]; auto.
      * right. split; [exact Hn|]. exists b, best, (a ++ [pat]).
        rewrite <- app_assoc. repeat split; auto.
        intros p Hp. apply in_app_or in Hp. destruct Hp as [Hp|[<-|[]]]; auto.
Qed.

(** X11: on an image that is not empty, with every pattern's number of
    good matches at hand, [Match] returns either 0 and the zero pattern,
    when no pattern has more than [thrMatches] = 15 matches, or the
    first of the patterns with the largest number of matches, and that
    number, above 15. *)
Theorem Match_first_best :
  forall (pats : list (ORBPattern CvMat)) (image : CvMat) (cnt : ORBPattern CvMat -> Z),
    Empty image = false ->
    (forall p, In p pats ->
               Orb.numGoodMatches CvMat KnnMatch (DetectAndCompute image) (descr CvMat p)
               = Ok (cnt p)) ->
    exists best n,
      Orb.Match CvMat Empty DetectAndCompute KnnMatch zeroMat pats image = Ok (best, n)
      /\ ((n = 0 /\ best = Orb.noPattern CvMat zeroMat /\
           forall p, In p pats -> cnt p <= thrMatches)
          \/ (thrMatches < n /\
              exists before after,
                pats = before ++ best :: after /\
                cnt best = n /\
                (forall p, In p before -> cnt p < n) /\
                (forall p, In p after -> cnt p <= n))).
Proof.
  intros pats image cnt HE Hcnt. unfold Orb.Match. rewrite HE.
  destruct (matchLoop_spec (DetectAndCompute image) cnt pats [] 0 (-1) Hcnt)
    as (n & bid & Hloop & Hres).
  { left. repeat split. intros p []. }
  change (Z.of_nat (List.length (@nil (ORBPattern CvMat)))) with 0 in Hloop.
  rewrite Hloop. cbn [bind app] in *.
  destruct Hres as [(-> & -> & Hall)|(Hn & b & best & a & Hpats & -> & Hb & Hbef & Haft)].
  - exists (Orb.noPattern CvMat zeroMat), 0. split; [reflexivity|]. left. auto.
  - exists best, n.
    destruct (Z.geb_spec (Z.of_nat (List.length b)) 0) as [_|]; [|lia].
    rewrite SliceFacts.index_of_nth, Hpats.
    rewrite nth_error_app2, Nat.sub_diag by lia. cbn [nth_error bind].
    split; [reflexivity|]. right. split; [exact Hn|]. exists b, a. auto.
Qed.

Lemma matchLoop_counts descr1 pats :
  forall i numMatches bestID r,
    Orb.matchLoop CvMat KnnMatch descr1 pats i numMatches bestID = Ok r ->
    forall p, In p pats -> exists n, Orb.numGoodMatches CvMat KnnMatch descr1 (descr CvMat p) = Ok n.
Proof.
  induction pats as [|pat pats IH]; intros i num bid r H p Hp; [destruct Hp|].
  cbn [Orb.matchLoop] in H.
  destruct (Orb.numGoodMatches CvMat KnnMatch descr1 (descr CvMat pat)) as [n|] eqn:E; cbn [bind] in H;
    [|discriminate].
  destruct Hp as [<-|Hp]; [eauto|].
  destruct ((n >? num) && (n >? thrMatches)); eapply IH; eauto.
Qed.

(** X12: [Match] never reports between 1 and 15 matches.  When it
    returns 0 the pattern is the zero pattern; when it returns more,
    the pattern is one of the detector's and the number is that
    pattern's own number of good matches. *)
Theorem Match_above_threshold :
  forall (pats : list (ORBPattern CvMat)) (image : CvMat)
         (best : ORBPattern CvMat) (n : Z),
    Orb.Match CvMat Empty DetectAndCompute KnnMatch zeroMat pats image = Ok (best, n) ->
    (n = 0 /\ best = Orb.noPattern CvMat zeroMat)
    \/ (thrMatches < n /\ In best pats /\
        Orb.numGoodMatches CvMat KnnMatch (DetectAndCompute image) (descr CvMat best)
        = Ok n).
Proof.
  intros pats image best n H. unfold Orb.Match in H.
  destruct (Empty image) eqn:HE; [injection H as <- <-; now left|].
  set (d1 := DetectAndCompute image) in *.
  destruct (Orb.matchLoop CvMat KnnMatch d1 pats 0 0 (-1)) as [[n' bid]|] eqn:EL;
    cbn [bind] in H; [|discriminate].
  set (cnt := fun p => match Orb.numGoodMatches CvMat KnnMatch d1 (descr CvMat p) with
                       | Ok k => k
                       | Panic _ => 0
                       end).
  assert (forall p, In p pats ->
                    Orb.numGoodMatches CvMat KnnMatch d1 (descr CvMat p) = Ok (cnt p))
    as Hcnt.
  { intros p Hp. destruct (matchLoop_counts d1 pats _ _ _ _ EL p Hp) as [k Hk].
    unfold cnt. now rewrite Hk. }
  destruct (matchLoop_spec d1 cnt pats [] 0 (-1) Hcnt) as (n2 & bid2 & Hloop & Hres).
  { left. repeat split. intros p []. }
  change (Z.of_nat (List.length (@nil (ORBPattern CvMat)))) with 0 in Hloop.
  rewrite EL in Hloop. injection Hloop as <- <-. cbn [app] in Hres.
  destruct Hres as [(-> & -> & _)|(Hn & b & best' & a & Hpats & -> & Hb & _)].
  - cbn in H. injection H as <- <-. now left.
  - destruct (Z.geb_spec (Z.of_nat (List.length b)) 0) as [_|]; [|lia].
    rewrite SliceFacts.index_of_nth, Hpats in H.
    rewrite nth_error_app2, Nat.sub_diag in H by lia. cbn [nth_error bind] in H.
    injection H as <- <-. right. split; [exact Hn|].
    split; [rewrite Hpats; apply in_elt|].
    rewrite <- Hb. apply Hcnt. rewrite Hpats. apply in_elt.
Qed.

End Facts.

(** The state after some frames is that of the last frame in which a
    pattern was found. *)
Lemma showLoop_state frames :
  forall c t,
    snd (showLoop frames c t)
    = match lastFound frames with
      | Some g => (patName g, now g)
      | None => (c, t)
      end.
Proof.
  induction frames as [|f rest IH]; intros c t; cbn [showLoop lastFound]; [reflexivity|].
  unfold showStep.
  destruct (nMatches f >? 0) eqn:E.
  - specialize (IH (patName f) (now f)).
    destruct (showLoop rest (patName f) (now f)) as [shown st]. cbn [snd] in *.
    rewrite IH. now destruct (lastFound rest).
  - assert (forall label,
               snd (let '(shown, st) := showLoop rest c t in (label :: shown, st))
               = match lastFound rest with
                 | Some g => (patName g, now g)
                 | None => (c, t)
                 end) as Hs.
    { intros label. specialize (IH c t).
      destruct (showLoop rest c t) as [shown st]. exact IH. }
    destruct (Sub (now f) t <? detectInterval); rewrite Hs; now destruct (lastFound rest).
Qed.

Lemma showLoop_app h r :
  forall c t,
    showLoop (h ++ r) c t
    = (fst (showLoop h c t)
         ++ fst (showLoop r (fst (snd (showLoop h c t))) (snd (snd (showLoop h c t)))),
       snd (showLoop r (fst (snd (showLoop h c t))) (snd (snd (showLoop h c t))))).
Proof.
  induction h as [|f h IH]; intros c t; cbn [app showLoop].
  - cbn. now destruct (showLoop r c t).
  - destruct (showStep (patName f) (nMatches f) (now f) c t) as [label [c1 t1]].
    rewrite IH. destruct (showLoop h c1 t1) as [shown [c2 t2]]. cbn [fst snd].
    reflexivity.
Qed.

(** X13: what the loop of [main] shows for a frame, after any frames
    before it, from the start (no class, any time): the name of the
    frame's pattern if one was found in it; otherwise the name found
    last, as long as less than 500 ms have passed since that frame, and
    nothing after that, or when nothing was found yet. *)
Theorem showLoop_shows :
  forall (history : list frame) (f : frame) (t0 : Z),
    fst (showLoop (history ++ [f]) EmptyString t0)
    = fst (showLoop history EmptyString t0)
      ++ [if nMatches f >? 0 then patName f
          else match lastFound history with
               | Some g =>
                   if Sub (now f) (now g) <? 500 * 1000000 then patName g
                   else EmptyString
               | None => EmptyString
               end].
Proof.
  intros history f t0. rewrite showLoop_app. cbn [fst]. f_equal.
  pose proof (showLoop_state history EmptyString t0) as Hst.
  destruct (snd (showLoop history EmptyString t0)) as [c t]. cbn [fst snd].
  cbn [showLoop]. unfold showStep.
  destruct (nMatches f >? 0); [reflexivity|].
  destruct (lastFound history) as [g|]; injection Hst as -> ->.
  - change detectInterval with (500 * 1000000).
    destruct (Sub (now f) (now g) <? 500 * 1000000); reflexivity.
  - destruct (Sub (now f) t0 <? detectInterval); reflexivity.
Qed.

End OrbFacts.

(* ================================================================== *)
(** * From the label file to the names of the detections *)

Lemma subseq_In {A} (k l : list A) x : subseq k l -> In x k -> In x l.
Proof.
  induction 1 as [|y k l _ IH|y k l _ IH]; cbn; intros H; auto.
  destruct H as [->|H]; auto.
Qed.

(** X14: with the labels read from a file of one label to the line,
    every detection that [extractPredictions] returns carries as its
    name the line of the file at its class index, counted from 0. *)
Theorem detection_names_are_file_lines :
  forall (sort_Sort : YoloDSlice -> YoloDSlice)
         (os_Open : string -> option string) (filename eol : string)
         (lines classLabels : list string)
         (detLayers : list Mat) (imgSize : list Z) (yd : YoloDSlice),
    (forall l, Permutation l (sort_Sort l)) ->
    eol = newline \/ eol = crlf ->
    Forall plainLabel lines ->
    os_Open filename = Some (joinLines eol lines) ->
    readClassLabels os_Open filename = Returns classLabels ->
    extractPredictions sort_Sort detLayers imgSize classLabels = Ok yd ->
    Forall (fun d => nth_error lines (Z.to_nat (detClass d)) = Some (detName d)
                     /\ 0 <= detClass d < Z.of_nat (List.length lines)) yd.
Proof.
  intros sort_Sort os_Open filename eol lines labels layers imgSize yd
         Hperm Heol HF Hopen Hread Hex.
  assert (labels = lines) as ->.
  { unfold readClassLabels in Hread. rewrite Hopen in Hread. injection Hread as <-.
    rewrite <- (LabelFacts.append_nil_r (joinLines eol lines)).
    rewrite LabelFacts.scanLoop_join by assumption. cbn [app].
    rewrite LabelFacts.scanLoop_eq. reflexivity. }
  unfold extractPredictions in Hex.
  destruct (index imgSize 1) as [fw|]; cbn [bind] in Hex; [|discriminate].
  destruct (index imgSize 0) as [fh|]; cbn [bind] in Hex; [|discriminate].
  destruct (decode layers fw fh lines) as [c|] eqn:Hdec; cbn [bind] in Hex; [|discriminate].
  injection Hex as <-. apply Forall_forall. intros d Hd.
  assert (In d c) as Hc.
  { apply (Permutation_in d (Permutation_sym (Hperm c))).
    eapply subseq_In; [apply suppress_subseq | exact Hd]. }
  apply (decode_In _ _ _ _ _ _ Hdec) in Hc. destruct Hc as (prob & row & _ & _ & Hrow).
  apply decodeRow_Some in Hrow. destruct Hrow as (s & _ & _ & Hi & Hcl & _).
  apply index_Ok_iff in Hi. rewrite Hcl. tauto.
Qed.

(* ================================================================== *)
(** * Loading the patterns *)

Module PatternFacts.
Import Orb Patterns.

Lemma beforeDot_split filename :
  noDot (beforeDot filename)
  /\ (filename = beforeDot filename
      \/ exists ext, filename = (beforeDot filename ++ String dot ext)%string).
Proof.
  induction filename as [|c s [IH1 IH2]]; cbn [beforeDot].
  - cbn. auto.
  - destruct (Ascii.eqb_spec c dot) as [->|Hc].
    + cbn. split; [exact I|]. right. now exists s.
    + cbn [noDot]. split; [auto|]. destruct IH2 as [IH2|[ext IH2]].
      * left. now rewrite <- IH2.
      * right. exists ext. cbn. now rewrite <- IH2.
Qed.

Section Facts.

Variable CvMat : Type.
Variable Empty : CvMat -> bool.
Variable DetectAndCompute : CvMat -> CvMat.
Variable IMRead : string -> CvMat.

Lemma loadLoop_spec detectAll items :
  forall pats,
    loadLoop CvMat Empty DetectAndCompute IMRead detectAll items pats
    = pats ++ map (fun filename =>
                     {| name := beforeDot filename;
                        img := IMRead (imgDir ++ "/" ++ filename);
                        descr := DetectAndCompute (IMRead (imgDir ++ "/" ++ filename)) |})
                  (filter (fun filename =>
                             isValidName detectAll filename
                             && negb (Empty (IMRead (imgDir ++ "/" ++ filename))))
                          items).
Proof.
  induction items as [|f items IH]; intros pats; cbn [loadLoop filter map].
  - now rewrite app_nil_r.
  - destruct (isValidName detectAll f); cbn [negb andb]; [|apply IH].
    destruct (Empty (IMRead (imgDir ++ "/" ++ f))); cbn [negb]; [apply IH|].
    rewrite IH, <- app_assoc. reflexivity.
Qed.

(** X15: every pattern that [NewORBPatternDetector] loads comes from an
    entry of the directory with a valid name whose image is not empty:
    its name is that file name up to the first dot, and holds no dot;
    its descriptors are those of its image.  There are no more
    patterns than entries, and none when [runtime.Caller] fails. *)
Theorem NewORBPatternDetector_patterns :
  forall (callerOk detectAll : bool) (items : list string),
    let pats := NewORBPatternDetector CvMat Empty DetectAndCompute IMRead
                  callerOk detectAll items in
    (callerOk = false -> pats = [])
    /\ (List.length pats <= List.length items)%nat
    /\ Forall (fun p =>
                 noDot (name CvMat p)
                 /\ Empty (img CvMat p) = false
                 /\ descr CvMat p = DetectAndCompute (img CvMat p)
                 /\ exists filename,
                     In filename items
                     /\ isValidName detectAll filename = true
                     /\ img CvMat p = IMRead (imgDir ++ "/" ++ filename)
                     /\ (filename = name CvMat p
                         \/ exists ext,
                             filename = (name CvMat p ++ String dot ext)%string)) pats.
Proof.
  intros callerOk detectAll items. cbv zeta. unfold NewORBPatternDetector.
  destruct callerOk; cbn [negb].
  - rewrite loadLoop_spec. cbn [app]. split; [discriminate|]. split.
    + rewrite length_map. apply filter_length_le.
    + apply Forall_forall. intros p Hp. apply in_map_iff in Hp.
      destruct Hp as (f & <- & Hf). apply filter_In in Hf. destruct Hf as [Hin Hf].
      apply andb_true_iff in Hf. destruct Hf as [Hv He]. apply negb_true_iff in He.
      cbn [name img descr]. destruct (beforeDot_split f) as [Hnd Hsplit].
      repeat split; auto. exists f. auto.
  - split; [reflexivity|]. split; [cbn; lia | constructor].
Qed.

End Facts.

End PatternFacts.

(* ================================================================== *)
(** * Editing the video *)

Module VideoFacts.
Import Video.

Section Facts.

Variable Image : Type.
Variable noImage : Image.
Variable AddWeighted :
  Image -> Float.float64 -> Image -> Float.float64 -> Float.float64 -> option Image.

Lemma repeatLoop_spec count :
  forall st img,
    written Image (repeatLoop Image count st img)
    = written Image st ++ repeat (contents Image st img) count
    /\ contents Image (repeatLoop Image count st img) = contents Image st
    /\ fresh Image (repeatLoop Image count st img) = fresh Image st
    /\ opened Image (repeatLoop Image count st img) = opened Image st
    /\ unread Image (repeatLoop Image count st img) = unread Image st
    /\ lastFrame Image (repeatLoop Image count st img)
       = match count with O => lastFrame Image st | S _ => Some img end.
Proof.
  induction count as [|count IH]; intros st img; cbn [repeatLoop repeat].
  - rewrite app_nil_r. repeat split; reflexivity.
  - destruct (IH (Write Image (setLastFrame Image st img) img) img)
      as (Hw & Hc & Hf & Ho & Hu & Hl).
    rewrite Hw, Hc, Hf, Ho, Hu, Hl. cbn. rewrite <- app_assoc.
    repeat split; auto. now destruct count.
Qed.

(** X16: [RepeatFrame] on a writer that is not opened returns the error
    and writes nothing.  On an opened writer it writes the image
    [int(delay*30) + 1] times (not at all when that number is
    negative), changes no matrix, reads no frame and returns no error;
    having written, it leaves [vwm.lastFrame] pointing at the image it
    was given. *)
Theorem RepeatFrame_writes :
  forall (st : state Image) (img : nat) (delay : Float.float64),
    (opened Image st = false ->
     RepeatFrame Image st img delay = (st, Some CannotWrite))
    /\ (opened Image st = true ->
        exists st',
          RepeatFrame Image st img delay = (st', None)
          /\ written Image st'
             = written Image st
               ++ repeat (contents Image st img) (Z.to_nat (nFramesOf delay + 1))
          /\ contents Image st' = contents Image st
          /\ unread Image st' = unread Image st
          /\ (0 <= nFramesOf delay -> lastFrame Image st' = Some img)
          /\ (nFramesOf delay < 0 -> lastFrame Image st' = lastFrame Image st)).
Proof.
  intros st img delay. unfold RepeatFrame. split; intros Ho; rewrite Ho; cbn [negb].
  - reflexivity.
  - eexists. split; [reflexivity|].
    destruct (repeatLoop_spec (Z.to_nat (nFramesOf delay + 1)) st img)
      as (Hw & Hc & _ & _ & Hu & Hl).
    repeat split; auto; intros Hn; rewrite Hl.
    + destruct (Z.to_nat (nFramesOf delay + 1)) eqn:E; [lia | reflexivity].
    + replace (Z.to_nat (nFramesOf delay + 1)) with 0%nat by lia. reflexivity.
Qed.

Lemma fadeLoop_spec count :
  forall i nFrames st img1 img2 img3,
    img1 <> img3 -> img2 <> img3 ->
    match fadeFrames Image AddWeighted count i nFrames
            (contents Image st img1) (contents Image st img2) with
    | Some frames =>
        exists st',
          fadeLoop Image AddWeighted count i nFrames st img1 img2 img3 = Done st'
          /\ written Image st' = written Image st ++ frames
          /\ (forall m, m <> img3 -> contents Image st' m = contents Image st m)
          /\ fresh Image st' = fresh Image st
          /\ unread Image st' = unread Image st
          /\ lastFrame Image st'
             = match count with O => lastFrame Image st | S _ => Some img3 end
    | None => fadeLoop Image AddWeighted count i nFrames st img1 img2 img3 = CvError
    end.
Proof.
  induction count as [|count IH]; intros i n st img1 img2 img3 H1 H2;
    cbn [fadeFrames fadeLoop].
  - exists st. rewrite app_nil_r. repeat split; reflexivity.
  - destruct (weights i n) as [alpha beta]. cbn [fst snd].
    destruct (AddWeighted (contents Image st img1) alpha (contents Image st img2) beta one)
      as [x|]; [|reflexivity].
    set (st1 := Write Image (setLastFrame Image (setContent Image st img3 x) img3) img3).
    assert (contents Image st1 img1 = contents Image st img1) as E1.
    { cbn. destruct (Nat.eqb_spec img1 img3); [contradiction | reflexivity]. }
    assert (contents Image st1 img2 = contents Image st img2) as E2.
    { cbn. destruct (Nat.eqb_spec img2 img3); [contradiction | reflexivity]. }
    specialize (IH (i + 1) n st1 img1 img2 img3 H1 H2). rewrite E1, E2 in IH.
    destruct (fadeFrames Image AddWeighted count (i + 1) n
                (contents Image st img1) (contents Image st img2)) as [rest|];
      [|exact IH].
    destruct IH as (st' & Hl & Hw & Hc & Hf & Hu & Hlast).
    exists st'. split; [exact Hl|]. rewrite Hw, Hf, Hu, Hlast.
    subst st1. cbn. rewrite Nat.eqb_refl, <- app_assoc.
    repeat split; auto.
    + intros m Hm. rewrite (Hc m Hm). cbn.
      destruct (Nat.eqb_spec m img3); [contradiction | reflexivity].
    + now destruct count.
Qed.

Lemma fadeFrames_nth count :
  forall i nFrames a b frames,
    fadeFrames Image AddWeighted count i nFrames a b = Some frames ->
    List.length frames = count
    /\ forall k, (k < count)%nat ->
         AddWeighted a (fst (weights (i + Z.of_nat k) nFrames)) b
                     (snd (weights (i + Z.of_nat k) nFrames)) one
         = nth_error frames k.
Proof.
  induction count as [|count IH]; intros i n a b frames; cbn [fadeFrames].
  - intros [= <-]. split; [reflexivity|]. intros k Hk. lia.
  - destruct (AddWeighted a (fst (weights i n)) b (snd (weights i n)) one) as [x|] eqn:E;
      [|discriminate].
    destruct (fadeFrames Image AddWeighted count (i + 1) n a b) as [rest|] eqn:ER;
      [|discriminate].
    intros [= <-]. destruct (IH _ _ _ _ _ ER) as [Hlen Hnth].
    split; [cbn; now rewrite Hlen|].
    intros [|k] Hk; cbn [nth_error].
    + now rewrite Z.add_0_r.
    + replace (i + Z.of_nat (S k)) with (i + 1 + Z.of_nat k) by lia.
      apply Hnth. lia.
Qed.

(** X17: [FadeImageInto] refuses a delay that is zero or negative and
    a writer that is not opened, with the error of each case and
    nothing written.  A fade that returns without error has written
    [int(delay*30) + 1] frames, frame k being the blend of the two
    images with the weights of turn k; the frame before the last one
    has the weights 0 and 1.  The matrices that existed are unchanged,
    and [vwm.lastFrame] points at a new matrix. *)
Theorem FadeImageInto_frames :
  forall (st : state Image) (img1 img2 : nat) (delay : Float.float64),
    (Float.leb delay zero = true ->
     FadeImageInto Image noImage AddWeighted st img1 img2 delay
     = Done (st, Some (NoTransition delay)))
    /\ (Float.leb delay zero = false -> opened Image st = false ->
        FadeImageInto Image noImage AddWeighted st img1 img2 delay
        = Done (st, Some CannotWrite))
    /\ (forall st' err,
           (img1 < fresh Image st)%nat -> (img2 < fresh Image st)%nat ->
           FadeImageInto Image noImage AddWeighted st img1 img2 delay = Done (st', err) ->
           err = None ->
           let nFrames := nFramesOf delay in
           exists frames,
             written Image st' = written Image st ++ frames
             /\ List.length frames = Z.to_nat (nFrames + 1)
             /\ (forall k, (k < Z.to_nat (nFrames + 1))%nat ->
                   nth_error frames k
                   = AddWeighted (contents Image st img1)
                                 (fst (weights (Z.of_nat k) nFrames))
                                 (contents Image st img2)
                                 (snd (weights (Z.of_nat k) nFrames)) one)
             /\ (1 <= nFrames ->
                 nth_error frames (Z.to_nat (nFrames - 1))
                 = AddWeighted (contents Image st img1) zero
                               (contents Image st img2) one one)
             /\ (forall m, (m < fresh Image st)%nat ->
                           contents Image st' m = contents Image st m)
             /\ (0 <= nFrames -> lastFrame Image st' = Some (fresh Image st))
             /\ unread Image st' = unread Image st).
Proof.
  intros st img1 img2 delay. unfold FadeImageInto.
  split; [intros ->; reflexivity|]. split; [intros -> ->; reflexivity|].
  intros st' err H1 H2 H Herr. subst err.
  destruct (Float.leb delay zero); [discriminate|].
  destruct (opened Image st); cbn [negb] in H; [|discriminate].
  cbn [NewMat] in H. set (nFrames := nFramesOf delay) in *.
  set (st0 := snd (NewMat Image noImage st)).
  assert (contents Image st0 img1 = contents Image st img1) as E1.
  { cbn. destruct (Nat.eqb_spec img1 (fresh Image st)); [lia | reflexivity]. }
  assert (contents Image st0 img2 = contents Image st img2) as E2.
  { cbn. destruct (Nat.eqb_spec img2 (fresh Image st)); [lia | reflexivity]. }
  pose proof (fadeLoop_spec (Z.to_nat (nFrames + 1)) 0 nFrames st0 img1 img2
                (fresh Image st) ltac:(lia) ltac:(lia)) as Hspec.
  assert (fresh Image st0 = S (fresh Image st)) as EF0 by reflexivity.
  assert (written Image st0 = written Image st) as EW0 by reflexivity.
  assert (unread Image st0 = unread Image st) as EU0 by reflexivity.
  assert (forall m, (m < fresh Image st)%nat ->
                    contents Image st0 m = contents Image st m) as EC0.
  { intros m Hm. cbn. destruct (Nat.eqb_spec m (fresh Image st)); [lia | reflexivity]. }
  change (match fadeLoop Image AddWeighted (Z.to_nat (nFrames + 1)) 0 nFrames st0
                  img1 img2 (fresh Image st) with
          | Done st1 => Done (st1, None)
          | NilDereference => NilDereference
          | CvError => CvError
          end = Done (st', @None error)) in H.
  clearbody st0.
  rewrite E1, E2 in Hspec.
  destruct (fadeFrames Image AddWeighted (Z.to_nat (nFrames + 1)) 0 nFrames
              (contents Image st img1) (contents Image st img2)) as [frames|] eqn:EF.
  - destruct Hspec as (st1 & Hl & Hw & Hc & Hf & Hu & Hlast).
    rewrite Hl in H. injection H as <-.
    destruct (fadeFrames_nth _ _ _ _ _ _ EF) as [Hlen Hnth].
    exists frames. split; [now rewrite Hw, EW0|]. split; [exact Hlen|].
    split; [intros k Hk; now rewrite <- (Hnth k Hk)|]. split; [|split; [|split]].
    + intros Hn. rewrite <- (Hnth (Z.to_nat (nFrames - 1))) by lia.
      cbn [Z.add]. rewrite Z2Nat.id by lia.
      unfold weights at 1 2. unfold GoInt.sub.
      assert (GoInt.wrap (nFrames - 1) = nFrames - 1) as ->.
      { apply GoIntFacts.wrap_id.
        pose proof (GoIntFacts.wrap_in_range 0).
        unfold GoInt.in_range, GoInt.min_int, GoInt.max_int in *.
        assert (nFrames <= 2 ^ 63 - 1); [|lia].
        subst nFrames. unfold nFramesOf, Float.int_of_float.
        destruct (Float.trunc _) as [t|]; [|unfold GoInt.min_int; lia].
        destruct (Z.leb_spec GoInt.min_int t), (Z.leb_spec t GoInt.max_int);
          cbn [andb]; unfold GoInt.min_int, GoInt.max_int in *; lia. }
      now rewrite Z.eqb_refl.
    + intros m Hm. rewrite Hc by lia. now apply EC0.
    + intros Hn. rewrite Hlast.
      destruct (Z.to_nat (nFrames + 1)) eqn:E; [lia | reflexivity].
    + now rewrite Hu.
  - rewrite Hspec in H. discriminate.
Qed.

Lemma Read_spec (st : state Image) m :
  (forall k, contents Image (Read Image noImage st m) k
             = if Nat.eqb k m then hd noImage (unread Image st) else contents Image st k)
  /\ unread Image (Read Image noImage st m) = tl (unread Image st)
  /\ written Image (Read Image noImage st m) = written Image st
  /\ lastFrame Image (Read Image noImage st m) = lastFrame Image st
  /\ fresh Image (Read Image noImage st m) = fresh Image st.
Proof.
  unfold Read. destruct (unread Image st) eqn:E; cbn; rewrite ?E; repeat split; auto.
Qed.

Lemma copyLoop_spec count :
  forall st extraFrame img last,
    lastFrame Image st = Some last ->
    last <> extraFrame -> img <> extraFrame ->
    match copyFrames Image noImage AddWeighted count (previousOf Image st last img)
            (unread Image st) with
    | Some frames =>
        exists st',
          copyLoop Image noImage AddWeighted count st extraFrame img = Done st'
          /\ written Image st' = written Image st ++ frames
          /\ unread Image st' = skipn count (unread Image st)
          /\ (forall m, m <> extraFrame -> m <> img ->
                        contents Image st' m = contents Image st m)
          /\ fresh Image st' = fresh Image st
          /\ lastFrame Image st'
             = match count with O => Some last | S _ => Some img end
    | None => copyLoop Image noImage AddWeighted count st extraFrame img = CvError
    end.
Proof.
  induction count as [|count IH]; intros st e img last Hlast Hle Hie;
    cbn [copyFrames copyLoop].
  - exists st. rewrite app_nil_r. repeat split; auto.
  - destruct (Read_spec st img) as (Rc & Ru & Rw & Rl & Rf).
    set (st1 := Read Image noImage st img) in *.
    rewrite Rl, Hlast.
    set (f := hd noImage (unread Image st)).
    assert (contents Image st1 img = f) as Ei by (rewrite Rc, Nat.eqb_refl; reflexivity).
    assert (contents Image st1 last
            = match previousOf Image st last img with Some l => l | None => f end) as El.
    { rewrite Rc. unfold previousOf. now destruct (Nat.eqb last img). }
    rewrite Ei, El.
    set (p := match previousOf Image st last img with Some l => l | None => f end).
    destruct (AddWeighted p w07 f w03 one) as [x|]; [|reflexivity].
    cbn [lastFrame Write setContent]. rewrite Rl, Hlast.
    cbn [contents Write setContent].
    destruct (Nat.eqb_spec last e) as [|_]; [contradiction|].
    destruct (Nat.eqb_spec img e) as [|_]; [contradiction|].
    rewrite Ei, El. fold p.
    destruct (AddWeighted p w03 f w07 one) as [y|]; [|reflexivity].
    match goal with
    | |- context [copyLoop Image noImage AddWeighted count ?s e img] => set (st4 := s)
    end.
    assert (lastFrame Image st4 = Some img) as L4 by reflexivity.
    assert (unread Image st4 = tl (unread Image st)) as U4 by (cbn; exact Ru).
    assert (written Image st4 = written Image st ++ [x; y; f]) as W4.
    { cbn. rewrite Rw, Nat.eqb_refl.
      destruct (Nat.eqb_spec img e) as [|_]; [contradiction|].
      rewrite Rc, Nat.eqb_refl, <- !app_assoc. reflexivity. }
    assert (forall m, m <> e -> m <> img -> contents Image st4 m = contents Image st m) as C4.
    { intros m Hme Hmi. cbn. destruct (Nat.eqb_spec m e); [contradiction|].
      rewrite Rc. destruct (Nat.eqb_spec m img); [contradiction | reflexivity]. }
    assert (fresh Image st4 = fresh Image st) as F4 by (cbn; exact Rf).
    specialize (IH st4 e img img L4 Hie Hie).
    assert (previousOf Image st4 img img = None) as EP
        by (unfold previousOf; now rewrite Nat.eqb_refl).
    rewrite EP, U4 in IH. clearbody st4.
    destruct (copyFrames Image noImage AddWeighted count None (tl (unread Image st)))
      as [rest|]; [|exact IH].
    destruct IH as (st' & Hl & Hw & Hu & Hc & Hf & Hlf).
    exists st'. split; [exact Hl|]. rewrite Hw, W4, Hu, Hf, F4, <- app_assoc.
    repeat split; auto.
    + destruct (unread Image st); [now rewrite skipn_nil | reflexivity].
    + intros m Hme Hmi. rewrite Hc by assumption. now apply C4.
    + rewrite Hlf. now destruct count.
Qed.

Lemma copyLoop_nil count st extraFrame img :
  lastFrame Image st = None ->
  copyLoop Image noImage AddWeighted (S count) st extraFrame img = NilDereference.
Proof.
  intros Hnil. cbn [copyLoop].
  destruct (Read_spec st img) as (_ & _ & _ & Rl & _). now rewrite Rl, Hnil.
Qed.

Lemma copyFrames_nth count :
  forall previous source frames,
    copyFrames Image noImage AddWeighted count previous source = Some frames ->
    List.length frames = (3 * count)%nat
    /\ forall k, (k < count)%nat ->
         let f := nth k source noImage in
         let p := match k, previous with
                  | O, Some l => l
                  | _, _ => f
                  end in
         nth_error frames (3 * k) = AddWeighted p w07 f w03 one
         /\ nth_error frames (3 * k + 1) = AddWeighted p w03 f w07 one
         /\ nth_error frames (3 * k + 2) = Some f.
Proof.
  induction count as [|count IH]; intros previous source frames; cbn [copyFrames].
  - intros [= <-]. split; [reflexivity|]. intros k Hk. lia.
  - set (f0 := hd noImage source).
    set (p0 := match previous with Some l => l | None => f0 end).
    destruct (AddWeighted p0 w07 f0 w03 one) as [x|] eqn:Ex; [|discriminate].
    destruct (AddWeighted p0 w03 f0 w07 one) as [y|] eqn:Ey; [|discriminate].
    destruct (copyFrames Image noImage AddWeighted count None (tl source)) as [rest|] eqn:ER;
      [|discriminate].
    intros [= <-]. destruct (IH _ _ _ ER) as [Hlen Hnth].
    split; [cbn [List.length]; rewrite Hlen; lia|].
    intros [|k] Hk.
    + cbv zeta. change (3 * 0)%nat with 0%nat. cbn [Nat.add nth_error].
      assert (nth 0 source noImage = f0) as -> by (subst f0; now destruct source).
      assert (match previous with Some l => l | None => f0 end = p0) as Ep by reflexivity.
      destruct previous; rewrite ?Ep; auto.
    + cbv zeta. specialize (Hnth k ltac:(lia)). cbv zeta in Hnth.
      assert (nth (S k) source noImage = nth k (tl source) noImage) as ->
          by (destruct source; [now destruct k | reflexivity]).
      replace (3 * S k)%nat with (S (S (S (3 * k)))) by lia.
      cbn [Nat.add nth_error].
      destruct Hnth as (H0 & H1 & H2).
      assert (match k with O | _ => nth k (tl source) noImage end
              = nth k (tl source) noImage) as Ek by (now destruct k).
      rewrite Ek in H0, H1. auto.
Qed.

(** X18: [CopyFrom] refuses a delay that is zero or negative and a
    writer that is not opened; with no last frame it stops on the nil
    pointer in its first turn.  A copy that returns without error has
    read [int(delay*30)] frames and written three frames for each: two
    blends and the frame.  In the first turn the blends mix the last
    frame written before with the frame read.  From the second turn on
    [vwm.lastFrame] points at the matrix the reader fills, so that both
    blends mix the frame with itself, whatever the frame before was. *)
Theorem CopyFrom_frames :
  forall (st : state Image) (delay : Float.float64),
    (Float.leb delay zero = true ->
     CopyFrom Image noImage AddWeighted st delay = Done (st, Some (WrongDuration delay)))
    /\ (Float.leb delay zero = false -> opened Image st = false ->
        CopyFrom Image noImage AddWeighted st delay = Done (st, Some CannotWrite))
    /\ (Float.leb delay zero = false -> opened Image st = true ->
        lastFrame Image st = None -> 1 <= nFramesOf delay ->
        CopyFrom Image noImage AddWeighted st delay = NilDereference)
    /\ (forall st' err last,
           lastFrame Image st = Some last -> (last < fresh Image st)%nat ->
           CopyFrom Image noImage AddWeighted st delay = Done (st', err) ->
           err = None ->
           let n := Z.to_nat (nFramesOf delay) in
           exists frames,
             written Image st' = written Image st ++ frames
             /\ List.length frames = (3 * n)%nat
             /\ unread Image st' = skipn n (unread Image st)
             /\ (forall k, (k < n)%nat ->
                   nth_error frames (3 * k + 2)
                   = Some (nth k (unread Image st) noImage))
             /\ ((0 < n)%nat ->
                 let f := nth 0 (unread Image st) noImage in
                 nth_error frames 0
                 = AddWeighted (contents Image st last) w07 f w03 one
                 /\ nth_error frames 1
                    = AddWeighted (contents Image st last) w03 f w07 one)
             /\ (forall k, (1 <= k < n)%nat ->
                   let f := nth k (unread Image st) noImage in
                   nth_error frames (3 * k) = AddWeighted f w07 f w03 one
                   /\ nth_error frames (3 * k + 1) = AddWeighted f w03 f w07 one)).
Proof.
  intros st delay. unfold CopyFrom.
  split; [intros ->; reflexivity|]. split; [intros -> ->; reflexivity|].
  split.
  - intros -> -> Hnil Hn. cbn [negb NewMat].
    destruct (Z.to_nat (nFramesOf delay)) as [|c] eqn:E; [lia|].
    rewrite copyLoop_nil; [reflexivity | exact Hnil].
  - intros st' err last Hlast Hlt H Herr. subst err.
    destruct (Float.leb delay zero); [discriminate|].
    destruct (opened Image st); cbn [negb] in H; [|discriminate].
    cbn [NewMat] in H.
    set (n := Z.to_nat (nFramesOf delay)) in *.
    set (st0 := snd (NewMat Image noImage (snd (NewMat Image noImage st)))).
    change (match copyLoop Image noImage AddWeighted n st0 (fresh Image st)
                    (S (fresh Image st)) with
            | Done st1 => Done (st1, None)
            | NilDereference => NilDereference
            | CvError => CvError
            end = Done (st', @None error)) in H.
    assert (lastFrame Image st0 = Some last) as L0 by exact Hlast.
    assert (unread Image st0 = unread Image st) as U0 by reflexivity.
    assert (written Image st0 = written Image st) as W0 by reflexivity.
    assert (previousOf Image st0 last (S (fresh Image st)) = Some (contents Image st last)) as P0.
    { unfold previousOf. destruct (Nat.eqb_spec last (S (fresh Image st))); [lia|].
      f_equal. cbn.
      destruct (Nat.eqb_spec last (S (fresh Image st))); [lia|].
      destruct (Nat.eqb_spec last (fresh Image st)); [lia | reflexivity]. }
    pose proof (copyLoop_spec n st0 (fresh Image st) (S (fresh Image st)) last L0
                  ltac:(lia) ltac:(lia)) as Hspec.
    rewrite P0, U0 in Hspec. clearbody st0.
    destruct (copyFrames Image noImage AddWeighted n (Some (contents Image st last))
                (unread Image st)) as [frames|] eqn:EF.
    + destruct Hspec as (st1 & Hl & Hw & Hu & _).
      rewrite Hl in H. injection H as <-.
      destruct (copyFrames_nth _ _ _ _ EF) as [Hlen Hnth].
      exists frames. split; [now rewrite Hw, W0|]. split; [exact Hlen|].
      split; [exact Hu|]. split; [|split].
      * intros k Hk. now destruct (Hnth k Hk) as (_ & _ & H2).
      * intros Hn. destruct (Hnth 0%nat Hn) as (H0 & H1 & _).
        cbv zeta in H0, H1. cbn [Nat.mul Nat.add] in H0, H1. auto.
      * intros k Hk. destruct (Hnth k ltac:(lia)) as (H0 & H1 & _).
        cbv zeta in H0, H1. destruct k as [|k]; [lia|]. auto.
    + rewrite Hspec in H. discriminate.
Qed.

(** X19: [RepeatFrame(img, ...)] followed by
    [FadeImageInto(img, vwm.lastFrame, ...)], as in [main], fades the
    image into itself: [vwm.lastFrame] is the image just repeated, and
    every frame of the fade is a blend of the image with the image. *)
Theorem fade_after_repeat_blends_image_with_itself :
  forall (st st1 st2 : state Image) (img last : nat) (d1 d2 : Float.float64)
         (e1 : option error),
    opened Image st = true ->
    0 <= nFramesOf d1 ->
    (img < fresh Image st)%nat ->
    RepeatFrame Image st img d1 = (st1, e1) ->
    lastFrame Image st1 = Some last ->
    FadeImageInto Image noImage AddWeighted st1 img last d2 = Done (st2, None) ->
    last = img
    /\ exists frames,
        written Image st2
        = written Image st
          ++ repeat (contents Image st img) (Z.to_nat (nFramesOf d1 + 1)) ++ frames
        /\ List.length frames = Z.to_nat (nFramesOf d2 + 1)
        /\ Forall (fun x => exists alpha beta,
                            AddWeighted (contents Image st img) alpha
                                        (contents Image st img) beta one = Some x) frames.
Proof.
  intros st st1 st2 img last d1 d2 e1 Ho Hn Hlt HR Hlast HF.
  unfold RepeatFrame in HR. rewrite Ho in HR. cbn [negb] in HR. injection HR as <- <-.
  destruct (repeatLoop_spec (Z.to_nat (nFramesOf d1 + 1)) st img)
    as (Hw & Hc & Hf & Ho1 & Hu & Hl).
  set (st1 := repeatLoop Image (Z.to_nat (nFramesOf d1 + 1)) st img) in *.
  assert (last = img) as ->.
  { rewrite Hl in Hlast. destruct (Z.to_nat (nFramesOf d1 + 1)) eqn:E; [lia|].
    now injection Hlast. }
  split; [reflexivity|].
  unfold FadeImageInto in HF.
  destruct (Float.leb d2 zero); [discriminate|]. rewrite Ho1, Ho in HF. cbn [negb] in HF.
  cbn [NewMat] in HF.
  set (n := nFramesOf d2) in *.
  set (st0 := snd (NewMat Image noImage st1)).
  change (match fadeLoop Image AddWeighted (Z.to_nat (n + 1)) 0 n st0
                  img img (fresh Image st1) with
          | Done s => Done (s, None)
          | NilDereference => NilDereference
          | CvError => CvError
          end = Done (st2, @None error)) in HF.
  assert (contents Image st0 img = contents Image st img) as E1.
  { cbn. rewrite Hf, Hc. destruct (Nat.eqb_spec img (fresh Image st)); [lia | reflexivity]. }
  assert (written Image st0 = written Image st1) as W0 by reflexivity.
  pose proof (fadeLoop_spec (Z.to_nat (n + 1)) 0 n st0 img img (fresh Image st1)
                ltac:(rewrite Hf; lia) ltac:(rewrite Hf; lia)) as Hspec.
  rewrite E1 in Hspec. clearbody st0.
  destruct (fadeFrames Image AddWeighted (Z.to_nat (n + 1)) 0 n
              (contents Image st img) (contents Image st img)) as [frames|] eqn:EF.
  - destruct Hspec as (s & Hs & Hws & _). rewrite Hs in HF. injection HF as <-.
    destruct (fadeFrames_nth _ _ _ _ _ _ EF) as [Hlen Hnth].
    exists frames. rewrite Hws, W0, Hw, <- app_assoc.
    split; [reflexivity|]. split; [exact Hlen|].
    apply Forall_forall. intros x Hx. apply In_nth_error in Hx. destruct Hx as [k Hk].
    assert (k < Z.to_nat (n + 1))%nat as Hkn
        by (rewrite <- Hlen; apply nth_error_Some; congruence).
    rewrite <- (Hnth k Hkn) in Hk. eauto.
  - rewrite Hspec in HF. discriminate.
Qed.

End Facts.

End VideoFacts.

(* ================================================================== *)
(** * The message box *)

Module MessageBoxFacts.
Import Video.

Section Facts.

Variable GetTextSize : string -> Z -> Float.float64 -> Z -> Point.

Lemma linesLoop_spec lines :
  forall i img textColor fontScale thickness width startY lineHeightPixels,
    exists drawn,
      linesLoop GetTextSize lines i img textColor fontScale thickness
        width startY lineHeightPixels = img ++ drawn
      /\ List.length drawn = List.length lines
      /\ forall k s,
           nth_error lines k = Some s ->
           nth_error drawn k
           = Some (Draw.PutText s
                     (Pt (GoInt.quo (GoInt.sub width
                                       (X (GetTextSize s font fontScale thickness))) 2)
                         (GoInt.add startY (GoInt.mul (i + Z.of_nat k) lineHeightPixels)))
                     font fontScale textColor thickness).
Proof.
  induction lines as [|s0 lines IH];
    intros i img tc fs th w sy lh; cbn [linesLoop]; cbv zeta.
  - exists []. rewrite app_nil_r. repeat split; auto. intros [|k] s H; discriminate.
  - destruct (IH (i + 1) (img ++ [Draw.PutText s0
        (Pt (GoInt.quo (GoInt.sub w (X (GetTextSize s0 font fs th))) 2)
            (GoInt.add sy (GoInt.mul i lh))) font fs tc th]) tc fs th w sy lh)
      as (drawn & Heq & Hlen & Hnth).
    eexists (_ :: drawn). split; [rewrite Heq, <- app_assoc; reflexivity|].
    split; [cbn [List.length]; now rewrite Hlen|].
    intros [|k] s H; cbn [nth_error] in *.
    + injection H as <-. now rewrite Z.add_0_r.
    + rewrite (Hnth k s H).
      now replace (i + 1 + Z.of_nat k) with (i + Z.of_nat (S k)) by lia.
Qed.

(** X20: [MessageBox] draws the background over the whole image and
    then every line once, in order.  Each line is centred
    horizontally: for a line not wider than the image, the margin on
    the left is [(width - lineWidth)/2] and the margin on the right is
    the same or one pixel more. *)
Theorem MessageBox_lines_centred_horizontally :
  forall (lines : list string) (textColor bgColor : Draw.RGBA)
         (fontScale lineHeight : Float.float64) (thickness width height : Z),
    let out := MessageBox GetTextSize lines textColor bgColor fontScale lineHeight
                 thickness width height in
    List.length out = S (List.length lines)
    /\ nth_error out 0 = Some (Draw.Rectangle (Rect 0 0 width height) bgColor (-1))
    /\ forall k s,
         nth_error lines k = Some s ->
         exists org,
           nth_error out (S k)
           = Some (Draw.PutText s org font fontScale textColor thickness)
           /\ (let lineWidth := X (GetTextSize s font fontScale thickness) in
               0 <= lineWidth <= width -> width <= 2 ^ 62 ->
               X org = (width - lineWidth) / 2
               /\ 0 <= X org
               /\ 0 <= (width - (X org + lineWidth)) - X org <= 1).
Proof.
  intros lines tc bg fs lhf th w h. cbv zeta. unfold MessageBox.
  destruct lines as [|first rest]; [repeat split; auto; intros [|k] s H; discriminate|].
  set (lines := first :: rest).
  match goal with
  | |- context [linesLoop GetTextSize lines 0 ?img tc fs th w ?sy ?lh] =>
      destruct (linesLoop_spec lines 0 img tc fs th w sy lh) as (drawn & Heq & Hlen & Hnth);
      rewrite Heq
  end.
  cbn [app List.length nth_error].
  split; [now rewrite Hlen|]. split; [reflexivity|].
  intros k s Hk. eexists. split; [exact (Hnth k s Hk)|].
  cbv zeta. cbn [X]. intros Hlw Hw.
  unfold GoInt.quo, GoInt.sub.
  rewrite (GoIntFacts.wrap_id (w - _))
    by (unfold GoInt.in_range, GoInt.min_int, GoInt.max_int; lia).
  rewrite Z.quot_div_nonneg by lia.
  pose proof (Z.div_mod (w - X (GetTextSize s font fs th)) 2 ltac:(lia)) as Hdm.
  pose proof (Z.mod_pos_bound (w - X (GetTextSize s font fs th)) 2 ltac:(lia)) as Hmod.
  rewrite GoIntFacts.wrap_id
    by (unfold GoInt.in_range, GoInt.min_int, GoInt.max_int; lia).
  lia.
Qed.

(** X21: the lines are set one below the other at equal distances, and
    the block of text is centred vertically: with the text height of
    the first line, a line distance that is not negative and a block
    that is not higher than the image, the space above the first line
    is [(height - totalTextHeight)/2] and the space below the base line
    of the last line is the same or one pixel more. *)
Theorem MessageBox_block_centred_vertically :
  forall (first : string) (rest : list string) (textColor bgColor : Draw.RGBA)
         (fontScale lineHeight : Float.float64) (thickness width height : Z),
    let lines := first :: rest in
    let n := Z.of_nat (List.length lines) in
    let textHeight := Y (GetTextSize first font fontScale thickness) in
    let lineDist :=
      Float.int_of_float (Float.mul64 (Float.float64_of_int textHeight) lineHeight) in
    let total := lineDist * (n - 1) + textHeight in
    let out := MessageBox GetTextSize lines textColor bgColor fontScale lineHeight
                 thickness width height in
    0 <= textHeight <= 2 ^ 30 -> 0 <= lineDist <= 2 ^ 30 -> n <= 2 ^ 30 ->
    total <= height <= 2 ^ 62 ->
    exists startY,
      startY = (height - total) / 2 + textHeight
      /\ (forall k s,
             nth_error lines k = Some s ->
             exists x,
               nth_error out (S k)
               = Some (Draw.PutText s (Pt x (startY + Z.of_nat k * lineDist))
                                    font fontScale textColor thickness))
      /\ (let top := startY - textHeight in
          let bottom := startY + (n - 1) * lineDist in
          0 <= top /\ bottom - top = total
          /\ 0 <= (height - bottom) - top <= 1).
Proof.
  intros first rest tc bg fs lhf th w h lines n textHeight lineDist total out
         Hth Hld Hn Htot.
  assert (forall z, Z.abs z <= 2 ^ 62 + 2 ^ 61 -> GoInt.wrap z = z) as Hw.
  { intros z Hz. apply GoIntFacts.wrap_id.
    unfold GoInt.in_range, GoInt.min_int, GoInt.max_int. lia. }
  assert (0 <= n - 1) as Hn1 by (subst n lines; cbn [List.length]; lia).
  assert (0 <= total <= 2 ^ 61) as Htb by (subst total; nia).
  pose proof (Z.div_mod (h - total) 2 ltac:(lia)) as Hdm.
  pose proof (Z.mod_pos_bound (h - total) 2 ltac:(lia)) as Hmod.
  exists ((h - total) / 2 + textHeight). split; [reflexivity|]. split.
  - intros k s Hk. subst out. unfold MessageBox. unfold lines at 1.
    match goal with
    | |- context [linesLoop GetTextSize ?l 0 ?img tc fs th w ?sy ?lh] =>
        destruct (linesLoop_spec l 0 img tc fs th w sy lh) as (drawn & Heq & _ & Hnth);
        rewrite Heq
    end.
    cbn [app nth_error].
    exists (GoInt.quo (GoInt.sub w (X (GetTextSize s font fs th))) 2).
    rewrite (Hnth k s Hk).
    assert (Z.of_nat k < n) as Hkn.
    { subst n. assert (k < List.length lines)%nat by (apply nth_error_Some; congruence).
      lia. }
    apply f_equal.
    apply (f_equal (fun p => Draw.PutText s p font fs tc th)).
    apply (f_equal (fun y => Pt (GoInt.quo (GoInt.sub w (X (GetTextSize s font fs th))) 2) y)).
    change (GoInt.add
              (GoInt.add
                 (GoInt.quo
                    (GoInt.sub h
                       (GoInt.add (GoInt.mul lineDist (GoInt.sub n 1)) textHeight)) 2)
                 textHeight)
              (GoInt.mul (0 + Z.of_nat k) lineDist)
            = (h - total) / 2 + textHeight + Z.of_nat k * lineDist).
    unfold GoInt.add, GoInt.sub, GoInt.mul, GoInt.quo.
    rewrite (Hw (n - 1)) by lia.
    rewrite (Hw (lineDist * (n - 1))) by nia.
    fold total. rewrite (Hw total) by lia. rewrite (Hw (h - total)) by lia.
    rewrite Z.quot_div_nonneg by lia.
    rewrite (Hw ((h - total) / 2)) by lia.
    rewrite (Hw ((h - total) / 2 + textHeight)) by lia.
    rewrite (Hw ((0 + Z.of_nat k) * lineDist)) by nia.
    rewrite Hw by nia. lia.
  - cbv zeta. subst total. nia.
Qed.

End Facts.

End MessageBoxFacts.

(* ================================================================== *)
(** * The rest of the code on the sample inputs *)

Module ExtraSampleFacts.
Import Samples ExtraSamples.

Lemma noLF_replicate n c : c <> Bufio.LF -> noLF (replicate n c).
Proof. intros H. induction n; cbn; auto. Qed.

Lemma length_replicate n c : String.length (replicate n c) = n.
Proof. induction n; cbn; congruence. Qed.

Ltac plain_labels :=
  repeat constructor; try discriminate; try reflexivity.

Ltac by_evaluation := repeat split; vm_compute; discriminate.

(** Swapping the first and the last of three detections. *)
Lemma Swap_exchanges_witness :
  Slice.Swap [detPerson; detFainter; detCar] 0 2 = Ok [detCar; detFainter; detPerson]
  /\ Permutation [detPerson; detFainter; detCar] [detCar; detFainter; detPerson]
  /\ index [detCar; detFainter; detPerson] 0 = index [detPerson; detFainter; detCar] 2.
Proof.
  assert (Slice.Swap [detPerson; detFainter; detCar] 0 2
          = Ok [detCar; detFainter; detPerson]) as H by reflexivity.
  split; [exact H|].
  pose proof (SliceFacts.Swap_exchanges _ _ 0 2 H) as (_ & _ & HP & _ & Hi & _).
  split; [exact HP | exact Hi].
Defined.

Lemma Swap_involutive_witness :
  exists yd',
    Slice.Swap [detPerson; detFainter; detCar] 0 2 = Ok yd'
    /\ Slice.Swap yd' 0 2 = Ok [detPerson; detFainter; detCar].
Proof.
  apply SliceFacts.Swap_involutive; unfold Slice.Len; cbn; lia.
Defined.

(** The file of three labels, the last without a line ending. *)
Lemma readClassLabels_round_trip_witness :
  readClassLabels files "more.names"
  = Returns ["person"%string; "car"%string; "dog"%string].
Proof.
  apply (LabelFacts.readClassLabels_round_trip files "more.names" newline labels "dog").
  - left. reflexivity.
  - plain_labels.
  - plain_labels.
  - reflexivity.
Defined.

Lemma readClassLabels_labels_bounded_witness :
  Forall (fun label => noLF label /\ Z.of_nat (String.length label) < 64 * 1024)
         ["person"%string; "car"%string; "dog"%string].
Proof.
  apply (LabelFacts.readClassLabels_labels_bounded files "more.names").
  vm_compute. reflexivity.
Defined.

(** The file with the line of 64 KiB: the label after it is lost. *)
Lemma readClassLabels_long_line_truncates_witness :
  readClassLabels files "long.names" = Returns labels.
Proof.
  apply (LabelFacts.readClassLabels_long_line_truncates
           files "long.names" crlf labels longLine (newline ++ "dog")).
  - right. reflexivity.
  - plain_labels.
  - apply noLF_replicate. discriminate.
  - unfold longLine. rewrite length_replicate, Z2Nat.id; lia.
  - reflexivity.
Defined.

(** The label of [detPerson], whose box has its corner at (40, 40):
    a text of 66 by 13 pixels. *)
Lemma drawOne_label_geometry_witness :
  Draw.drawOne textSize [] detPerson
  = [Draw.Rectangle {| Min := Pt 40 21; Max := Pt 112 40 |} Draw.darkblue (-1);
     Draw.PutText "person" (Pt 43 34) Draw.fontFace Draw.fontScale Draw.white
                  Draw.fontThickness;
     Draw.Rectangle box40 Draw.green Draw.bboxThickness]
  /\ Draw.within (Draw.textBox (Pt 43 34) (Pt 66 13))
                 {| Min := Pt 40 21; Max := Pt 112 40 |}.
Proof.
  apply (DrawFacts.drawOne_label_geometry textSize [] detPerson); by_evaluation.
Defined.

(** Against the queen's descriptors: 21 pairs, 20 of them good. *)
Lemma numGoodMatches_counts_witness :
  Orb.numGoodMatches nat knn 17%nat 12%nat = Ok 20.
Proof.
  assert (Z.of_nat (List.length (knn 17%nat 12%nat 2)) <= GoInt.max_int) as H1
      by by_evaluation.
  assert (Forall (fun pair : list Orb.DMatch => (2 <= List.length pair)%nat)
                 (knn 17%nat 12%nat 2)) as H2
      by (repeat constructor).
  exact (proj1 (proj1 (OrbFacts.numGoodMatches_counts nat knn 17%nat 12%nat H1) H2)).
Defined.

(** Jack, queen and king with 16, 20 and 20 good matches: the queen. *)
Lemma Match_first_best_witness :
  exists best n,
    Orb.Match nat isEmpty detect knn 0%nat cards 7%nat = Ok (best, n)
    /\ ((n = 0 /\ best = Orb.noPattern nat 0%nat /\
         forall p, In p cards -> cardCount p <= Orb.thrMatches)
        \/ (Orb.thrMatches < n /\
            exists before after,
              cards = before ++ best :: after /\
              cardCount best = n /\
              (forall p, In p before -> cardCount p < n) /\
              (forall p, In p after -> cardCount p <= n))).
Proof.
  apply (OrbFacts.Match_first_best nat isEmpty detect knn 0%nat cards 7%nat cardCount).
  - reflexivity.
  - intros p [<-|[<-|[<-|[]]]]; vm_compute; reflexivity.
Defined.

Lemma Match_above_threshold_witness :
  Orb.Match nat isEmpty detect knn 0%nat cards 7%nat = Ok (queen, 20)
  /\ ((20 = 0 /\ queen = Orb.noPattern nat 0%nat)
      \/ (Orb.thrMatches < 20 /\ In queen cards /\
          Orb.numGoodMatches nat knn (detect 7) (Orb.descr nat queen) = Ok 20)).
Proof.
  assert (Orb.Match nat isEmpty detect knn 0%nat cards 7%nat = Ok (queen, 20)) as H
      by (vm_compute; reflexivity).
  split; [exact H|].
  exact (OrbFacts.Match_above_threshold nat isEmpty detect knn 0%nat cards 7%nat
           queen 20 H).
Defined.

(** The labels of the file and the two detections of a sample image. *)
Lemma detection_names_are_file_lines_witness :
  Forall (fun d => nth_error labels (Z.to_nat (detClass d)) = Some (detName d)
                   /\ 0 <= detClass d < Z.of_nat (List.length labels))
         [detCar; detCorner].
Proof.
  apply (detection_names_are_file_lines insertionSort files "coco.names" newline
           labels labels
           [[rowCorner]; [rowObjectness]] [100; 100] [detCar; detCorner]).
  - exact insertionSort_permutes.
  - left. reflexivity.
  - plain_labels.
  - reflexivity.
  - vm_compute. reflexivity.
  - vm_compute. reflexivity.
Defined.

(** The intro frame repeated for a tenth of a second and then faded
    into [vwm.lastFrame]. *)
Lemma fade_after_repeat_witness :
  Video.lastFrame (list Z) repeated = Some 0%nat
  /\ exists frames,
      Video.written (list Z) faded
      = Video.written (list Z) studio ++ repeat [10; 200] 4 ++ frames
      /\ List.length frames = 4%nat
      /\ Forall (fun x => exists alpha beta,
                   blend [10; 200] alpha [10; 200] beta Video.one = Some x) frames.
Proof.
  split; [reflexivity|].
  refine (proj2 (VideoFacts.fade_after_repeat_blends_image_with_itself
                   (list Z) [] blend studio repeated faded 0%nat 0%nat tenth tenth None
                   _ _ _ _ _ _)).
  - reflexivity.
  - by_evaluation.
  - cbn. lia.
  - vm_compute. reflexivity.
  - reflexivity.
  - vm_compute. reflexivity.
Defined.

(** The first intro screen of [main]: three lines of 13 pixels, 39
    pixels apart, on 720 rows. *)
Lemma MessageBox_block_centred_vertically_witness :
  exists startY,
    startY = (720 - 91) / 2 + 13
    /\ (forall k s,
           nth_error introLines k = Some s ->
           exists x,
             nth_error (Video.MessageBox textSize introLines Draw.white Draw.darkblue
                          (Float.float64_of_int 2) (Float.float64_of_int 3) 3 1280 720)
                       (S k)
             = Some (Draw.PutText s (Pt x (startY + Z.of_nat k * 39)) Video.font
                                  (Float.float64_of_int 2) Draw.white 3))
    /\ (0 <= startY - 13
        /\ startY + (3 - 1) * 39 - (startY - 13) = 91
        /\ 0 <= (720 - (startY + (3 - 1) * 39)) - (startY - 13) <= 1).
Proof.
  apply (MessageBoxFacts.MessageBox_block_centred_vertically textSize
           "OpenCV ORB" ["playing cards recognition"%string; "example with gocv"%string]
           Draw.white Draw.darkblue (Float.float64_of_int 2) (Float.float64_of_int 3)
           3 1280 720); by_evaluation.
Defined.

(** What the samples give when run. *)

Example labels_of_the_file :
  readClassLabels files "coco.names" = Returns labels
  /\ readClassLabels files "none" = Exits 1.
Proof. split; vm_compute; reflexivity. Qed.

Example lone_match_panics :
  Orb.numGoodMatches nat knn 17%nat 14%nat = Panic (IndexOutOfRange 1 1).
Proof. vm_compute. reflexivity. Qed.

Example empty_image_matches_nothing :
  Orb.Match nat isEmpty detect knn 0%nat cards 0%nat = Ok (Orb.noPattern nat 0%nat, 0).
Proof. vm_compute. reflexivity. Qed.

Example fade_frames :
  Video.written (list Z) faded
  = repeat [10; 200] 4 ++ [[11; 201]; [11; 201]; [11; 201]; [11; 201]].
Proof. vm_compute. reflexivity. Qed.

(** Copying two frames after the repeat: the first pair of blends mixes
    the intro frame with the frame read, the second pair the second
    frame with itself. *)
Example copy_frames :
  match Video.CopyFrom (list Z) [] blend repeated
          (SFdiv 53 1024 (Float.float64_of_int 1) (Float.float64_of_int 15)) with
  | Video.Done (st, None) =>
      Video.written (list Z) st
      = repeat [10; 200] 4
        ++ [[8; 141]; [4; 62]; [1; 2]]
        ++ [[3; 5]; [3; 5]; [3; 4]]
  | _ => False
  end.
Proof. vm_compute. reflexivity. Qed.

Example intro_screen :
  Video.MessageBox textSize introLines Draw.white Draw.darkblue
    (Float.float64_of_int 2) (Float.float64_of_int 3) 3 1280 720
  = [Draw.Rectangle (Rect 0 0 1280 720) Draw.darkblue (-1);
     Draw.PutText "OpenCV ORB" (Pt 585 327) Video.font
       (Float.float64_of_int 2) Draw.white 3;
     Draw.PutText "playing cards recognition" (Pt 502 366) Video.font
       (Float.float64_of_int 2) Draw.white 3;
     Draw.PutText "example with gocv" (Pt 546 405) Video.font
       (Float.float64_of_int 2) Draw.white 3].
Proof. vm_compute. reflexivity. Qed.

End ExtraSampleFacts.
